(** * The steve runtime: a shallow embedding of the IR decoder, the interpreter
    core, the value model, the builtins, the debugger, the memory pools and
    the two mark-and-sweep collectors, with the properties checked against
    them.

    Sources embedded: [src/steve/vm.h], [src/steve/vm.cpp],
    [src/steve/vm_exception.h], [src/steve/vm_gc.cpp], [src/steve/gc.cpp],
    [src/steve/mem.cpp].

    Conventions.
    - [int] is a [Z] in [-2^31, 2^31), [int64_t] a [Z] in [-2^63, 2^63),
      [size_t] a [Z] in [0, 2^64); wrap-around is written with [Int.wrap32],
      [Int.wrap64] and [Int.usize].  Signed overflow of a sum, a difference,
      a product or a counter is undefined in C++; the embedding wraps it.
      A quotient that overflows has no value at all: it is [Outside].
    - [double] is the kernel's binary64 [float].
    - [std::string] is [string]; [std::vector] is [list]; a vector used as a
      stack ([state.stack], [state.scopes], the collectors' worklists) is
      kept with its [back()] at the head of the list.
    - [std::unordered_map] is [gmap], [std::unordered_set] is [gset]; where
      the C++ iterates such a container the embedding iterates [elements] or
      [map_to_list], one of the orders the C++ may take.
    - pointers are [Z] addresses, [0] being [nullptr]. *)

From Stdlib Require Import ZArith Lia List String Ascii Bool PrimFloat Uint63 DecimalString.
From Stdlib Require Import Sorted.
From Stdlib Require FloatOps SpecFloat DecimalPos.
From stdpp Require Import base gmap sets list strings.

Open Scope Z_scope.
Set Warnings "-register-all,-clear-no-such-hyp".

(** ** Machine integers *)

Module Int.

Definition wrap (w : Z) (z : Z) : Z := (z + 2 ^ (w - 1)) mod 2 ^ w - 2 ^ (w - 1).

(** [static_cast<int>] of an integer value. *)
Definition wrap32 (z : Z) : Z := wrap 32 z.

(** The value an [int64_t] computation yields. *)
Definition wrap64 (z : Z) : Z := wrap 64 z.

(** The value a [size_t] computation yields. *)
Definition usize (z : Z) : Z := z mod 2 ^ 64.

Definition INT_MIN : Z := - 2 ^ 31.
Definition INT_MAX : Z := 2 ^ 31 - 1.
Definition INT64_MIN : Z := - 2 ^ 63.

Definition in_int (z : Z) : Prop := INT_MIN <= z <= INT_MAX.
Definition in_int64 (z : Z) : Prop := - 2 ^ 63 <= z < 2 ^ 63.

(** [static_cast<double>] of an [int64_t]: round to nearest.  [of_uint63]
    takes the magnitude, which fits 63 bits except for [-2^63]. *)
Definition to_double (z : Z) : float :=
  if z =? - 2 ^ 63 then PrimFloat.opp (PrimFloat.mul (PrimFloat.of_uint63 (Uint63.of_Z (2 ^ 62))) (PrimFloat.of_uint63 (Uint63.of_Z 2)))
  else if z <? 0 then PrimFloat.opp (PrimFloat.of_uint63 (Uint63.of_Z (- z)))
  else PrimFloat.of_uint63 (Uint63.of_Z z).

(** [operator<<] of an integer: decimal digits, a leading [-] when negative. *)
Definition to_string (z : Z) : string := NilZero.string_of_int (Z.to_int z).

End Int.

(** ** The [std::string] operations the runtime uses *)

Module Str.

Definition quote : ascii := ascii_of_nat 34.
Definition newline : string := String (ascii_of_nat 10) EmptyString.

(** [std::isspace] in the C locale. *)
Definition isspace (c : ascii) : bool :=
  let n := nat_of_ascii c in
  (n =? 32)%nat || ((9 <=? n)%nat && (n <=? 13)%nat).

(** [::tolower] in the C locale. *)
Definition tolower_char (c : ascii) : ascii :=
  let n := nat_of_ascii c in
  if (65 <=? n)%nat && (n <=? 90)%nat then ascii_of_nat (n + 32) else c.

Fixpoint tolower (s : string) : string :=
  match s with
  | EmptyString => EmptyString
  | String c r => String (tolower_char c) (tolower r)
  end.

Definition eqb_ascii (a b : ascii) : bool := Ascii.eqb a b.

(** [s[0]]: the terminating null when [s] is empty. *)
Definition at0 (s : string) : ascii :=
  match s with
  | EmptyString => Ascii.zero
  | String c _ => c
  end.

Definition front (s : string) : option ascii :=
  match s with
  | EmptyString => None
  | String c _ => Some c
  end.

Fixpoint back (s : string) : option ascii :=
  match s with
  | EmptyString => None
  | String c EmptyString => Some c
  | String _ r => back r
  end.

(** [s.pop_back()] on a non-empty string. *)
Fixpoint pop_back (s : string) : string :=
  match s with
  | EmptyString => EmptyString
  | String c EmptyString => EmptyString
  | String c r => String c (pop_back r)
  end.

Fixpoint drop (n : nat) (s : string) : string :=
  match n, s with
  | O, _ => s
  | S n', EmptyString => EmptyString
  | S n', String _ r => drop n' r
  end.

Fixpoint take (n : nat) (s : string) : string :=
  match n, s with
  | O, _ => EmptyString
  | S n', EmptyString => EmptyString
  | S n', String c r => String c (take n' r)
  end.

(** [s.substr(pos, len)] for [pos <= s.size()], [len] a [size_t] value:
    at most [len] characters from [pos] on.  ([pos > s.size()] throws
    [std::out_of_range]; no call site of the embedded code reaches it.) *)
Definition substr (pos len : Z) (s : string) : string :=
  let n := Z.of_nat (String.length s) in
  take (Z.to_nat (Z.min len (n - pos))) (drop (Z.to_nat pos) s).

(** [s.find(c)]: the index of the first [c], or [None] for [npos]. *)
Fixpoint find_char (c : ascii) (s : string) : option nat :=
  match s with
  | EmptyString => None
  | String d r => if eqb_ascii c d then Some O else option_map S (find_char c r)
  end.

Fixpoint is_prefix (p s : string) : bool :=
  match p, s with
  | EmptyString, _ => true
  | String _ _, EmptyString => false
  | String a p', String b s' => eqb_ascii a b && is_prefix p' s'
  end.

(** [s.find(needle) != npos]. *)
Fixpoint contains (needle s : string) : bool :=
  is_prefix needle s ||
  match s with
  | EmptyString => false
  | String _ r => contains needle r
  end.

(** Membership in the character set [" \t\r\n"] of [parseIR]'s trimming. *)
Definition is_trim_char (c : ascii) : bool :=
  let n := nat_of_ascii c in
  (n =? 32)%nat || (n =? 9)%nat || (n =? 13)%nat || (n =? 10)%nat.

(** [s.erase(0, s.find_first_not_of(" \t\r\n"))]. *)
Fixpoint trim_left (s : string) : string :=
  match s with
  | EmptyString => EmptyString
  | String c r => if is_trim_char c then trim_left r else s
  end.

(** [s.erase(s.find_last_not_of(" \t\r\n") + 1)]. *)
Fixpoint trim_right (s : string) : string :=
  match s with
  | EmptyString => EmptyString
  | String c r =>
      match trim_right r with
      | EmptyString => if is_trim_char c then EmptyString else String c EmptyString
      | r' => String c r'
      end
  end.

(** The lines [std::getline] yields, one call after the other, until it
    fails: a final line needs no newline, and a text ending in a newline
    has no empty line after it. *)
Fixpoint getlines_aux (cur : string) (started : bool) (s : string) : list string :=
  match s with
  | EmptyString => if started then [cur] else []
  | String c r =>
      if (nat_of_ascii c =? 10)%nat then cur :: getlines_aux EmptyString false r
      else getlines_aux (cur ++ String c EmptyString) true r
  end.

Definition getlines (s : string) : list string := getlines_aux EmptyString false s.

(** The tokens [stream >> token] yields, one after the other, until it
    fails: maximal runs of non-space characters. *)
Fixpoint tokens_aux (cur : string) (s : string) : list string :=
  match s with
  | EmptyString => match cur with EmptyString => [] | _ => [cur] end
  | String c r =>
      if isspace c then
        match cur with
        | EmptyString => tokens_aux EmptyString r
        | _ => cur :: tokens_aux EmptyString r
        end
      else tokens_aux (cur ++ String c EmptyString) r
  end.

Definition tokens (s : string) : list string := tokens_aux EmptyString s.

Definition digit_of (c : ascii) : option Z :=
  let n := nat_of_ascii c in
  if (48 <=? n)%nat && (n <=? 57)%nat then Some (Z.of_nat n - 48) else None.

(** The digits at the start of [s], folded into [acc]; [None] when [s]
    starts with no digit. *)
Fixpoint read_digits (acc : Z) (seen : bool) (s : string) : option Z :=
  match s with
  | EmptyString => if seen then Some acc else None
  | String c r =>
      match digit_of c with
      | Some d => read_digits (10 * acc + d) true r
      | None => if seen then Some acc else None
      end
  end.

Fixpoint skip_space (s : string) : string :=
  match s with
  | EmptyString => EmptyString
  | String c r => if isspace c then skip_space r else s
  end.

(** [std::stoi(s)]: leading white space, an optional sign, decimal
    digits; what follows the digits is ignored.  [None] stands for the
    two exceptions it throws ([std::invalid_argument] when there is no
    digit, [std::out_of_range] when the value does not fit an [int]). *)
Definition stoi (s : string) : option Z :=
  let s1 := skip_space s in
  let '(neg, s2) :=
    match s1 with
    | String c r =>
        if eqb_ascii c "-"%char then (true, r)
        else if eqb_ascii c "+"%char then (false, r)
        else (false, s1)
    | EmptyString => (false, s1)
    end in
  match read_digits 0 false s2 with
  | Some v =>
      let z := if neg then - v else v in
      if (Int.INT_MIN <=? z) && (z <=? Int.INT_MAX) then Some z else None
  | None => None
  end.

End Str.

(** ** The value model ([vm.h]) *)

(** [ManagedObject]: [data] is the payload's address. *)
Record ManagedObject := mkManagedObject {
  mo_data : Z;
  mo_type : string;
  mo_size : Z;
  mo_marked : bool
}.

(** [ManagedObject(d, t, s)]. *)
Definition ManagedObject_new (d : Z) (t : string) (s : Z) : ManagedObject :=
  mkManagedObject d t s false.

(** [~ManagedObject()]: the address it passes to [std::free], none when
    [data] is null. *)
Definition ManagedObject_delete (o : ManagedObject) : option Z :=
  if mo_data o =? 0 then None else Some (mo_data o).

(** [PointerValue]: [obj] is the address of the [ManagedObject] pointed to
    ([0] for none), [ptr] the raw pointer value. *)
Record PointerValue := mkPointerValue {
  pv_obj : Z;
  pv_ptr : Z;
  pv_type : string;
  isNull : bool;
  isWeak : bool;
  isRef : bool
}.

(** [PointerValue()]. *)
Definition PointerValue_default : PointerValue :=
  mkPointerValue 0 0 EmptyString true false false.

(** [PointerValue(ManagedObject* o, t, weak, ref)]; [data] is [o->data],
    read when [o] is not null. *)
Definition PointerValue_of_obj (o : Z) (data : Z) (t : string) (weak ref : bool) : PointerValue :=
  mkPointerValue o (if o =? 0 then 0 else data) t (o =? 0) weak ref.

(** [PointerValue(void* p, t, weak, ref)]. *)
Definition PointerValue_of_raw (p : Z) (t : string) (weak ref : bool) : PointerValue :=
  mkPointerValue 0 p t (p =? 0) weak ref.

(** [Value]: the alternatives of the [std::variant], in its order
    [int, double, bool, std::string, nullptr_t, int64_t, PointerValue,
    ListValue, DictValue]. *)
Inductive Value :=
| VInt (n : Z)
| VDouble (d : float)
| VBool (b : bool)
| VString (s : string)
| VNull
| VLong (n : Z)
| VPointer (p : PointerValue)
| VList (items : list Value)
| VDict (items : list (string * Value)).

(** ** Exceptions ([vm_exception.h]) *)

Inductive ExceptionClass := RuntimeError | TypeError | AccessError | MemoryError.

Record VMException := mkVMException {
  exn_class : ExceptionClass;
  exn_message : string;
  exn_line : Z
}.

(** The constructors prefix the message with the class's label. *)
Definition throw (c : ExceptionClass) (msg : string) (line : Z) : VMException :=
  let label :=
    match c with
    | RuntimeError => "Runtime Error: "
    | TypeError => "Type Error: "
    | AccessError => "Access Error: "
    | MemoryError => "Memory Error: "
    end%string in
  mkVMException c (label ++ msg)%string line.

(** ** Instructions and machine state ([vm.h]) *)

Inductive InstructionType :=
| DEFVAR | LOAD | STORE | FUNC | CALL | IF | ELSE | END | WHILE | DO | RETURN
| IMPORT | PRINT | INPUT | BINARY_OP | UNARY_OP | PUSH | POP | GOTO | LABEL
| GC_NEW | GC_DELETE | GC_RUN | MEM_MALLOC | MEM_FREE | TRY | CATCH | BREAK
| CONTINUE | PASS | PACKAGE | PTR_NEW | PTR_DEREF | THROW | NOP | DEBUG.

Definition InstructionType_eqb (a b : InstructionType) : bool :=
  match a, b with
  | DEFVAR, DEFVAR | LOAD, LOAD | STORE, STORE | FUNC, FUNC | CALL, CALL
  | IF, IF | ELSE, ELSE | END, END | WHILE, WHILE | DO, DO | RETURN, RETURN
  | IMPORT, IMPORT | PRINT, PRINT | INPUT, INPUT | BINARY_OP, BINARY_OP
  | UNARY_OP, UNARY_OP | PUSH, PUSH | POP, POP | GOTO, GOTO | LABEL, LABEL
  | GC_NEW, GC_NEW | GC_DELETE, GC_DELETE | GC_RUN, GC_RUN
  | MEM_MALLOC, MEM_MALLOC | MEM_FREE, MEM_FREE | TRY, TRY | CATCH, CATCH
  | BREAK, BREAK | CONTINUE, CONTINUE | PASS, PASS | PACKAGE, PACKAGE
  | PTR_NEW, PTR_NEW | PTR_DEREF, PTR_DEREF | THROW, THROW | NOP, NOP
  | DEBUG, DEBUG => true
  | _, _ => false
  end.

(** [Instruction].  The fields [operand1], [operand2], [operand3] and
    [literal] are set by the constructor and never read; they are left out. *)
Record Instruction := mkInstruction {
  i_type : InstructionType;
  i_line : Z;
  operands : list string
}.

(** [Instruction()]: a [NOP] at line [-1] whose [operands] vector is
    created with three empty strings. *)
Definition Instruction_default : Instruction :=
  mkInstruction NOP (-1) [EmptyString; EmptyString; EmptyString].

(** [MachineState].  The registers [rax] .. [rdx] are set to zero by the
    constructor and never used; they are left out. *)
Record MachineState := mkMachineState {
  pc : Z;
  running : bool;
  scopes : list (gmap string Value);
  program : list Instruction;
  stack : list Value;
  variables : gmap string Value;
  functions : gmap string Z
}.

(** [FileHandle]: the stream is kept as its [isOpen] flag. *)
Record FileHandle := mkFileHandle {
  fh_filename : string;
  fh_mode : string;
  fh_isOpen : bool
}.

(** ** The worklist traversal shared by the two collectors

    Both mark phases run the same loop: pop the back of the worklist, look
    its edge list up in [references], and for every target that passes the
    collector's test and is not yet in the visited set, add it to the set
    and push it.  [ok] is the collector's test: [heap.count(ref)] in
    [vm_gc.cpp], [referenced != nullptr] in [gc.cpp]. *)

Module Worklist.

Definition visit (ok : Z -> bool) (st : gset Z * list Z) (ref : Z) : gset Z * list Z :=
  if ok ref && bool_decide (ref ∉ st.1) then ({[ ref ]} ∪ st.1, ref :: st.2) else st.

(** The [while (!worklist.empty())] loop, for at most [fuel] rounds.  The
    second component is what is left on the worklist: [[]] when the loop
    ended by itself. *)
Fixpoint loop (fuel : nat) (ok : Z -> bool) (references : gmap Z (list Z))
    (visited : gset Z) (worklist : list Z) : gset Z * list Z :=
  match fuel with
  | O => (visited, worklist)
  | S fuel' =>
      match worklist with
      | [] => (visited, [])
      | current :: rest =>
          let st := foldl (visit ok) (visited, rest) (default [] (references !! current)) in
          loop fuel' ok references st.1 st.2
      end
  end.

(** Every address in an edge list. *)
Definition targets (references : gmap Z (list Z)) : gset Z :=
  map_fold (fun _ l acc => list_to_set l ∪ acc) ∅ references.

(** What the traversal is to compute: the addresses of [seed], and every
    target that passes [ok] in the edge list of an address reached. *)
Inductive Closure (ok : Z -> bool) (references : gmap Z (list Z)) (seed : gset Z) : Z -> Prop :=
| Closure_seed x :
    x ∈ seed -> Closure ok references seed x
| Closure_edge x l y :
    Closure ok references seed x -> references !! x = Some l -> y ∈ l -> ok y = true ->
    Closure ok references seed y.

(** The loop's invariant: what is on the worklist has been visited, and
    the targets of a visited address that is no longer on the worklist
    have been visited too. *)
Definition Inv (ok : Z -> bool) (references : gmap Z (list Z))
    (visited : gset Z) (worklist : list Z) : Prop :=
  (forall x, x ∈ worklist -> x ∈ visited) /\
  (forall x l y, x ∈ visited -> x ∉ worklist -> references !! x = Some l -> y ∈ l ->
     ok y = true -> y ∈ visited).

End Worklist.

(** ** [VMGarbageCollector] ([vm_gc.h], [vm_gc.cpp]) *)

Module VMGarbageCollector.

Record t := mk {
  heap : gset Z;
  roots : gset Z;
  references : gmap Z (list Z)
}.

(** [VMGarbageCollector()]. *)
Definition init : t := mk ∅ ∅ ∅.

(** [allocate(size)], [obj] being what [std::malloc] returned. *)
Definition allocate (obj : Z) (gc : t) : t :=
  if obj =? 0 then gc else mk ({[ obj ]} ∪ heap gc) (roots gc) (references gc).

Definition markRoot (obj : Z) (gc : t) : t :=
  if negb (obj =? 0) && bool_decide (obj ∈ heap gc)
  then mk (heap gc) ({[ obj ]} ∪ roots gc) (references gc)
  else gc.

Definition addReference (from to : Z) (gc : t) : t :=
  if negb (from =? 0) && negb (to =? 0) && bool_decide (from ∈ heap gc) && bool_decide (to ∈ heap gc)
  then mk (heap gc) (roots gc) (<[ from := default [] (references gc !! from) ++ [to] ]> (references gc))
  else gc.

(** [refList.erase(std::remove(.., obj), ..)] in every entry. *)
Definition purge (obj : Z) (references : gmap Z (list Z)) : gmap Z (list Z) :=
  filter (fun x => x ≠ obj) <$> references.

Definition deallocate (obj : Z) (gc : t) : t :=
  if negb (obj =? 0) && bool_decide (obj ∈ heap gc)
  then mk (heap gc ∖ {[ obj ]}) (roots gc ∖ {[ obj ]}) (purge obj (delete obj (references gc)))
  else gc.

(** The first loop of [collect]: the roots that are in the heap start the
    reachable set and the worklist. *)
Definition seed (gc : t) : gset Z * list Z :=
  foldl (Worklist.visit (fun root => bool_decide (root ∈ heap gc))) (∅, []) (elements (roots gc)).

(** The mark phase of [collect]: the set [reachable] it ends with.  One
    round per cell of the heap is fuel enough for the loop to end by
    itself ([mark_phase_spec] below). *)
Definition reachable (gc : t) : gset Z :=
  let st := seed gc in
  (Worklist.loop (size (heap gc)) (fun ref => bool_decide (ref ∈ heap gc))
     (references gc) st.1 st.2).1.

(** One round of the sweep loop, at the heap element [obj]. *)
Definition sweep_step (reachable : gset Z) (st : t * nat) (obj : Z) : t * nat :=
  if bool_decide (obj ∈ reachable) then st
  else (mk (heap st.1 ∖ {[ obj ]}) (roots st.1)
           (purge obj (delete obj (references st.1))),
        S st.2).

(** The last loop of [collect]: entries of objects no longer in the heap
    are erased, and the other edge lists keep the objects in the heap. *)
Definition prune (gc : t) : t :=
  mk (heap gc) (roots gc)
     (filter (fun x => x ∈ heap gc) <$>
        filter (fun kv => kv.1 ∈ heap gc) (references gc)).

(** [collect()]: the number of objects released, and the collector after. *)
Definition collect (gc : t) : nat * t :=
  if bool_decide (heap gc = ∅) then (O, gc)
  else
    let swept := foldl (sweep_step (reachable gc)) (gc, O) (elements (heap gc)) in
    (swept.2, prune swept.1).

Definition getHeapSize (gc : t) : nat := size (heap gc).

(** [getLiveObjects()]: the two loops of the mark phase of [collect], run
    again; the size of the set they end with. *)
Definition getLiveObjects (gc : t) : nat := size (reachable gc).

(** The cells reachable from the roots: a root in the heap, or a cell of
    the heap in the edge list of a reachable cell. *)
Inductive Reach (gc : t) : Z -> Prop :=
| Reach_root r :
    r ∈ roots gc -> r ∈ heap gc -> Reach gc r
| Reach_edge x l y :
    Reach gc x -> references gc !! x = Some l -> y ∈ l -> y ∈ heap gc -> Reach gc y.

(** The invariants of the heap state: every root is in the heap, and both
    ends of every edge are in the heap. *)
Definition wf (gc : t) : Prop :=
  roots gc ⊆ heap gc /\
  forall k l, references gc !! k = Some l -> k ∈ heap gc /\ forall y, y ∈ l -> y ∈ heap gc.

End VMGarbageCollector.

(** ** [GarbageCollector] ([gc.h], [gc.cpp]), the process-wide [steve::gc]

    A [GCObject] is kept as its address; [marked] is the set of addresses
    whose object has its [marked] field set.  Neither [markRoot] nor
    [addReference] checks that an address is one of [objects]; reading or
    setting the mark of an address that is not is undefined in C++, and
    the embedding keeps a mark for it all the same. *)

Module GarbageCollector.

Record t := mk {
  objects : list Z;
  marked : gset Z;
  rootObjects : gset Z;
  references : gmap Z (list Z)
}.

Definition init : t := mk [] ∅ ∅ ∅.

(** [allocate<T>(args...)], [obj] being the address [new] returned. *)
Definition allocate (obj : Z) (gc : t) : t :=
  mk (objects gc ++ [obj]) (marked gc ∖ {[ obj ]}) (rootObjects gc) (references gc).

Definition markRoot (ptr : Z) (gc : t) : t :=
  if ptr =? 0 then gc
  else mk (objects gc) (marked gc) ({[ ptr ]} ∪ rootObjects gc) (references gc).

Definition addReference (from to : Z) (gc : t) : t :=
  if (from =? 0) || (to =? 0) then gc
  else mk (objects gc) (marked gc) (rootObjects gc)
          (<[ from := default [] (references gc !! from) ++ [to] ]> (references gc)).

(** [mark()]: clear the marks of the objects, mark and push the roots,
    then traverse.  The fuel is enough for the loop to end by itself
    ([steve_mark_terminates] below). *)
Definition mark (gc : t) : t :=
  let cleared := marked gc ∖ list_to_set (filter (fun o => o ≠ 0) (objects gc)) in
  let st := foldl (fun st root => if root =? 0 then st else ({[ root ]} ∪ st.1, root :: st.2))
              (cleared, []) (elements (rootObjects gc)) in
  let fuel := (length st.2 + size (Worklist.targets (references gc)))%nat in
  mk (objects gc)
     (Worklist.loop fuel (fun ref => negb (ref =? 0)) (references gc) st.1 st.2).1
     (rootObjects gc) (references gc).

(** [sweep()]: the objects that are not marked are deleted and erased
    from [objects].  The second component is the function's local
    [collectedCount] when it returns. *)
Definition sweep (gc : t) : t * Z :=
  let dead := filter (fun o => o ≠ 0 ∧ o ∉ marked gc) (objects gc) in
  (mk (filter (fun o => ¬ (o ≠ 0 ∧ o ∉ marked gc)) (objects gc))
      (marked gc) (rootObjects gc) (references gc),
   Z.of_nat (length dead)).

(** [collect()]: its own [collectedCount] is set to [0], [mark] and
    [sweep] run, and [collectedCount] is returned. *)
Definition collect (gc : t) : Z * t :=
  let collectedCount := 0 in
  let gc1 := mark gc in
  let gc2 := (sweep gc1).1 in
  (collectedCount, gc2).

(** The objects [mark] is to mark: a root that is not null, or a target
    that is not null in the edge list of such an object. *)
Inductive Reach (gc : t) : Z -> Prop :=
| Reach_root r :
    r ∈ rootObjects gc -> r ≠ 0 -> Reach gc r
| Reach_edge x l y :
    Reach gc x -> references gc !! x = Some l -> y ∈ l -> y ≠ 0 -> Reach gc y.

End GarbageCollector.

(** ** The virtual machine ([vm.h], [vm.cpp]) *)

(** [VirtualMachine], with the process-wide state its methods touch: the
    global collector [steve::gc] and the two output streams.  An entry of
    [managedObjects] is the address of the [ManagedObject] and the object.
    [debugState], [builtInFunctions] and [jitCompiler] are left out. *)
Record VirtualMachine := mkVirtualMachine {
  state : MachineState;
  gc : VMGarbageCollector.t;
  useJIT : bool;
  fileHandles : gmap Z FileHandle;
  nextFileHandleId : Z;
  managedObjects : gmap Z (Z * ManagedObject);
  nextObjectId : Z;
  steve_gc : GarbageCollector.t;
  cout : string;
  cerr : string
}.

(** [VirtualMachine()]: one empty scope, handle ids from 1000, object ids
    from 1, no JIT. *)
Definition VirtualMachine_new : VirtualMachine :=
  mkVirtualMachine (mkMachineState 0 false [∅] [] [] ∅ ∅)
    VMGarbageCollector.init false ∅ 1000 ∅ 1 GarbageCollector.init
    EmptyString EmptyString.

Definition set_state (st : MachineState) (vm : VirtualMachine) : VirtualMachine :=
  mkVirtualMachine st (gc vm) (useJIT vm) (fileHandles vm) (nextFileHandleId vm)
    (managedObjects vm) (nextObjectId vm) (steve_gc vm) (cout vm) (cerr vm).

Definition set_pc (p : Z) (vm : VirtualMachine) : VirtualMachine :=
  let st := state vm in
  set_state (mkMachineState p (running st) (scopes st) (program st) (stack st)
               (variables st) (functions st)) vm.

Definition set_running (b : bool) (vm : VirtualMachine) : VirtualMachine :=
  let st := state vm in
  set_state (mkMachineState (pc st) b (scopes st) (program st) (stack st)
               (variables st) (functions st)) vm.

Definition set_scopes (sc : list (gmap string Value)) (vm : VirtualMachine) : VirtualMachine :=
  let st := state vm in
  set_state (mkMachineState (pc st) (running st) sc (program st) (stack st)
               (variables st) (functions st)) vm.

Definition set_program (p : list Instruction) (vm : VirtualMachine) : VirtualMachine :=
  let st := state vm in
  set_state (mkMachineState (pc st) (running st) (scopes st) p (stack st)
               (variables st) (functions st)) vm.

Definition set_stack (s : list Value) (vm : VirtualMachine) : VirtualMachine :=
  let st := state vm in
  set_state (mkMachineState (pc st) (running st) (scopes st) (program st) s
               (variables st) (functions st)) vm.

Definition set_variables (v : gmap string Value) (vm : VirtualMachine) : VirtualMachine :=
  let st := state vm in
  set_state (mkMachineState (pc st) (running st) (scopes st) (program st) (stack st)
               v (functions st)) vm.

Definition set_functions (f : gmap string Z) (vm : VirtualMachine) : VirtualMachine :=
  let st := state vm in
  set_state (mkMachineState (pc st) (running st) (scopes st) (program st) (stack st)
               (variables st) f) vm.

(** [state.stack.push_back(v)]. *)
Definition push (v : Value) (vm : VirtualMachine) : VirtualMachine :=
  set_stack (v :: stack (state vm)) vm.

(** [std::cout << s]. *)
Definition put_cout (s : string) (vm : VirtualMachine) : VirtualMachine :=
  mkVirtualMachine (state vm) (gc vm) (useJIT vm) (fileHandles vm) (nextFileHandleId vm)
    (managedObjects vm) (nextObjectId vm) (steve_gc vm) (cout vm ++ s)%string (cerr vm).

(** [std::cerr << s]. *)
Definition put_cerr (s : string) (vm : VirtualMachine) : VirtualMachine :=
  mkVirtualMachine (state vm) (gc vm) (useJIT vm) (fileHandles vm) (nextFileHandleId vm)
    (managedObjects vm) (nextObjectId vm) (steve_gc vm) (cout vm) (cerr vm ++ s)%string.

Definition set_files (fh : gmap Z FileHandle) (next : Z) (mo : gmap Z (Z * ManagedObject))
    (vm : VirtualMachine) : VirtualMachine :=
  mkVirtualMachine (state vm) (gc vm) (useJIT vm) fh next mo (nextObjectId vm)
    (steve_gc vm) (cout vm) (cerr vm).

(** *** Coercions of values *)

Definition getBoolValue (value : Value) : bool :=
  match value with
  | VInt n => negb (n =? 0)
  | VLong n => negb (n =? 0)
  | VDouble d => negb (PrimFloat.eqb d PrimFloat.zero)
  | VBool b => b
  | VString s => negb (String.eqb s EmptyString)
  | VNull => false
  | VList items => match items with [] => false | _ => true end
  | VDict items => match items with [] => false | _ => true end
  | VPointer _ => false
  end.

Definition getDoubleValue (value : Value) : float :=
  match value with
  | VDouble d => d
  | VInt n => Int.to_double n
  | VLong n => Int.to_double n
  | VBool b => Int.to_double (if b then 1 else 0)
  | VList items => Int.to_double (Z.of_nat (length items))
  | VDict items => Int.to_double (Z.of_nat (length items))
  | _ => PrimFloat.zero
  end.

Definition getInt64Value (value : Value) : Z :=
  match value with
  | VLong n => n
  | VInt n => n
  | VBool b => if b then 1 else 0
  | VPointer p => pv_ptr p
  | VList items => Z.of_nat (length items)
  | VDict items => Z.of_nat (length items)
  | _ => 0
  end.

Definition is_double (v : Value) : bool := match v with VDouble _ => true | _ => false end.
Definition is_int (v : Value) : bool := match v with VInt _ => true | _ => false end.
Definition is_long (v : Value) : bool := match v with VLong _ => true | _ => false end.
Definition is_string (v : Value) : bool := match v with VString _ => true | _ => false end.
Definition is_pointer (v : Value) : bool := match v with VPointer _ => true | _ => false end.
Definition is_list (v : Value) : bool := match v with VList _ => true | _ => false end.
Definition is_dict (v : Value) : bool := match v with VDict _ => true | _ => false end.

(** What a helper yields: a value, an exception, or [Outside] where the
    source leaves the embedding (see [performBinaryOperation]). *)
Inductive Result (A : Type) :=
| Ok (a : A)
| Throw (e : VMException)
| Outside.
Arguments Ok {A} a.
Arguments Throw {A} e.
Arguments Outside {A}.

Definition op_is (op : string) (s : string) : bool := String.eqb op s.

(** [static_cast<bool>] of a double. *)
Definition double_true (d : float) : bool := negb (PrimFloat.eqb d PrimFloat.zero).

(** [performBinaryOperation(left, right, op, line)].  A [Value] built from
    an [int64_t] expression holds the [int64_t] alternative, one built from
    a comparison the [bool] alternative.  [/] and [%] on [int64_t] truncate
    towards zero; the source guards them against a right operand 0 only, and
    the quotient of [INT64_MIN] by [-1] does not fit an [int64_t]: there both
    are undefined, [Outside].  The dictionary comparison uses [!=] on [Value],
    which the sources do not define for the heap-backed alternatives: it is
    [Outside] as well. *)
Definition performBinaryOperation (left right : Value) (op : string) (line : Z) : Result Value :=
  if is_double left || is_double right then
    let leftVal := getDoubleValue left in
    let rightVal := getDoubleValue right in
    if op_is op "+" then Ok (VDouble (PrimFloat.add leftVal rightVal))
    else if op_is op "-" then Ok (VDouble (PrimFloat.sub leftVal rightVal))
    else if op_is op "*" then Ok (VDouble (PrimFloat.mul leftVal rightVal))
    else if op_is op "/" then
      if PrimFloat.eqb rightVal PrimFloat.zero
      then Throw (throw RuntimeError "Division by zero error" line)
      else Ok (VDouble (PrimFloat.div leftVal rightVal))
    else if op_is op "==" then Ok (VBool (PrimFloat.eqb leftVal rightVal))
    else if op_is op "!=" then Ok (VBool (negb (PrimFloat.eqb leftVal rightVal)))
    else if op_is op "<" then Ok (VBool (PrimFloat.ltb leftVal rightVal))
    else if op_is op ">" then Ok (VBool (PrimFloat.ltb rightVal leftVal))
    else if op_is op "<=" then Ok (VBool (PrimFloat.leb leftVal rightVal))
    else if op_is op ">=" then Ok (VBool (PrimFloat.leb rightVal leftVal))
    else if op_is op "and" || op_is op "&&" then Ok (VBool (double_true leftVal && double_true rightVal))
    else if op_is op "or" || op_is op "||" then Ok (VBool (double_true leftVal || double_true rightVal))
    else Throw (throw TypeError ("Unsupported operator for floating point: " ++ op) line)
  else if (is_int left || is_long left) && (is_int right || is_long right) then
    let leftVal := getInt64Value left in
    let rightVal := getInt64Value right in
    if op_is op "+" then Ok (VLong (Int.wrap64 (leftVal + rightVal)))
    else if op_is op "-" then Ok (VLong (Int.wrap64 (leftVal - rightVal)))
    else if op_is op "*" then Ok (VLong (Int.wrap64 (leftVal * rightVal)))
    else if op_is op "/" then
      if rightVal =? 0
      then Throw (throw RuntimeError "Division by zero error" line)
      else if (leftVal =? Int.INT64_MIN) && (rightVal =? -1) then Outside
      else Ok (VLong (Int.wrap64 (Z.quot leftVal rightVal)))
    else if op_is op "%" then
      if rightVal =? 0
      then Throw (throw RuntimeError "Modulo by zero error" line)
      else if (leftVal =? Int.INT64_MIN) && (rightVal =? -1) then Outside
      else Ok (VLong (Int.wrap64 (Z.rem leftVal rightVal)))
    else if op_is op "==" then Ok (VBool (leftVal =? rightVal))
    else if op_is op "!=" then Ok (VBool (negb (leftVal =? rightVal)))
    else if op_is op "<" then Ok (VBool (leftVal <? rightVal))
    else if op_is op ">" then Ok (VBool (rightVal <? leftVal))
    else if op_is op "<=" then Ok (VBool (leftVal <=? rightVal))
    else if op_is op ">=" then Ok (VBool (rightVal <=? leftVal))
    else if op_is op "and" || op_is op "&&" then Ok (VBool (negb (leftVal =? 0) && negb (rightVal =? 0)))
    else if op_is op "or" || op_is op "||" then Ok (VBool (negb (leftVal =? 0) || negb (rightVal =? 0)))
    else Throw (throw TypeError ("Unsupported operator for integer: " ++ op) line)
  else
    match left, right with
    | VString l, VString r =>
        if op_is op "+" then Ok (VString (l ++ r)%string)
        else if op_is op "==" then Ok (VBool (String.eqb l r))
        else if op_is op "!=" then Ok (VBool (negb (String.eqb l r)))
        else Throw (throw TypeError ("Unsupported operator for string: " ++ op) line)
    | _, _ =>
        if is_pointer left || is_pointer right then
          let leftIsNull := match left with VPointer p => isNull p | _ => true end in
          let rightIsNull := match right with VPointer p => isNull p | _ => true end in
          if op_is op "==" then
            match left, right with
            | VPointer lptr, VPointer rptr => Ok (VBool (pv_ptr lptr =? pv_ptr rptr))
            | _, _ => Ok (VBool (leftIsNull && rightIsNull))
            end
          else if op_is op "!=" then
            match left, right with
            | VPointer lptr, VPointer rptr => Ok (VBool (negb (pv_ptr lptr =? pv_ptr rptr)))
            | _, _ => Ok (VBool (negb (Bool.eqb leftIsNull rightIsNull)))
            end
          else if op_is op "=" && is_pointer right then Ok right
          else Throw (throw TypeError ("Unsupported operator for pointer: " ++ op) line)
        else if is_list left && is_list right && op_is op "+" then
          match left, right with
          | VList l, VList r => Ok (VList (l ++ r)%list)
          | _, _ => Ok (VInt 0)
          end
        else if is_list left && op_is op "*" then
          match left with
          | VList l =>
              if is_int right || is_long right then
                let repetitions := getInt64Value right in
                Ok (VList (concat (repeat l (Z.to_nat repetitions))))
              else Ok (VInt 0)
          | _ => Ok (VInt 0)
          end
        else if is_dict left && op_is op "==" then
          if is_dict right then Outside else Ok (VInt 0)
        else Throw (throw TypeError "Binary operation type mismatch" line)
    end.

(** [performUnaryOperation(operand, op, line)]. *)
Definition performUnaryOperation (operand : Value) (op : string) (line : Z) : Result Value :=
  if op_is op "-" then
    match operand with
    | VInt n => Ok (VInt (Int.wrap32 (- n)))
    | VLong n => Ok (VLong (Int.wrap64 (- n)))
    | VDouble d => Ok (VDouble (PrimFloat.opp d))
    | _ => Throw (throw TypeError "Invalid operand type for unary minus" line)
    end
  else if op_is op "!" || op_is op "not" then Ok (VBool (negb (getBoolValue operand)))
  else Throw (throw TypeError ("Unsupported unary operator: " ++ op)%string line).

(** *** Control-flow scanning *)

(** The loop of [jumpToEnd], at index [current] with [rest] the program
    from there on: the index of the [END] that closes the construct, or
    [None] when the program ends first. *)
Fixpoint scan_end (depth : Z) (current : Z) (rest : list Instruction) : option Z :=
  match rest with
  | [] => None
  | nextInstr :: rest' =>
      let depth' :=
        if InstructionType_eqb (i_type nextInstr) IF || InstructionType_eqb (i_type nextInstr) WHILE
        then depth + 1
        else if InstructionType_eqb (i_type nextInstr) END then depth - 1
        else depth in
      if depth' =? 0 then Some current else scan_end depth' (current + 1) rest'
  end.

(** [jumpToEnd()]: scan from [pc + 1]; with no matching [END] the program
    counter is set to the last instruction. *)
Definition jumpToEnd (vm : VirtualMachine) : VirtualMachine :=
  let st := state vm in
  let current := Int.usize (pc st + 1) in
  match scan_end 1 current (skipn (Z.to_nat current) (program st)) with
  | Some target => set_pc target vm
  | None => set_pc (Int.usize (Z.of_nat (length (program st)) - 1)) vm
  end.

(** [runGarbageCollection()]: the machine's collector, then [steve::gc]. *)
Definition runGarbageCollection (vm : VirtualMachine) : VirtualMachine :=
  mkVirtualMachine (state vm) (VMGarbageCollector.collect (gc vm)).2 (useJIT vm)
    (fileHandles vm) (nextFileHandleId vm) (managedObjects vm) (nextObjectId vm)
    (GarbageCollector.collect (steve_gc vm)).2 (cout vm) (cerr vm).

(** *** Dispatch *)

(** How [decodeAndExecute] ends: it returns, it throws, or the opcode is
    one the embedding leaves out. *)
Inductive Outcome :=
| Returned (b : bool)
| Thrown (e : VMException)
| Unmodelled.

Section Interpreter.

(** The C++ library's conversions between text and [double]:
    [std::stod] ([None] when it throws) and [operator<<]. *)
Variable stod : string -> option float.
Variable show_double : float -> string.

(** The number a numeric operand of [LOAD] and [PUSH] denotes: [std::stod]
    when the operand has a dot, [std::stoi] otherwise; [None] when the
    conversion throws. *)
Definition parse_number (operand : string) : option Value :=
  match Str.find_char "."%char operand with
  | Some _ => option_map VDouble (stod operand)
  | None => option_map VInt (Str.stoi operand)
  end.

(** What [PRINT] writes for a value, before the newline. *)
Definition print_text (val : Value) : string :=
  match val with
  | VString s => s
  | VInt n => Int.to_string n
  | VDouble d => show_double d
  | VBool b => if b then "true" else "false"
  | VNull => "null"
  | VLong n => Int.to_string n
  | _ => EmptyString
  end.

(** The index of the first [LABEL] instruction whose first operand is
    [label], counting from [i]. *)
Fixpoint find_label (label : string) (i : Z) (prog : list Instruction) : option Z :=
  match prog with
  | [] => None
  | instr :: rest =>
      if InstructionType_eqb (i_type instr) LABEL &&
         match operands instr with
         | o :: _ => String.eqb o label
         | [] => false
         end
      then Some i
      else find_label label (i + 1) rest
  end.

(** [decodeAndExecute(instr)].  Left out of the embedding: [IF] (its
    helper [jumpToElseOrEnd] is not intact in the sources), [CALL] (the
    builtin table), [INPUT] (the input stream), [MEM_MALLOC] and
    [MEM_FREE] (the memory manager). *)
Definition decodeAndExecute (instr : Instruction) (vm : VirtualMachine) : VirtualMachine * Outcome :=
  let st := state vm in
  match i_type instr with
  | DEFVAR =>
      match operands instr with
      | varName :: _ =>
          let varName :=
            match Str.find_char ":"%char varName with
            | Some pos => Str.substr 0 (Z.of_nat pos) varName
            | None => varName
            end in
          (set_variables (<[ varName := VInt 0 ]> (variables st)) vm, Returned true)
      | [] => (vm, Returned true)
      end
  | LOAD =>
      match operands instr with
      | operand :: _ =>
          if Str.eqb_ascii (Str.at0 operand) Str.quote &&
             match Str.back operand with Some c => Str.eqb_ascii c Str.quote | None => false end
          then
            let strValue :=
              Str.substr 1 (Int.usize (Z.of_nat (String.length operand) - 2)) operand in
            (push (VString strValue) vm, Returned true)
          else if String.eqb operand "true" || String.eqb operand "false" then
            (push (VBool (String.eqb operand "true")) vm, Returned true)
          else if String.eqb operand "null" then (push VNull vm, Returned true)
          else
            match parse_number operand with
            | Some v => (push v vm, Returned true)
            | None =>
                match variables st !! operand with
                | Some v => (push v vm, Returned true)
                | None => (push (VInt 0) vm, Returned true)
                end
            end
      | [] => (vm, Returned true)
      end
  | STORE =>
      match stack st with
      | [] => (vm, Thrown (throw AccessError "Stack underflow during STORE operation" (i_line instr)))
      | val :: rest =>
          match operands instr with
          | [] => (vm, Thrown (throw AccessError "STORE operation missing variable name" (i_line instr)))
          | varName :: _ =>
              (set_variables (<[ varName := val ]> (variables st)) (set_stack rest vm),
               Returned true)
          end
      end
  | FUNC =>
      match operands instr with
      | funcName :: _ =>
          (set_scopes (∅ :: scopes st) (set_functions (<[ funcName := pc st ]> (functions st)) vm),
           Returned true)
      | [] => (vm, Returned true)
      end
  | WHILE =>
      match stack st with
      | condition :: rest =>
          let vm1 := set_stack rest vm in
          if negb (getBoolValue condition) then (jumpToEnd vm1, Returned true)
          else (push (VInt (Int.wrap32 (Int.usize (pc st - 1)))) vm1, Returned true)
      | [] => (vm, Thrown (throw AccessError "Stack is empty during WHILE operation" (i_line instr)))
      end
  | ELSE => (jumpToEnd vm, Returned true)
  | END =>
      match stack st with
      | VInt loopStart :: _ =>
          if (0 <=? loopStart) && (loopStart <? Int.wrap32 (Z.of_nat (length (program st))))
          then (set_pc loopStart vm, Returned true)
          else (vm, Returned true)
      | _ => (vm, Returned true)
      end
  | DO => (vm, Returned true)
  | RETURN =>
      match stack st with
      | VInt returnAddr :: rest =>
          let vm1 := set_pc (Int.usize returnAddr) (set_stack rest vm) in
          match scopes st with
          | _ :: (_ :: _) as outer => (set_scopes outer vm1, Returned true)
          | _ => (vm1, Returned true)
          end
      | _ => (set_running false vm, Returned true)
      end
  | PRINT =>
      match stack st with
      | val :: rest =>
          (put_cout (print_text val ++ Str.newline)%string (set_stack rest vm), Returned true)
      | [] => (vm, Returned true)
      end
  | GC_NEW =>
      match stack st with
      | top :: rest => (push (VLong (getInt64Value top)) (set_stack rest vm), Returned true)
      | [] => (push (VLong 1) vm, Returned true)
      end
  | GC_DELETE =>
      match stack st with
      | _ :: rest => (set_stack rest vm, Returned true)
      | [] => (vm, Returned true)
      end
  | GC_RUN => (push (VInt 0) (runGarbageCollection vm), Returned true)
  | BINARY_OP =>
      match stack st with
      | right_ :: left_ :: rest =>
          match operands instr with
          | [] => (vm, Thrown (throw AccessError "BINARY_OP operation missing operator" (i_line instr)))
          | op :: _ =>
              let vm1 := set_stack rest vm in
              match performBinaryOperation left_ right_ op (i_line instr) with
              | Ok result => (push result vm1, Returned true)
              | Throw e => (vm1, Thrown e)
              | Outside => (vm1, Unmodelled)
              end
          end
      | _ => (vm, Thrown (throw AccessError "Stack underflow during BINARY_OP operation" (i_line instr)))
      end
  | UNARY_OP =>
      match stack st with
      | [] => (vm, Thrown (throw AccessError "Stack underflow during UNARY_OP operation" (i_line instr)))
      | operand :: rest =>
          match operands instr with
          | [] => (vm, Thrown (throw AccessError "UNARY_OP operation missing operator" (i_line instr)))
          | op :: _ =>
              let vm1 := set_stack rest vm in
              match performUnaryOperation operand op (i_line instr) with
              | Ok result => (push result vm1, Returned true)
              | Throw e => (vm1, Thrown e)
              | Outside => (vm1, Unmodelled)
              end
          end
      end
  | PUSH =>
      match operands instr with
      | operand :: _ =>
          match parse_number operand with
          | Some v => (push v vm, Returned true)
          | None => (push (VString operand) vm, Returned true)
          end
      | [] => (vm, Returned true)
      end
  | POP =>
      match stack st with
      | _ :: rest => (set_stack rest vm, Returned true)
      | [] => (vm, Returned true)
      end
  | GOTO =>
      match operands instr with
      | label :: _ =>
          match find_label label 0 (program st) with
          | Some i => (set_pc i vm, Returned true)
          | None => (vm, Thrown (throw RuntimeError ("Undefined label: " ++ label)%string (i_line instr)))
          end
      | [] => (vm, Returned true)
      end
  | LABEL | TRY | CATCH | BREAK | CONTINUE | PASS | PACKAGE | NOP => (vm, Returned true)
  | PTR_NEW =>
      let newPtr := PointerValue_of_obj 0 0 "object" false false in
      match stack st with
      | sizeVal :: rest => (push (VPointer newPtr) (set_stack rest vm), Returned true)
      | [] => (push (VPointer newPtr) vm, Returned true)
      end
  | PTR_DEREF =>
      match stack st with
      | top :: rest =>
          let vm1 := set_stack rest vm in
          match top with
          | VPointer ptr =>
              if negb (isNull ptr) then (push (VInt 0) vm1, Returned true)
              else (vm1, Thrown (throw RuntimeError "Cannot dereference null pointer" (i_line instr)))
          | _ => (push top vm1, Returned true)
          end
      | [] => (vm, Returned true)
      end
  | THROW =>
      match stack st with
      | exceptionValue :: rest =>
          let exceptionMsg :=
            match exceptionValue with
            | VString s => s
            | _ => "Unknown exception occurred"%string
            end in
          (set_stack rest vm, Thrown (throw RuntimeError exceptionMsg (i_line instr)))
      | [] => (vm, Thrown (throw RuntimeError "Exception thrown" (i_line instr)))
      end
  | IMPORT =>
      match operands instr with
      | moduleName :: _ =>
          (put_cout ("Importing module: " ++ moduleName ++ Str.newline)%string vm, Returned true)
      | [] => (vm, Returned true)
      end
  | DEBUG =>
      (put_cerr ("Warning: Unknown instruction type at line " ++ Int.to_string (i_line instr)
                 ++ Str.newline)%string vm, Returned true)
  | IF | CALL | INPUT | MEM_MALLOC | MEM_FREE => (vm, Unmodelled)
  end.

(** [executeInstruction(index)]. *)
Definition executeInstruction (index : Z) (vm : VirtualMachine) : VirtualMachine * Outcome :=
  if Z.of_nat (length (program (state vm))) <=? index then (vm, Returned false)
  else
    match nth_error (program (state vm)) (Z.to_nat index) with
    | Some instr => decodeAndExecute instr vm
    | None => (vm, Returned false)
    end.

(** How a run ends: [execute] returned [ok], the fuel ran out first, or
    the run reached something the embedding leaves out. *)
Inductive RunResult :=
| Done (ok : bool)
| OutOfFuel
| Unsupported.

(** The interpreter loop of [execute], for at most [fuel] instructions.
    A [VMException] is reported on [std::cerr] and ends the run. *)
Fixpoint run (fuel : nat) (vm : VirtualMachine) : VirtualMachine * RunResult :=
  if running (state vm) && (pc (state vm) <? Z.of_nat (length (program (state vm)))) then
    match fuel with
    | O => (vm, OutOfFuel)
    | S fuel' =>
        match executeInstruction (pc (state vm)) vm with
        | (vm1, Returned false) => (vm1, Done false)
        | (vm1, Returned true) => run fuel' (set_pc (Int.usize (pc (state vm1) + 1)) vm1)
        | (vm1, Thrown e) =>
            let vm2 := put_cerr ("VM Exception, PC " ++ Int.to_string (pc (state vm1)) ++ ": "
                                 ++ exn_message e ++ Str.newline)%string vm1 in
            let vm3 :=
              if 0 <? exn_line e
              then put_cerr ("  At line " ++ Int.to_string (exn_line e) ++ Str.newline)%string vm2
              else vm2 in
            (vm3, Done false)
        | (vm1, Unmodelled) => (vm1, Unsupported)
        end
    end
  else (vm, Done true).

(** [canJITCompile()]. *)
Definition canJITCompile (vm : VirtualMachine) : bool :=
  match program (state vm) with
  | [] => false
  | prog =>
      forallb (fun instr =>
        negb (InstructionType_eqb (i_type instr) FUNC || InstructionType_eqb (i_type instr) IF
              || InstructionType_eqb (i_type instr) WHILE || InstructionType_eqb (i_type instr) CALL
              || InstructionType_eqb (i_type instr) GOTO)) prog
  end.

(** [execute()].  The JIT path is left out of the embedding. *)
Definition execute (fuel : nat) (vm : VirtualMachine) : VirtualMachine * RunResult :=
  match program (state vm) with
  | [] => (put_cerr ("Internal Error: No program loaded" ++ Str.newline)%string vm, Done false)
  | _ =>
      if useJIT vm && canJITCompile vm then (vm, Unsupported)
      else run fuel (set_running true (set_pc 0 vm))
  end.

End Interpreter.

(** ** The IR decoder ([parseIR]) *)

(** The instruction type of a mnemonic; an unknown one is a [NOP]. *)
Definition opcode_of (instrName : string) : InstructionType :=
  if String.eqb instrName "DEFVAR" then DEFVAR
  else if String.eqb instrName "LOAD" then LOAD
  else if String.eqb instrName "STORE" then STORE
  else if String.eqb instrName "FUNC" then FUNC
  else if String.eqb instrName "CALL" then CALL
  else if String.eqb instrName "IF" then IF
  else if String.eqb instrName "ELSE" then ELSE
  else if String.eqb instrName "END" then END
  else if String.eqb instrName "WHILE" then WHILE
  else if String.eqb instrName "DO" then DO
  else if String.eqb instrName "RETURN" then RETURN
  else if String.eqb instrName "IMPORT" then IMPORT
  else if String.eqb instrName "PRINT" then PRINT
  else if String.eqb instrName "INPUT" then INPUT
  else if String.eqb instrName "BINARY_OP" then BINARY_OP
  else if String.eqb instrName "UNARY_OP" then UNARY_OP
  else if String.eqb instrName "PUSH" then PUSH
  else if String.eqb instrName "POP" then POP
  else if String.eqb instrName "GOTO" then GOTO
  else if String.eqb instrName "LABEL" then LABEL
  else if String.eqb instrName "TRY" then TRY
  else if String.eqb instrName "CATCH" then CATCH
  else if String.eqb instrName "BREAK" then BREAK
  else if String.eqb instrName "CONTINUE" then CONTINUE
  else if String.eqb instrName "PASS" then PASS
  else if String.eqb instrName "PACKAGE" then PACKAGE
  else if String.eqb instrName "PTR_new" then PTR_NEW
  else if String.eqb instrName "PTR_DEREF" then PTR_DEREF
  else if String.eqb instrName "THROW" then THROW
  else if String.eqb instrName "GC_new" then GC_NEW
  else if String.eqb instrName "GC_delete" then GC_DELETE
  else if String.eqb instrName "GC_gc" then GC_RUN
  else if String.eqb instrName "MEM_malloc" then MEM_MALLOC
  else if String.eqb instrName "MEM_free" then MEM_FREE
  else NOP.

(** One round of the operand loop: a token of two or more characters that
    starts and ends with a double quote loses both; any other token loses
    one trailing comma. *)
Definition decode_operand (operand : string) : string :=
  let is_quote o := match o with Some c => Str.eqb_ascii c Str.quote | None => false end in
  if (2 <=? String.length operand)%nat && is_quote (Str.front operand) && is_quote (Str.back operand)
  then Str.substr 1 (Int.usize (Z.of_nat (String.length operand) - 2)) operand
  else
    match Str.back operand with
    | Some c => if Str.eqb_ascii c ","%char then Str.pop_back operand else operand
    | None => operand
    end.

(** The body of [parseIR]'s loop for the line numbered [lineNum]: the
    instruction decoded from it, or [None] when the line is skipped.  The
    decoded operands are pushed behind the three empty strings that
    [Instruction()] puts in [operands]. *)
Definition parse_line (lineNum : Z) (line : string) : option Instruction :=
  if String.eqb line EmptyString || Str.eqb_ascii (Str.at0 line) ";"%char then None
  else if Str.contains "# IR BEGIN" line || Str.contains "IR END" line then None
  else
    let line :=
      match Str.find_char ";"%char line with
      | Some commentPos => Str.substr 0 (Z.of_nat commentPos) line
      | None => line
      end in
    let line := Str.trim_right (Str.trim_left line) in
    if String.eqb line EmptyString then None
    else
      match Str.tokens line with
      | [] => None
      | instrName :: rest =>
          Some (mkInstruction (opcode_of instrName) lineNum
                  (operands Instruction_default ++ map decode_operand rest)%list)
      end.

(** The loop of [parseIR] over the lines that follow line [lineNum]; the
    counter is an [int]. *)
Fixpoint parse_lines (lineNum : Z) (lines : list string) : list Instruction :=
  match lines with
  | [] => []
  | line :: rest =>
      let lineNum := Int.wrap32 (lineNum + 1) in
      match parse_line lineNum line with
      | Some instr => instr :: parse_lines lineNum rest
      | None => parse_lines lineNum rest
      end
  end.

(** [parseIR(irCode)]. *)
Definition parseIR (irCode : string) : list Instruction :=
  parse_lines 0 (Str.getlines irCode).

(** [loadProgram(filename)], [irCode] being the contents of the file, which
    could be opened. *)
Definition loadProgram (irCode : string) (vm : VirtualMachine) : VirtualMachine * bool :=
  let prog := parseIR irCode in
  (set_program prog vm, match prog with [] => false | _ => true end).

(** ** Builtins ([registerBuiltInFunctions]) *)

(** [bool(x)]. *)
Definition builtin_bool (args : list Value) : Value :=
  match args with
  | [] => VBool false
  | arg :: _ =>
      match arg with
      | VInt n => VBool (negb (n =? 0))
      | VLong n => VBool (negb (n =? 0))
      | VDouble d => VBool (negb (PrimFloat.eqb d PrimFloat.zero))
      | VString s =>
          let s := Str.tolower s in
          VBool (negb (String.eqb s "false") && negb (String.eqb s "0")
                 && negb (String.eqb s EmptyString))
      | VBool _ => arg
      | VNull => VBool false
      | _ => VBool false
      end
  end.

(** The body the two branches of [open] share, once [filename] and [mode]
    are known.  [opened] is what [stream->is_open()] answered in the
    [FileHandle] constructor, [obj] the address at which [new] put the
    [ManagedObject]. *)
Definition open_file (opened : bool) (obj : Z) (filename mode : string)
    (vm : VirtualMachine) : VirtualMachine * Value :=
  if opened then
    let handleId := nextFileHandleId vm in
    let managed := ManagedObject_new handleId "file" 8 in
    let ptr := PointerValue_of_obj obj (mo_data managed) "file" false false in
    (set_files (<[ handleId := mkFileHandle filename mode true ]> (fileHandles vm))
       (Int.wrap64 (handleId + 1))
       (<[ handleId := (obj, managed) ]> (managedObjects vm)) vm,
     VPointer ptr)
  else
    (put_cerr ("Error: Could not open file: " ++ filename ++ Str.newline)%string vm,
     VPointer PointerValue_default).

(** [open(path, mode?)]. *)
Definition builtin_open (opened : bool) (obj : Z) (args : list Value)
    (vm : VirtualMachine) : VirtualMachine * Value :=
  match args with
  | arg0 :: arg1 :: _ =>
      match arg0, arg1 with
      | VString filename, VString mode => open_file opened obj filename mode vm
      | _, _ => (vm, VPointer PointerValue_default)
      end
  | [VString filename] => open_file opened obj filename "r" vm
  | _ => (vm, VPointer PointerValue_default)
  end.

(** [close(h)].  Once the handle is erased from the table, the loop over
    the managed objects deletes the first one whose [data] is the handle
    number.  [open] registered that number as the [data] of its object,
    and [~ManagedObject()] passes it to [std::free]: no allocation returned
    it, so the call is undefined, [Outside]. *)
Definition builtin_close (args : list Value) (vm : VirtualMachine)
    : VirtualMachine * Result Value :=
  let null_handle :=
    (put_cerr ("Error: Cannot close null file handle" ++ Str.newline)%string vm,
     Ok (VInt (-1))) in
  match args with
  | VPointer ptrVal :: _ =>
      if negb (isNull ptrVal) then
        let handleId := pv_ptr ptrVal in
        match fileHandles vm !! handleId with
        | Some handle =>
            let erased := delete handleId (fileHandles vm) in
            match List.find (fun entry => mo_data entry.2.2 =? handleId)
                    (map_to_list (managedObjects vm)) with
            | Some entry =>
                match ManagedObject_delete entry.2.2 with
                | Some freed =>
                    (set_files erased (nextFileHandleId vm) (managedObjects vm) vm, Outside)
                | None =>
                    (set_files erased (nextFileHandleId vm)
                       (delete entry.1 (managedObjects vm)) vm,
                     Ok (VInt 0))
                end
            | None =>
                (set_files erased (nextFileHandleId vm) (managedObjects vm) vm, Ok (VInt 0))
            end
        | None =>
            (put_cerr ("Error: Invalid file handle" ++ Str.newline)%string vm,
             Ok (VInt (-1)))
        end
      else null_handle
  | _ => null_handle
  end.

(** ** The programs and states the properties are checked on *)

(** The text of an IR file with the given lines. *)
Definition ir_text (lines : list string) : string :=
  fold_right (fun line rest => line ++ Str.newline ++ rest)%string EmptyString lines.

(** [s] between double quotes. *)
Definition quoted (s : string) : string :=
  String Str.quote (s ++ String Str.quote EmptyString).

(** An instruction vector written out by hand: the [k]-th entry gets line
    [k] and exactly the operands listed, the first one at index 0. *)
Fixpoint listed_from (line : Z) (l : list (InstructionType * list string)) : list Instruction :=
  match l with
  | [] => []
  | (t, ops) :: rest => mkInstruction t line ops :: listed_from (line + 1) rest
  end.

Definition listed (l : list (InstructionType * list string)) : list Instruction :=
  listed_from 1 l.

(** The loop that counts to three, as IR text and as an instruction vector. *)
Definition loop_ir : string :=
  ir_text ["DEFVAR i"; "LOAD 0"; "STORE i"; "LOAD i"; "LOAD 3"; "BINARY_OP <";
           "WHILE"; "DO"; "LOAD i"; "PRINT"; "LOAD i"; "LOAD 1"; "BINARY_OP +";
           "STORE i"; "LOAD i"; "LOAD 3"; "BINARY_OP <"; "END"]%string.

Definition loop_listed : list Instruction :=
  listed [(DEFVAR, ["i"]); (LOAD, ["0"]); (STORE, ["i"]); (LOAD, ["i"]); (LOAD, ["3"]);
          (BINARY_OP, ["<"]); (WHILE, []); (DO, []); (LOAD, ["i"]); (PRINT, []);
          (LOAD, ["i"]); (LOAD, ["1"]); (BINARY_OP, ["+"]); (STORE, ["i"]);
          (LOAD, ["i"]); (LOAD, ["3"]); (BINARY_OP, ["<"]); (END, [])]%string.

(** The concatenation of two string literals, as IR text and as an
    instruction vector holding the operands as [parseIR] decodes them. *)
Definition concat_ir : string :=
  ir_text [("LOAD " ++ quoted "foo")%string; ("LOAD " ++ quoted "bar")%string;
           "BINARY_OP +"%string; "PRINT"%string].

Definition concat_listed : list Instruction :=
  listed [(LOAD, [decode_operand (quoted "foo")]); (LOAD, [decode_operand (quoted "bar")]);
          (BINARY_OP, ["+"%string]); (PRINT, [])].

(** A machine that has loaded the instruction vector [prog]. *)
Definition machine_with (prog : list Instruction) : VirtualMachine :=
  set_program prog VirtualMachine_new.

(** The name [DEFVAR] defines: the operand up to its first colon. *)
Definition defined_name (operand : string) : string :=
  match Str.find_char ":"%char operand with
  | Some pos => Str.substr 0 (Z.of_nat pos) operand
  | None => operand
  end.

(** The arithmetic operators of [BINARY_OP] and what each computes on
    mathematical integers ([/] and [%] truncate towards zero). *)
Inductive ArithOp := OpAdd | OpSub | OpMul | OpDiv | OpMod.

Definition arith_symbol (o : ArithOp) : string :=
  match o with
  | OpAdd => "+" | OpSub => "-" | OpMul => "*" | OpDiv => "/" | OpMod => "%"
  end.

Definition arith_eval (o : ArithOp) (a b : Z) : Z :=
  match o with
  | OpAdd => a + b
  | OpSub => a - b
  | OpMul => a * b
  | OpDiv => Z.quot a b
  | OpMod => Z.rem a b
  end.

Definition divides (o : ArithOp) : bool :=
  match o with OpDiv | OpMod => true | _ => false end.

(** The one pair of 64-bit operands whose quotient does not fit 64 bits. *)
Definition overflows (a b : Z) : bool := (a =? Int.INT64_MIN) && (b =? -1).

(** An integer operand: the [int] or the [int64_t] alternative. *)
Definition is_integer (v : Value) : bool := is_int v || is_long v.

(** The strings [bool(x)] reads as false although they are not empty:
    those whose lower-case form is [false] or [0]. *)
Definition reads_false (s : string) : bool :=
  String.eqb (Str.tolower s) "false" || String.eqb (Str.tolower s) "0".

(** The handle ids in the file-handle table are below the next id. *)
Definition files_wf (vm : VirtualMachine) : Prop :=
  forall k, is_Some (fileHandles vm !! k) -> k < nextFileHandleId vm.

(** A [steve::gc] with three objects: [5] is a root, [7] refers to [5] and
    [9] refers to [7]; neither [7] nor [9] is reachable. *)
Definition three_objects : GarbageCollector.t :=
  GarbageCollector.addReference 9 7
    (GarbageCollector.addReference 7 5
       (GarbageCollector.markRoot 5
          (GarbageCollector.allocate 9
             (GarbageCollector.allocate 7
                (GarbageCollector.allocate 5 GarbageCollector.init))))).

(** A machine collector with six cells: [10] is a root, [10], [20], [30]
    form a cycle, [40] and [50] refer to each other, [60] stands alone. *)
Definition six_cells : VMGarbageCollector.t :=
  VMGarbageCollector.addReference 30 10
    (VMGarbageCollector.addReference 20 30
       (VMGarbageCollector.addReference 10 20
          (VMGarbageCollector.addReference 40 50
             (VMGarbageCollector.addReference 50 40
                (VMGarbageCollector.markRoot 10
                   (VMGarbageCollector.allocate 60
                      (VMGarbageCollector.allocate 50
                         (VMGarbageCollector.allocate 40
                            (VMGarbageCollector.allocate 30
                               (VMGarbageCollector.allocate 20
                                  (VMGarbageCollector.allocate 10
                                     VMGarbageCollector.init))))))))))).

(** A machine collector with two objects and no root. *)
Definition two_unrooted : VMGarbageCollector.t :=
  VMGarbageCollector.allocate 16 (VMGarbageCollector.allocate 8 VMGarbageCollector.init).

Definition set_gc (g : VMGarbageCollector.t) (vm : VirtualMachine) : VirtualMachine :=
  mkVirtualMachine (state vm) g (useJIT vm) (fileHandles vm) (nextFileHandleId vm)
    (managedObjects vm) (nextObjectId vm) (steve_gc vm) (cout vm) (cerr vm).

(** ** Classes of instructions *)

(** The opcodes whose case [decodeAndExecute] embeds: all but [IF],
    [CALL], [INPUT], [MEM_malloc] and [MEM_free]. *)
Definition embedded (t : InstructionType) : bool :=
  match t with
  | IF | CALL | INPUT | MEM_MALLOC | MEM_FREE => false
  | _ => true
  end.

(** The opcodes whose case in the source can write the program counter or
    the [running] flag. *)
Definition transfers_control (t : InstructionType) : bool :=
  match t with
  | IF | CALL | WHILE | ELSE | END | RETURN | GOTO => true
  | _ => false
  end.

(** What an instruction adds to the nesting depth [jumpToEnd] keeps. *)
Definition depth_change (instr : Instruction) : Z :=
  match i_type instr with
  | IF | WHILE => 1
  | END => -1
  | _ => 0
  end.

(** The nesting depth after the instructions of [l], from [depth]. *)
Definition nesting (depth : Z) (l : list Instruction) : Z :=
  fold_left (fun d instr => d + depth_change instr) l depth.

(** Whether [instr] is a [LABEL] whose first operand is [label]: the test
    of the loop of [GOTO]. *)
Definition labelled (label : string) (instr : Instruction) : bool :=
  InstructionType_eqb (i_type instr) LABEL &&
  match operands instr with
  | o :: _ => String.eqb o label
  | [] => false
  end.

(** A program that jumps back to its label for ever. *)
Definition spin_listed : list Instruction :=
  listed [(LABEL, ["L"]); (GOTO, ["L"])]%string.

(** ** The other builtins ([registerBuiltInFunctions])

    Where a name is registered twice, the later lambda replaces the
    earlier one: [len], [append], [type] and [new] are the later ones.  A
    [Value] built from a string literal holds the [std::string]
    alternative, as the converting constructor of [std::variant] selects
    it since C++20. *)

(** [v.index()]: the position of the alternative held. *)
Definition Value_index (v : Value) : Z :=
  match v with
  | VInt _ => 0
  | VDouble _ => 1
  | VBool _ => 2
  | VString _ => 3
  | VNull => 4
  | VLong _ => 5
  | VPointer _ => 6
  | VList _ => 7
  | VDict _ => 8
  end.

(** [static_cast<int>] of a [double]: the value truncated towards zero;
    [None] where the conversion is undefined (not a number, infinite, or
    outside [int]). *)
Definition double_to_int (d : float) : option Z :=
  match FloatOps.Prim2SF d with
  | SpecFloat.S754_zero _ => Some 0
  | SpecFloat.S754_finite s m e =>
      let magnitude := if 0 <=? e then Z.pos m * 2 ^ e else Z.pos m / 2 ^ (- e) in
      let z := if s then - magnitude else magnitude in
      if (Int.INT_MIN <=? z) && (z <=? Int.INT_MAX) then Some z else None
  | _ => None
  end.

Definition set_managed (mo : gmap Z (Z * ManagedObject)) (next : Z)
    (vm : VirtualMachine) : VirtualMachine :=
  mkVirtualMachine (state vm) (gc vm) (useJIT vm) (fileHandles vm) (nextFileHandleId vm)
    mo next (steve_gc vm) (cout vm) (cerr vm).

(** The [ManagedObject] at address [addr], looked up in [managedObjects]. *)
Definition object_at (addr : Z) (vm : VirtualMachine) : option ManagedObject :=
  option_map (fun entry : Z * (Z * ManagedObject) => entry.2.2)
    (List.find (fun entry : Z * (Z * ManagedObject) => entry.2.1 =? addr)
       (map_to_list (managedObjects vm))).

(** [int(x)]. *)
Definition builtin_int (args : list Value) : Result Value :=
  match args with
  | VString s :: _ => Ok (VInt (default 0 (Str.stoi s)))
  | VDouble d :: _ =>
      match double_to_int d with
      | Some z => Ok (VInt z)
      | None => Outside
      end
  | VLong n :: _ => Ok (VInt (Int.wrap32 n))
  | VBool b :: _ => Ok (VInt (if b then 1 else 0))
  | VInt n :: _ => Ok (VInt n)
  | _ => Ok (VInt 0)
  end.

(** [type(x)]. *)
Definition builtin_type (args : list Value) : Value :=
  match args with
  | VInt _ :: _ => VString "int"
  | VDouble _ :: _ => VString "float"
  | VString _ :: _ => VString "string"
  | VBool _ :: _ => VString "bool"
  | VNull :: _ => VString "null"
  | VLong _ :: _ => VString "long"
  | VPointer ptr :: _ => VString (pv_type ptr)
  | VList _ :: _ => VString "list"
  | VDict _ :: _ => VString "dict"
  | [] => VString "unknown"
  end.

(** [bs(x)]. *)
Definition builtin_bs (args : list Value) : Value :=
  match args with
  | VInt val :: _ => VLong val
  | VLong val :: _ => VLong val
  | _ => VString "0"
  end.

(** [abs(x)]. *)
Definition builtin_abs (args : list Value) : Value :=
  match args with
  | VInt n :: _ => VInt (Int.wrap32 (Z.abs n))
  | VDouble d :: _ => VDouble (PrimFloat.abs d)
  | VLong n :: _ => VLong (Int.wrap64 (Z.abs n))
  | _ => VInt 0
  end.

(** [pow(base, exponent)]; [std::pow] is outside the embedding. *)
Definition builtin_pow (args : list Value) : Result Value :=
  match args with
  | _ :: _ :: _ => Outside
  | _ => Ok (VDouble PrimFloat.one)
  end.

(** [len(x)]. *)
Definition builtin_len (args : list Value) : Value :=
  match args with
  | VString s :: _ => VInt (Int.wrap32 (Z.of_nat (String.length s)))
  | VList items :: _ => VInt (Int.wrap32 (Z.of_nat (length items)))
  | VDict items :: _ => VInt (Int.wrap32 (Z.of_nat (length items)))
  | _ => VInt 0
  end.

(** [substr(str, start, length?)]. *)
Definition builtin_substr (args : list Value) : Value :=
  match args with
  | VString str :: arg1 :: rest =>
      let size := Int.wrap32 (Z.of_nat (String.length str)) in
      let start := match arg1 with VInt n => n | _ => 0 end in
      let length := match rest with VInt n :: _ => n | _ => size end in
      let start := if start <? 0 then 0 else start in
      if size <=? start then VString EmptyString
      else
        let length := if length <? 0 then 0 else length in
        let length :=
          if size <? Int.wrap32 (start + length) then Int.wrap32 (size - start) else length in
        VString (Str.substr start (Int.usize length) str)
  | _ => VString EmptyString
  end.

(** [append(list, item)]. *)
Definition builtin_append (args : list Value) : Value :=
  match args with
  | VList items :: item :: _ => VList (items ++ [item])
  | arg0 :: _ => arg0
  | [] => VInt 0
  end.

(** [list(items...)]. *)
Definition builtin_list (args : list Value) : Value := VList args.

(** [throw(message?)]. *)
Definition builtin_throw (args : list Value) : VMException :=
  match args with
  | VString s :: _ => throw RuntimeError s (-1)
  | arg0 :: _ => throw RuntimeError (Int.to_string (Value_index arg0)) (-1)
  | [] => throw RuntimeError "Exception thrown" (-1)
  end.

(** [hash(x)]; [std::hash] is outside the embedding. *)
Definition builtin_hash (args : list Value) : Result Value :=
  match args with
  | [] => Ok (VLong 0)
  | _ => Outside
  end.

(** [write(h, content)]; writing to the stream is outside the embedding. *)
Definition builtin_write (args : list Value) (vm : VirtualMachine)
    : VirtualMachine * Result Value :=
  let invalid :=
    (put_cerr ("Error: Invalid file handle for write" ++ Str.newline)%string vm,
     Ok (VInt (-1))) in
  match args with
  | VPointer ptrVal :: _ :: _ =>
      if negb (isNull ptrVal) then
        match fileHandles vm !! pv_ptr ptrVal with
        | Some handle =>
            if fh_isOpen handle then (vm, Outside)
            else (put_cerr ("Error: File not open for writing" ++ Str.newline)%string vm,
                  Ok (VInt (-1)))
        | None => invalid
        end
      else invalid
  | _ => invalid
  end.

(** [read(h)]; reading the stream is outside the embedding. *)
Definition builtin_read (args : list Value) (vm : VirtualMachine)
    : VirtualMachine * Result Value :=
  let invalid :=
    (put_cerr ("Error: Invalid file handle for read" ++ Str.newline)%string vm,
     Ok (VString EmptyString)) in
  match args with
  | VPointer ptrVal :: _ =>
      if negb (isNull ptrVal) then
        match fileHandles vm !! pv_ptr ptrVal with
        | Some handle =>
            if fh_isOpen handle then (vm, Outside)
            else (put_cerr ("Error: File not open for reading" ++ Str.newline)%string vm,
                  Ok (VString EmptyString))
        | None => invalid
        end
      else invalid
  | _ => invalid
  end.

(** [del(x)].  For a pointer that is not null the loop deletes the object
    of the first entry whose address is [ptr.obj] and erases the entry;
    then [ptr.obj] is deleted, a second time when the loop found it.
    Deleting an object twice, or one the table does not hold, is outside
    the embedding. *)
Definition builtin_del (args : list Value) (vm : VirtualMachine)
    : VirtualMachine * Result Value :=
  match args with
  | [] => (vm, Ok (VInt (-1)))
  | VPointer ptr :: _ =>
      if negb (isNull ptr) then
        if pv_obj ptr =? 0 then
          match List.find (fun entry : Z * (Z * ManagedObject) => entry.2.1 =? 0)
                  (map_to_list (managedObjects vm)) with
          | Some entry =>
              (set_managed (delete entry.1 (managedObjects vm)) (nextObjectId vm) vm,
               Ok (VInt 0))
          | None => (vm, Ok (VInt 0))
          end
        else (vm, Outside)
      else (vm, Ok (VInt 0))
  | _ => (vm, Ok (VInt 0))
  end.

(** [deref(p)].  Reading [ptr.obj->data] of an object the table does not
    hold is outside the embedding. *)
Definition builtin_deref (args : list Value) (vm : VirtualMachine) : Result Value :=
  match args with
  | VPointer ptr :: _ =>
      if negb (isNull ptr) && negb (pv_obj ptr =? 0) then
        match object_at (pv_obj ptr) vm with
        | Some managed =>
            if negb (mo_data managed =? 0)
            then Ok (VString ("[ptr_data:" ++ pv_type ptr ++ "]"))
            else Ok (VString "null")
        | None => Outside
        end
      else Ok (VString "null")
  | _ => Ok (VString "null")
  end.

Section Builtins.

(** The C++ library's conversions between text and [double] ([std::stod],
    [operator<<], [std::to_string]) and the size of a [std::string]. *)
Variable stod : string -> option float.
Variable show_double : float -> string.
Variable to_string_double : float -> string.
Variable sizeof_string : Z.

(** [print(x)]. *)
Definition builtin_print (args : list Value) (vm : VirtualMachine) : VirtualMachine * Value :=
  let text :=
    match args with
    | VString s :: _ => s
    | VInt n :: _ => Int.to_string n
    | VDouble d :: _ => show_double d
    | VBool b :: _ => if b then "true" else "false"
    | VNull :: _ => "null"
    | _ => EmptyString
    end%string in
  (put_cout (text ++ Str.newline)%string vm, VNull).

(** [float(x)]. *)
Definition builtin_float (args : list Value) : Value :=
  match args with
  | VString s :: _ => VDouble (default PrimFloat.zero (stod s))
  | VInt n :: _ => VDouble (Int.to_double n)
  | VLong n :: _ => VDouble (Int.to_double n)
  | VBool b :: _ => VDouble (Int.to_double (if b then 1 else 0))
  | VDouble d :: _ => VDouble d
  | _ => VDouble PrimFloat.zero
  end.

(** [string(x)]. *)
Definition builtin_string (args : list Value) : Value :=
  match args with
  | VInt n :: _ => VString (Int.to_string n)
  | VLong n :: _ => VString (Int.to_string n)
  | VDouble d :: _ => VString (to_string_double d)
  | VBool b :: _ => VString (if b then "true" else "false")
  | VString s :: _ => VString s
  | VNull :: _ => VString "null"
  | _ => VString EmptyString
  end.

(** [run(...)]. *)
Definition builtin_run (args : list Value) (vm : VirtualMachine) : VirtualMachine * Value :=
  (put_cout ("Run function called (not fully implemented)" ++ Str.newline)%string vm, VInt 0).

(** [new(type)], [data] being what [std::malloc] returned and [obj] the
    address at which [new] put the [ManagedObject]. *)
Definition builtin_new (obj data : Z) (args : list Value) (vm : VirtualMachine)
    : VirtualMachine * Value :=
  match args with
  | arg0 :: _ =>
      let requestedType :=
        match arg0 with
        | VString s => s
        | _ => Int.to_string (Value_index arg0)
        end in
      let size :=
        if String.eqb requestedType "int" || String.eqb requestedType "bool" then 4
        else if String.eqb requestedType "float" || String.eqb requestedType "double" then 8
        else if String.eqb requestedType "string" then sizeof_string
        else 8 in
      if data =? 0 then (vm, VPointer PointerValue_default)
      else
        let managed := ManagedObject_new data requestedType size in
        let objId := nextObjectId vm in
        (set_managed (<[ objId := (obj, managed) ]> (managedObjects vm))
           (Int.wrap64 (objId + 1)) vm,
         VPointer (PointerValue_of_obj obj (mo_data managed) requestedType false false))
  | [] => (vm, VPointer PointerValue_default)
  end.

(** A registered builtin: what it does to the machine, and what it
    returns. *)
Definition Builtin : Type := list Value -> VirtualMachine -> VirtualMachine * Result Value.

Definition returns (f : list Value -> Value) : Builtin :=
  fun args vm => (vm, Ok (f args)).

Definition returns_with (f : list Value -> VirtualMachine -> VirtualMachine * Value) : Builtin :=
  fun args vm => let r := f args vm in (r.1, Ok r.2).

(** [builtInFunctions.find(name)].  [opened], [obj] and [data] are what
    the environment answers a call of [open] or [new]: whether the stream
    could be opened, the address of the new [ManagedObject], and the
    result of [std::malloc].  [input] reads the input stream, which is
    outside the embedding. *)
Definition builtInFunctions (opened : bool) (obj data : Z) (name : string) : option Builtin :=
  if String.eqb name "print" then Some (returns_with builtin_print)
  else if String.eqb name "input" then Some (fun _ vm => (vm, Outside))
  else if String.eqb name "int" then Some (fun args vm => (vm, builtin_int args))
  else if String.eqb name "float" then Some (returns builtin_float)
  else if String.eqb name "string" then Some (returns builtin_string)
  else if String.eqb name "bool" then Some (returns builtin_bool)
  else if String.eqb name "new" then Some (returns_with (builtin_new obj data))
  else if String.eqb name "type" then Some (returns builtin_type)
  else if String.eqb name "hash" then Some (fun args vm => (vm, builtin_hash args))
  else if String.eqb name "bs" then Some (returns builtin_bs)
  else if String.eqb name "run" then Some (returns_with builtin_run)
  else if String.eqb name "open" then Some (returns_with (builtin_open opened obj))
  else if String.eqb name "close" then Some builtin_close
  else if String.eqb name "write" then Some builtin_write
  else if String.eqb name "read" then Some builtin_read
  else if String.eqb name "throw" then Some (fun args vm => (vm, Throw (builtin_throw args)))
  else if String.eqb name "abs" then Some (returns builtin_abs)
  else if String.eqb name "pow" then Some (fun args vm => (vm, builtin_pow args))
  else if String.eqb name "len" then Some (returns builtin_len)
  else if String.eqb name "substr" then Some (returns builtin_substr)
  else if String.eqb name "append" then Some (returns builtin_append)
  else if String.eqb name "dict_append" then Some (returns (fun _ => VInt 0))
  else if String.eqb name "del" then Some builtin_del
  else if String.eqb name "list" then Some (returns builtin_list)
  else if String.eqb name "deref" then Some (fun args vm => (vm, builtin_deref args vm))
  else None.

(** The [CALL] case of [decodeAndExecute]: a builtin gets the top of the
    stack as its only argument, or none when the stack is empty, and its
    result is pushed; a user function gets the program counter pushed as
    the return address. *)
Definition call (opened : bool) (obj data : Z) (instr : Instruction) (vm : VirtualMachine)
    : VirtualMachine * Outcome :=
  let st := state vm in
  match operands instr with
  | funcName :: _ =>
      match builtInFunctions opened obj data funcName with
      | Some builtin =>
          let '(args, vm1) :=
            match stack st with
            | top :: rest => ([top], set_stack rest vm)
            | [] => ([], vm)
            end in
          match builtin args vm1 with
          | (vm2, Ok result) => (push result vm2, Returned true)
          | (vm2, Throw e) => (vm2, Thrown e)
          | (vm2, Outside) => (vm2, Unmodelled)
          end
      | None =>
          match functions st !! funcName with
          | Some target =>
              (set_pc target (push (VInt (Int.wrap32 (pc st))) vm), Returned true)
          | None =>
              (vm, Thrown (throw RuntimeError ("Undefined function: " ++ funcName)%string
                             (i_line instr)))
          end
      end
  | [] => (vm, Returned true)
  end.

(** [decodeAndExecute(instr)] with its [CALL] case. *)
Definition dispatch (opened : bool) (obj data : Z) (instr : Instruction) (vm : VirtualMachine)
    : VirtualMachine * Outcome :=
  match i_type instr with
  | CALL => call opened obj data instr vm
  | _ => decodeAndExecute stod show_double instr vm
  end.

End Builtins.

(** The number [Str.read_digits] computes from the digits [d], most
    significant first, starting from [acc]. *)
Fixpoint digits_value (d : Decimal.uint) (acc : Z) : Z :=
  match d with
  | Decimal.Nil => acc
  | Decimal.D0 l => digits_value l (10 * acc + 0)
  | Decimal.D1 l => digits_value l (10 * acc + 1)
  | Decimal.D2 l => digits_value l (10 * acc + 2)
  | Decimal.D3 l => digits_value l (10 * acc + 3)
  | Decimal.D4 l => digits_value l (10 * acc + 4)
  | Decimal.D5 l => digits_value l (10 * acc + 5)
  | Decimal.D6 l => digits_value l (10 * acc + 6)
  | Decimal.D7 l => digits_value l (10 * acc + 7)
  | Decimal.D8 l => digits_value l (10 * acc + 8)
  | Decimal.D9 l => digits_value l (10 * acc + 9)
  end.

(** ** Sequences of file operations *)

(** A call of [open] (with what the environment answers it) or of
    [close]. *)
Inductive FileOp :=
| OpOpen (opened : bool) (obj : Z) (args : list Value)
| OpClose (args : list Value).

Definition file_op (op : FileOp) (vm : VirtualMachine) : VirtualMachine * Result Value :=
  match op with
  | OpOpen opened obj args => let r := builtin_open opened obj args vm in (r.1, Ok r.2)
  | OpClose args => builtin_close args vm
  end.

(** The calls of [ops] one after the other, up to the first that does not
    return: the machine the calls that returned leave, the value each of
    them returned, and whether all calls returned. *)
Fixpoint file_ops (ops : list FileOp) (vm : VirtualMachine)
    : VirtualMachine * list Value * bool :=
  match ops with
  | [] => (vm, [], true)
  | op :: rest =>
      match file_op op vm with
      | (vm1, Ok v) => let rs := file_ops rest vm1 in (rs.1.1, v :: rs.1.2, rs.2)
      | (_, _) => (vm, [], false)
      end
  end.

(** The handle ids among the values returned: the raw pointer of every
    pointer that is not null. *)
Fixpoint handles_of (results : list Value) : list Z :=
  match results with
  | [] => []
  | VPointer p :: rest => if isNull p then handles_of rest else pv_ptr p :: handles_of rest
  | _ :: rest => handles_of rest
  end.

(** The invariant of the file-handle table: the ids start at 1000, every
    handle in the table is open, its id is below the next id, and the
    managed object registered under the id holds the id as its [data]. *)
Definition files_inv (vm : VirtualMachine) : Prop :=
  1000 <= nextFileHandleId vm /\
  forall k fh, fileHandles vm !! k = Some fh ->
    fh_isOpen fh = true /\ 1000 <= k < nextFileHandleId vm /\
    exists obj managed, managedObjects vm !! k = Some (obj, managed) /\ mo_data managed = k.

(** What a call that returned [v] has done to the table and to the
    counter, and which handle it has handed out. *)
Definition file_step (vm vm' : VirtualMachine) (v : Value) : Prop :=
  files_inv vm' /\
  nextFileHandleId vm <= nextFileHandleId vm' <= nextFileHandleId vm + 1 /\
  (forall k, is_Some (fileHandles vm !! k) -> is_Some (fileHandles vm' !! k)) /\
  (is_pointer v = true \/ v = VInt (-1)) /\
  (handles_of [v] = [] \/
   (handles_of [v] = [nextFileHandleId vm] /\
    nextFileHandleId vm' = nextFileHandleId vm + 1 /\
    is_Some (fileHandles vm' !! nextFileHandleId vm))).

(** ** The debugger ([vm.h], [vm.cpp]) *)

Module DebugCommand.

Inductive t := NONE | STEP | STEP_OVER | STEP_INTO | STEP_OUT | CONTINUE | BREAK.

Definition eqb (a b : t) : bool :=
  match a, b with
  | NONE, NONE | STEP, STEP | STEP_OVER, STEP_OVER | STEP_INTO, STEP_INTO
  | STEP_OUT, STEP_OUT | CONTINUE, CONTINUE | BREAK, BREAK => true
  | _, _ => false
  end.

End DebugCommand.

Record Breakpoint := mkBreakpoint {
  bp_line : Z;
  bp_pc : Z;
  bp_enabled : bool;
  bp_condition : string;
  bp_temporary : bool
}.

(** [Breakpoint(l, p)] and [Breakpoint(l, p, cond)]. *)
Definition Breakpoint_new (l p : Z) : Breakpoint := mkBreakpoint l p true EmptyString false.
Definition Breakpoint_cond (l p : Z) (cond : string) : Breakpoint :=
  mkBreakpoint l p true cond false.

(** [DebugState].  [breakpoints] is in the order of the vector;
    [callStack] has its [back()] at the head. *)
Record DebugState := mkDebugState {
  debugging : bool;
  pendingCommand : DebugCommand.t;
  breakpoints : list Breakpoint;
  callStack : list Z;
  stepOverTarget : Z;
  isStepping : bool;
  currentCallDepth : Z
}.

(** [DebugState()]. *)
Definition DebugState_new : DebugState :=
  mkDebugState false DebugCommand.NONE [] [] 0 false 0.

Definition set_breakpoints (bps : list Breakpoint) (ds : DebugState) : DebugState :=
  mkDebugState (debugging ds) (pendingCommand ds) bps (callStack ds) (stepOverTarget ds)
    (isStepping ds) (currentCallDepth ds).

Definition set_command (c : DebugCommand.t) (stepping : bool) (ds : DebugState) : DebugState :=
  mkDebugState (debugging ds) c (breakpoints ds) (callStack ds) (stepOverTarget ds)
    stepping (currentCallDepth ds).

Definition set_calls (calls : list Z) (depth : Z) (ds : DebugState) : DebugState :=
  mkDebugState (debugging ds) (pendingCommand ds) (breakpoints ds) calls (stepOverTarget ds)
    (isStepping ds) depth.

Definition setDebugging (enabled : bool) (ds : DebugState) : DebugState :=
  mkDebugState enabled (pendingCommand ds) (breakpoints ds) (callStack ds) (stepOverTarget ds)
    (isStepping ds) (currentCallDepth ds).

Definition step (ds : DebugState) : DebugState := set_command DebugCommand.STEP true ds.

(** [stepOver()], [pc] being [state.pc]. *)
Definition stepOver (pc : Z) (ds : DebugState) : DebugState :=
  mkDebugState (debugging ds) DebugCommand.STEP_OVER (breakpoints ds) (callStack ds)
    (Int.usize (pc + 1)) true (currentCallDepth ds).

Definition stepInto (ds : DebugState) : DebugState := set_command DebugCommand.STEP_INTO true ds.
Definition stepOut (ds : DebugState) : DebugState := set_command DebugCommand.STEP_OUT true ds.
Definition continueExecution (ds : DebugState) : DebugState :=
  set_command DebugCommand.CONTINUE false ds.

Definition addBreakpoint (line pc : Z) (ds : DebugState) : DebugState :=
  set_breakpoints (breakpoints ds ++ [Breakpoint_new line pc]) ds.

Definition addBreakpoint_cond (line pc : Z) (condition : string) (ds : DebugState) : DebugState :=
  set_breakpoints (breakpoints ds ++ [Breakpoint_cond line pc condition]) ds.

Definition removeBreakpoint (line : Z) (ds : DebugState) : DebugState :=
  set_breakpoints
    (List.filter (fun bp => negb ((bp_line bp =? line) && negb (bp_temporary bp)))
       (breakpoints ds)) ds.

Definition removeBreakpointByPC (pc : Z) (ds : DebugState) : DebugState :=
  set_breakpoints
    (List.filter (fun bp => negb ((bp_pc bp =? pc) && negb (bp_temporary bp)))
       (breakpoints ds)) ds.

Definition set_enabled (b : bool) (bp : Breakpoint) : Breakpoint :=
  mkBreakpoint (bp_line bp) (bp_pc bp) b (bp_condition bp) (bp_temporary bp).

Definition enableBreakpoint (line : Z) (ds : DebugState) : DebugState :=
  set_breakpoints
    (map (fun bp => if bp_line bp =? line then set_enabled true bp else bp) (breakpoints ds)) ds.

Definition disableBreakpoint (line : Z) (ds : DebugState) : DebugState :=
  set_breakpoints
    (map (fun bp => if bp_line bp =? line then set_enabled false bp else bp) (breakpoints ds)) ds.

Definition checkBreakpointCondition (bp : Breakpoint) : bool := true.

(** Whether the loop of [shouldPauseAt] returns at the breakpoint [bp]. *)
Definition breakpoint_hit (pc line : Z) (bp : Breakpoint) : bool :=
  bp_enabled bp && ((bp_pc bp =? pc) || (negb (line =? -1) && (bp_line bp =? line)))
  && (String.eqb (bp_condition bp) EmptyString || checkBreakpointCondition bp).

(** [shouldPauseAt(pc, line)]; [line] defaults to [-1]. *)
Definition shouldPauseAt (pc line : Z) (ds : DebugState) : bool :=
  existsb (breakpoint_hit pc line) (breakpoints ds)
  || (isStepping ds && DebugCommand.eqb (pendingCommand ds) DebugCommand.STEP).

(** [handleDebugCommand()]. *)
Definition handleDebugCommand (m : VirtualMachine * DebugState)
    : VirtualMachine * DebugState * bool :=
  let '(vm, ds) := m in
  if DebugCommand.eqb (pendingCommand ds) DebugCommand.BREAK
     || DebugCommand.eqb (pendingCommand ds) DebugCommand.STEP
     || shouldPauseAt (pc (state vm)) (-1) ds
  then (put_cout ("DEBUGGER PAUSED at PC: " ++ Int.to_string (pc (state vm)) ++ Str.newline)%string
          vm,
        set_command DebugCommand.NONE false ds, true)
  else (vm, ds, false).

(** The bookkeeping of [executeDebugInstruction] for the instruction at
    [index]: a [CALL] is recorded, a [RETURN] removes the last record. *)
Definition track_call (t : InstructionType) (index : Z) (ds : DebugState) : DebugState :=
  match t with
  | CALL => set_calls (index :: callStack ds) (Int.usize (currentCallDepth ds + 1)) ds
  | RETURN =>
      match callStack ds with
      | _ :: rest =>
          set_calls rest
            (if 0 <? currentCallDepth ds then currentCallDepth ds - 1 else currentCallDepth ds) ds
      | [] => ds
      end
  | _ => ds
  end.

(** How [executeDebug] ends: it returned, an exception left it (it has no
    handler), the fuel ran out first, or the run reached something the
    embedding leaves out. *)
Inductive DebugResult :=
| DebugReturned (b : bool)
| DebugRaised (e : VMException)
| DebugOutOfFuel
| DebugUnsupported.

Section Debugger.

Variable stod : string -> option float.
Variable show_double : float -> string.
Variable to_string_double : float -> string.
Variable sizeof_string : Z.

(** [executeDebugInstruction(index)].  [answer] is what the environment
    answers the instruction, should it call [open] or [new]: whether the
    stream could be opened, the address of the new [ManagedObject], and the
    result of [std::malloc]. *)
Definition executeDebugInstruction (answer : bool * Z * Z) (index : Z)
    (m : VirtualMachine * DebugState) : VirtualMachine * DebugState * Outcome :=
  let '(vm, ds) := m in
  if Z.of_nat (length (program (state vm))) <=? index then (vm, ds, Returned false)
  else
    match nth_error (program (state vm)) (Z.to_nat index) with
    | Some instr =>
        let '(vm1, ds1) :=
          if shouldPauseAt index (i_line instr) ds then (handleDebugCommand (vm, ds)).1
          else (vm, ds) in
        let ds2 := track_call (i_type instr) index ds1 in
        match dispatch stod show_double to_string_double sizeof_string
                answer.1.1 answer.1.2 answer.2 instr vm1 with
        | (vm2, Returned result) => (set_pc (Int.usize (index + 1)) vm2, ds2, Returned result)
        | (vm2, outcome) => (vm2, ds2, outcome)
        end
    | None => (vm, ds, Returned false)
    end.

(** The loop of [executeDebug], for at most [fuel] instructions;
    [answers n] is what the environment answers the instruction run with
    [n] rounds of fuel left. *)
Fixpoint debug_loop (answers : nat -> bool * Z * Z) (fuel : nat)
    (m : VirtualMachine * DebugState) : VirtualMachine * DebugState * DebugResult :=
  let '(vm, ds) := m in
  if running (state vm) && (pc (state vm) <? Z.of_nat (length (program (state vm)))) then
    match fuel with
    | O => (vm, ds, DebugOutOfFuel)
    | S fuel' =>
        match executeDebugInstruction (answers fuel') (pc (state vm)) (vm, ds) with
        | (vm1, ds1, Returned false) => (vm1, ds1, DebugReturned (negb (running (state vm1))))
        | (vm1, ds1, Returned true) =>
            if negb (DebugCommand.eqb (pendingCommand ds1) DebugCommand.NONE)
               && negb (DebugCommand.eqb (pendingCommand ds1) DebugCommand.CONTINUE)
            then debug_loop answers fuel' (handleDebugCommand (vm1, ds1)).1
            else debug_loop answers fuel' (vm1, ds1)
        | (vm1, ds1, Thrown e) => (vm1, ds1, DebugRaised e)
        | (vm1, ds1, Unmodelled) => (vm1, ds1, DebugUnsupported)
        end
    end
  else (vm, ds, DebugReturned (negb (running (state vm)))).

(** [executeDebug()]: with no breakpoint and no stepping it is
    [execute()]. *)
Definition executeDebug (answers : nat -> bool * Z * Z) (fuel : nat)
    (m : VirtualMachine * DebugState) : VirtualMachine * DebugState * DebugResult :=
  let '(vm, ds) := m in
  if match breakpoints ds with [] => true | _ => false end && negb (isStepping ds) then
    match execute stod show_double fuel vm with
    | (vm1, Done ok) => (vm1, ds, DebugReturned ok)
    | (vm1, OutOfFuel) => (vm1, ds, DebugOutOfFuel)
    | (vm1, Unsupported) => (vm1, ds, DebugUnsupported)
    end
  else debug_loop answers fuel (set_running true vm, ds).

End Debugger.

(** ** The memory pools behind [MEM_malloc] ([mem.cpp])

    [allocateMemory] calls [steve::malloc], which asks the
    [MemoryManager]. *)

Module MemoryPool.

(** [MemoryPool]: a block is known by its offset from the start of the
    pool. *)
Record t := mk {
  poolSize : Z;
  blockSize : Z;
  currentOffset : Z
}.

(** [MemoryPool(poolSize, blockSize)], [std::malloc] having succeeded. *)
Definition init (poolSize blockSize : Z) : t := mk poolSize blockSize 0.

(** [allocate()]: the offset of the block, or [None] for [nullptr]. *)
Definition allocate (p : t) : option Z * t :=
  if Int.usize (currentOffset p + blockSize p) <=? poolSize p
  then (Some (currentOffset p),
        mk (poolSize p) (blockSize p) (Int.usize (currentOffset p + blockSize p)))
  else (None, p).

(** [deallocate(ptr)]: its body is empty. *)
Definition deallocate (ptr : Z) (p : t) : t := p.

Definition reset (p : t) : t := mk (poolSize p) (blockSize p) 0.

Definition getUsedSize (p : t) : Z := currentOffset p.

Definition getFreeSize (p : t) : Z := Int.usize (poolSize p - currentOffset p).

(** [n] calls of [allocate], one after the other. *)
Fixpoint allocate_n (n : nat) (p : t) : list (option Z) * t :=
  match n with
  | O => ([], p)
  | S n' =>
      let r := allocate p in
      let rs := allocate_n n' r.2 in
      (r.1 :: rs.1, rs.2)
  end.

End MemoryPool.

Module MemoryManager.

Definition poolSizes : list Z := [16; 32; 64; 128; 256; 512; 1024; 2048; 4096; 8192].

(** [MemoryManager]: the array [pools]. *)
Definition t : Type := list MemoryPool.t.

(** [MemoryManager()]: each pool holds 100 blocks of its size. *)
Definition init : t := map (fun s => MemoryPool.init (s * 100) s) poolSizes.

(** What [allocate] returns: a block of the pool [i], or what
    [std::malloc(size)] returns. *)
Inductive Block :=
| InPool (i : nat) (offset : Z)
| Malloc.

(** The loop of [allocate] from index [i] on, [sizes] and [pools] being
    what is left of the two arrays. *)
Fixpoint allocate_from (i : nat) (size : Z) (sizes : list Z) (pools : list MemoryPool.t)
    : Block * list MemoryPool.t :=
  match sizes, pools with
  | s :: sizes', p :: pools' =>
      if size <=? s then
        match MemoryPool.allocate p with
        | (Some offset, p') => (InPool i offset, p' :: pools')
        | (None, _) =>
            let r := allocate_from (S i) size sizes' pools' in
            (r.1, p :: r.2)
        end
      else
        let r := allocate_from (S i) size sizes' pools' in
        (r.1, p :: r.2)
  | _, _ => (Malloc, pools)
  end.

(** [allocate(size)]. *)
Definition allocate (size : Z) (m : t) : Block * t := allocate_from 0 size poolSizes m.

(** [cleanup()]. *)
Definition cleanup (m : t) : t := map MemoryPool.reset m.

(** [getMemoryStats(totalAllocated, totalFree)]. *)
Definition getMemoryStats (m : t) : Z * Z :=
  fold_left (fun acc p => (Int.usize (acc.1 + MemoryPool.getUsedSize p),
                           Int.usize (acc.2 + MemoryPool.getFreeSize p))) m (0, 0).

(** The shape the constructor gives the pools and every operation keeps:
    the pool [i] has blocks of [poolSizes[i]] bytes, room for 100 of them,
    and an offset inside the pool. *)
Definition wf (m : t) : Prop :=
  Forall2 (fun s p => MemoryPool.blockSize p = s /\ MemoryPool.poolSize p = s * 100 /\
                      0 <= MemoryPool.currentOffset p <= MemoryPool.poolSize p)
    poolSizes m.

End MemoryManager.


(** * Properties *)

(** ** Scenarios run through [execute] *)

(** C1 (the code departs from the claim).  The loop program does not print
    the three lines [0], [1], [2].  Decoded by [parseIR], every operand sits
    behind the three empty strings of [Instruction()], so [BINARY_OP] reads
    the empty operator: the run stops with a type error and prints nothing.
    With the operands at index 0, [WHILE] pushes the sentinel [5], but at
    [END] the condition computed last lies on top of it, [END] does not
    jump, and the run ends after one round, having printed the line [0]. *)
Theorem loop_scenario_output (stod : string -> option float) (show_double : float -> string) :
  (let r := execute stod show_double 100 (loadProgram loop_ir VirtualMachine_new).1 in
   r.2 = Done false /\ cout r.1 = EmptyString) /\
  (let r := execute stod show_double 100 (machine_with loop_listed) in
   r.2 = Done true /\ cout r.1 = ("0" ++ Str.newline)%string /\
   stack (state r.1) = [VBool true; VInt 5]).
Proof.
  split; cbv zeta.
  - split; vm_compute; reflexivity.
  - repeat split; vm_compute; reflexivity.
Qed.

(** C4 (the code departs from the claim).  The concatenation program does
    not print [foobar].  Decoded by [parseIR], both [LOAD]s read the empty
    operand at index 0 and push the integer 0, and [BINARY_OP] reads the
    empty operator: the run stops with a type error and prints nothing.
    With the decoded operands at index 0, the decoder has already removed
    the quotes [LOAD] looks for, so both literals are read as undefined
    variables and the program prints the line [0]. *)
Theorem concat_scenario_output (stod : string -> option float) (show_double : float -> string) :
  parseIR concat_ir =
    [mkInstruction LOAD 1 (operands Instruction_default ++ ["foo"%string]);
     mkInstruction LOAD 2 (operands Instruction_default ++ ["bar"%string]);
     mkInstruction BINARY_OP 3 (operands Instruction_default ++ ["+"%string]);
     mkInstruction PRINT 4 (operands Instruction_default)]%list /\
  operands Instruction_default = [EmptyString; EmptyString; EmptyString] /\
  (let r := execute stod show_double 100 (loadProgram concat_ir VirtualMachine_new).1 in
   r.2 = Done false /\ cout r.1 = EmptyString) /\
  (let r := execute stod show_double 100 (machine_with concat_listed) in
   r.2 = Done true /\ cout r.1 = ("0" ++ Str.newline)%string).
Proof.
  split; [vm_compute; reflexivity |].
  split; [reflexivity |].
  split; cbv zeta; split; vm_compute; reflexivity.
Qed.

(** Had [LOAD] received the quoted tokens, the program would print [foobar]. *)
Lemma concat_quoted_operands (stod : string -> option float) (show_double : float -> string) :
  let prog := listed [(LOAD, [quoted "foo"]); (LOAD, [quoted "bar"]);
                      (BINARY_OP, ["+"%string]); (PRINT, [])] in
  cout (execute stod show_double 100 (machine_with prog)).1 = ("foobar" ++ Str.newline)%string.
Proof. vm_compute. reflexivity. Qed.

(** ** Operands of decoded instructions *)

Lemma parse_line_operands lineNum line instr :
  parse_line lineNum line = Some instr ->
  exists rest, operands instr = EmptyString :: EmptyString :: EmptyString :: rest.
Proof.
  unfold parse_line.
  destruct (String.eqb line EmptyString || Str.eqb_ascii (Str.at0 line) ";"); [discriminate |].
  destruct (Str.contains "# IR BEGIN" line || Str.contains "IR END" line); [discriminate |].
  match goal with |- context [String.eqb ?l EmptyString] =>
    destruct (String.eqb l EmptyString); [discriminate |]; destruct (Str.tokens l) as [| instrName rest]
  end; [discriminate |].
  intros H. injection H as <-. cbn [operands Instruction_default app]. eauto.
Qed.

(** X2.  In every instruction [parseIR] decodes, the operands of the line
    lie behind three empty strings: the operand at index 0, the one the
    interpreter reads, is empty whatever the line said. *)
Theorem parseIR_operands_offset (irCode : string) :
  Forall (fun instr =>
            exists rest, operands instr = EmptyString :: EmptyString :: EmptyString :: rest)
         (parseIR irCode).
Proof.
  unfold parseIR. generalize (Str.getlines irCode) as lines. generalize 0 as lineNum.
  intros lineNum lines. revert lineNum.
  induction lines as [| line lines IH]; intros lineNum; cbn [parse_lines].
  - constructor.
  - cbv zeta.
    destruct (parse_line (Int.wrap32 (lineNum + 1)) line) as [instr |] eqn:E; [| apply IH].
    constructor; [| apply IH]. eapply parse_line_operands. exact E.
Qed.

(** X3.  A [LOAD] whose operand at index 0 is empty, as in every decoded
    program, pushes the value of the variable with the empty name, or the
    integer 0 when there is none: the literal or name on its line is not
    looked at. *)
Theorem decoded_load_ignores_operand (stod : string -> option float)
    (show_double : float -> string) (vm : VirtualMachine) (line : Z) (rest : list string) :
  decodeAndExecute stod show_double (mkInstruction LOAD line (EmptyString :: rest)) vm =
    (push (default (VInt 0) (variables (state vm) !! EmptyString)) vm, Returned true).
Proof.
  unfold decodeAndExecute. cbn [i_type operands]. cbn.
  destruct (variables (state vm) !! EmptyString); reflexivity.
Qed.

(** X4.  The sentinel of a loop.  [WHILE] pops the condition and, when it
    is true, pushes the index before its own as a 32-bit integer, leaving
    the program counter alone.  [END] pops nothing; it sets the program
    counter to the integer on top of the stack when there is one and it
    is an index of the program, and does nothing otherwise, in particular
    when a boolean lies on top of the sentinel. *)
Theorem loop_sentinel (stod : string -> option float) (show_double : float -> string)
    (vm : VirtualMachine) (line : Z) (ops : list string) (condition : Value)
    (rest : list Value) :
  (getBoolValue condition = true ->
   decodeAndExecute stod show_double (mkInstruction WHILE line ops)
     (set_stack (condition :: rest) vm) =
   (set_stack (VInt (Int.wrap32 (Int.usize (pc (state vm) - 1))) :: rest) vm, Returned true)) /\
  (let r := decodeAndExecute stod show_double (mkInstruction END line ops) vm in
   r.2 = Returned true /\
   stack (state r.1) = stack (state vm) /\
   pc (state r.1) =
     match stack (state vm) with
     | VInt loopStart :: _ =>
         if (0 <=? loopStart) && (loopStart <? Int.wrap32 (Z.of_nat (length (program (state vm)))))
         then loopStart else pc (state vm)
     | _ => pc (state vm)
     end).
Proof.
  split.
  - intros Hc. unfold decodeAndExecute.
    cbn [i_type set_stack set_state state stack pc]. rewrite Hc. reflexivity.
  - cbv zeta. unfold decodeAndExecute. cbn [i_type].
    destruct (stack (state vm)) as [| top tl] eqn:E; [repeat split; auto |].
    destruct top; try (repeat split; auto; fail).
    destruct ((0 <=? n) && (n <? Int.wrap32 (Z.of_nat (length (program (state vm))))));
      repeat split; cbn; auto.
Qed.

(** A run of [loop_sentinel]: [WHILE] at index 6 pushes 5. *)
Lemma loop_sentinel_witness :
  decodeAndExecute (fun _ => None) (fun _ => EmptyString) (mkInstruction WHILE 7 [])
    (set_stack [VBool true] (set_pc 6 VirtualMachine_new)) =
  (set_stack [VInt 5] (set_pc 6 VirtualMachine_new), Returned true).
Proof.
  exact (proj1 (loop_sentinel (fun _ => None) (fun _ => EmptyString)
                  (set_pc 6 VirtualMachine_new) 7 [] (VBool true) []) eq_refl).
Defined.

(** ** Arithmetic of [BINARY_OP] *)

Lemma wrap64_in_int64 z : Int.in_int64 (Int.wrap64 z).
Proof.
  unfold Int.in_int64, Int.wrap64, Int.wrap.
  pose proof (Z.mod_pos_bound (z + 2 ^ (64 - 1)) (2 ^ 64) ltac:(lia)).
  change (2 ^ (64 - 1)) with 9223372036854775808 in *.
  change (2 ^ 64) with 18446744073709551616 in *.
  change (2 ^ 63) with 9223372036854775808. lia.
Qed.

Lemma wrap64_id z : Int.in_int64 z -> Int.wrap64 z = z.
Proof.
  unfold Int.in_int64, Int.wrap64, Int.wrap. intros H.
  change (2 ^ (64 - 1)) with 9223372036854775808 in *.
  change (2 ^ 64) with 18446744073709551616 in *.
  change (2 ^ 63) with 9223372036854775808 in *.
  rewrite Z.mod_small; lia.
Qed.

Lemma is_integer_cases v :
  is_integer v = true -> exists n, (v = VInt n \/ v = VLong n) /\ getInt64Value v = n.
Proof. destruct v; try discriminate; intros _; eexists; eauto. Qed.

Lemma integer_not_double v : is_integer v = true -> is_double v = false.
Proof. destruct v; try discriminate; reflexivity. Qed.

(** The integer branch of [performBinaryOperation], operator by operator. *)
Lemma integer_branch l r o line :
  is_integer l = true -> is_integer r = true ->
  performBinaryOperation l r (arith_symbol o) line =
    if divides o && (getInt64Value r =? 0)
    then Throw (throw RuntimeError
                  (if String.eqb (arith_symbol o) "/" then "Division by zero error"
                   else "Modulo by zero error") line)
    else if divides o && overflows (getInt64Value l) (getInt64Value r)
    then Outside
    else Ok (VLong (Int.wrap64 (arith_eval o (getInt64Value l) (getInt64Value r)))).
Proof.
  intros Hl Hr. unfold performBinaryOperation, overflows.
  rewrite (integer_not_double l Hl), (integer_not_double r Hr).
  unfold is_integer in Hl, Hr. rewrite Hl, Hr. cbn [orb andb].
  destruct o; cbn [arith_symbol divides arith_eval andb]; try reflexivity;
    unfold op_is; cbn [String.eqb Ascii.eqb Bool.eqb];
    destruct (getInt64Value r =? 0); reflexivity.
Qed.

(** C3.  On two integer operands, [/] and [%] with a right operand equal
    to zero throw a runtime error; so does [/] when an operand is a double
    and the right operand, as a double, compares equal to zero.  Executed
    as a [BINARY_OP] instruction, both operands are popped, the exception
    leaves [decodeAndExecute], and nothing is pushed. *)
Theorem division_by_zero_raises (stod : string -> option float)
    (show_double : float -> string) (l r : Value) (op : string) (line : Z)
    (ops : list string) (rest : list Value) (vm : VirtualMachine) :
  (is_integer l = true /\ is_integer r = true /\ getInt64Value r = 0 /\
     (op = "/"%string \/ op = "%"%string)) \/
  ((is_double l = true \/ is_double r = true) /\
     PrimFloat.eqb (getDoubleValue r) PrimFloat.zero = true /\ op = "/"%string) ->
  exists e,
    exn_class e = RuntimeError /\ exn_line e = line /\
    performBinaryOperation l r op line = Throw e /\
    decodeAndExecute stod show_double (mkInstruction BINARY_OP line (op :: ops))
      (set_stack (r :: l :: rest) vm) = (set_stack rest vm, Thrown e).
Proof.
  intros H.
  assert (Hthrow : exists e, exn_class e = RuntimeError /\ exn_line e = line /\
                     performBinaryOperation l r op line = Throw e).
  { destruct H as [(Hl & Hr & Hz & Hop) | (Hd & Hz & ->)].
    - destruct Hop as [-> | ->].
      + pose proof (integer_branch l r OpDiv line Hl Hr) as E.
        cbn [arith_symbol divides andb] in E. rewrite Hz in E. cbn in E.
        exists (throw RuntimeError "Division by zero error" line).
        split; [reflexivity |]. split; [reflexivity | exact E].
      + pose proof (integer_branch l r OpMod line Hl Hr) as E.
        cbn [arith_symbol divides andb] in E. rewrite Hz in E. cbn in E.
        exists (throw RuntimeError "Modulo by zero error" line).
        split; [reflexivity |]. split; [reflexivity | exact E].
    - exists (throw RuntimeError "Division by zero error" line).
      split; [reflexivity |]. split; [reflexivity |].
      unfold performBinaryOperation.
      assert (is_double l || is_double r = true) as ->
        by (destruct Hd as [-> | ->]; auto using orb_true_r).
      unfold op_is. cbn [String.eqb Ascii.eqb Bool.eqb]. rewrite Hz. reflexivity. }
  destruct Hthrow as (e & Hc & Hl & He). exists e. repeat split; try assumption.
  unfold decodeAndExecute.
  cbn [i_type operands i_line set_stack set_state state stack]. rewrite He.
  reflexivity.
Qed.

(** A run of [division_by_zero_raises]: [LOAD 10], [LOAD 0], [/]. *)
Lemma division_by_zero_raises_witness :
  exists e,
    exn_class e = RuntimeError /\ exn_line e = 3 /\
    performBinaryOperation (VInt 10) (VInt 0) "/" 3 = Throw e /\
    decodeAndExecute (fun _ => None) (fun _ => EmptyString)
      (mkInstruction BINARY_OP 3 ["/"%string])
      (set_stack [VInt 0; VInt 10] VirtualMachine_new) =
    (set_stack [] VirtualMachine_new, Thrown e).
Proof.
  apply (division_by_zero_raises (fun _ => None) (fun _ => EmptyString)
           (VInt 10) (VInt 0) "/" 3 [] [] VirtualMachine_new).
  left. repeat split; try reflexivity. left; reflexivity.
Defined.

(** Dividing a double by negative zero throws as well. *)
Example double_division_by_negative_zero :
  performBinaryOperation (VDouble 1.5%float) (VDouble (-0)%float) "/" 7 =
    Throw (throw RuntimeError "Division by zero error" 7).
Proof. vm_compute. reflexivity. Qed.

(** C6 as stated fails: on two 32-bit operands the sum is computed in 64
    bits and the result is a 64-bit value, not the wrapped 32-bit one. *)
Lemma int_plus_int_is_long :
  performBinaryOperation (VInt 2147483647) (VInt 1) "+" 0 = Ok (VLong 2147483648) /\
  performBinaryOperation (VInt 2147483647) (VInt 1) "+" 0 <>
    Ok (VInt (Int.wrap32 (2147483647 + 1))).
Proof. split; [vm_compute; reflexivity | vm_compute; discriminate]. Qed.

Lemma overflows_spec a b : overflows a b = true <-> a = Int.INT64_MIN /\ b = -1.
Proof. unfold overflows. rewrite andb_true_iff, !Z.eqb_eq. reflexivity. Qed.

(** C6, amended.  On two integer operands, whatever their widths, every
    arithmetic operator computes on the operands widened to 64 bits and
    yields a 64-bit value: the mathematical result wrapped to 64 bits,
    hence that result itself when it fits.  For [/] and [%] this holds
    when the right operand is not zero and the operands are not [INT64_MIN]
    and [-1]; on that pair the source divides all the same, which C++
    leaves undefined, and the embedding gives no value. *)
Theorem integer_arithmetic_is_64_bit (l r : Value) (o : ArithOp) (line : Z) :
  is_integer l = true -> is_integer r = true ->
  ((divides o = true ->
    getInt64Value r <> 0 /\ ~ (getInt64Value l = Int.INT64_MIN /\ getInt64Value r = -1)) ->
   exists n,
     performBinaryOperation l r (arith_symbol o) line = Ok (VLong n) /\
     n = Int.wrap64 (arith_eval o (getInt64Value l) (getInt64Value r)) /\
     Int.in_int64 n /\
     (Int.in_int64 (arith_eval o (getInt64Value l) (getInt64Value r)) ->
      n = arith_eval o (getInt64Value l) (getInt64Value r))) /\
  (divides o = true -> getInt64Value l = Int.INT64_MIN -> getInt64Value r = -1 ->
   performBinaryOperation l r (arith_symbol o) line = Outside).
Proof.
  intros Hl Hr. rewrite (integer_branch l r o line Hl Hr). split.
  - intros Hz.
    assert (divides o && (getInt64Value r =? 0) = false) as ->.
    { destruct (divides o); [| reflexivity]. cbn. apply Z.eqb_neq. apply Hz. reflexivity. }
    assert (divides o && overflows (getInt64Value l) (getInt64Value r) = false) as ->.
    { destruct (divides o); [| reflexivity]. cbn.
      destruct (overflows (getInt64Value l) (getInt64Value r)) eqn:E; [| reflexivity].
      apply overflows_spec in E. destruct (Hz eq_refl) as [_ Hno]. contradiction. }
    eexists. split; [reflexivity |]. split; [reflexivity |].
    split; [apply wrap64_in_int64 | apply wrap64_id].
  - intros Hd Hmin Hneg. rewrite Hd, Hmin, Hneg. reflexivity.
Qed.

(** A run of [integer_arithmetic_is_64_bit] on two 32-bit operands. *)
Lemma integer_arithmetic_is_64_bit_witness :
  exists n,
    performBinaryOperation (VInt 7) (VInt (-2)) "/" 1 = Ok (VLong n) /\
    n = Int.wrap64 (Z.quot 7 (-2)) /\
    Int.in_int64 n /\
    (Int.in_int64 (Z.quot 7 (-2)) -> n = Z.quot 7 (-2)).
Proof.
  apply (proj1 (integer_arithmetic_is_64_bit (VInt 7) (VInt (-2)) OpDiv 1 eq_refl eq_refl)).
  intros _. cbn. split; [lia | intros [H _]; discriminate H].
Defined.

(** The quotient and the remainder the source leaves undefined. *)
Example int64_min_by_minus_one :
  performBinaryOperation (VLong Int.INT64_MIN) (VInt (-1)) "/" 1 = Outside /\
  performBinaryOperation (VLong Int.INT64_MIN) (VInt (-1)) "%" 1 = Outside.
Proof. split; vm_compute; reflexivity. Qed.

(** ** Variables: [DEFVAR] and [STORE] *)

(** C5 as stated fails: after [DEFVAR x] on a new machine the one scope
    frame is still empty, and [x] is in the global map; [STORE x] writes
    the global map although the top scope frame binds [x], and leaves that
    binding as it was. *)
Lemma defvar_store_bypass_scopes :
  let defvar := mkInstruction DEFVAR 1 ["x"%string] in
  let store := mkInstruction STORE 2 ["x"%string] in
  let vm1 := (decodeAndExecute (fun _ => None) (fun _ => EmptyString) defvar VirtualMachine_new).1 in
  let scoped := set_scopes [{[ "x"%string := VInt 1 ]}] (set_stack [VInt 5] VirtualMachine_new) in
  let vm2 := (decodeAndExecute (fun _ => None) (fun _ => EmptyString) store scoped).1 in
  (scopes (state vm1) = [∅] /\ variables (state vm1) !! "x"%string = Some (VInt 0)) /\
  (scopes (state vm2) = [{[ "x"%string := VInt 1 ]}] /\
   variables (state vm2) !! "x"%string = Some (VInt 5)).
Proof. cbv zeta. repeat split; vm_compute; reflexivity. Qed.

(** C5, amended.  [DEFVAR name] sets the entry of [name] (cut at its first
    colon) in the global variable map to the integer 0, and [STORE name]
    pops the top of the stack into the entry of [name] in the global
    variable map; neither reads or changes the scope stack. *)
Theorem defvar_store_write_globals (stod : string -> option float)
    (show_double : float -> string) (vm : VirtualMachine) (name : string)
    (ops : list string) (line : Z) (val : Value) (rest : list Value) :
  (let r := decodeAndExecute stod show_double (mkInstruction DEFVAR line (name :: ops)) vm in
   r.2 = Returned true /\
   variables (state r.1) = <[ defined_name name := VInt 0 ]> (variables (state vm)) /\
   scopes (state r.1) = scopes (state vm) /\
   stack (state r.1) = stack (state vm)) /\
  (let r := decodeAndExecute stod show_double (mkInstruction STORE line (name :: ops))
              (set_stack (val :: rest) vm) in
   r.2 = Returned true /\
   variables (state r.1) = <[ name := val ]> (variables (state vm)) /\
   scopes (state r.1) = scopes (state vm) /\
   stack (state r.1) = rest).
Proof.
  split; cbv zeta; unfold decodeAndExecute;
    cbn [i_type operands set_stack set_state state stack];
    repeat split.
Qed.

(** ** [PTR_NEW] *)

(** The two constructors [PointerValue(nullptr, "object", false)] can
    select build the same pointer. *)
Lemma null_pointer_constructors_agree t weak ref :
  PointerValue_of_obj 0 0 t weak ref = PointerValue_of_raw 0 t weak ref.
Proof. reflexivity. Qed.

(** C7 as stated fails: on a new machine, whose stack holds no size hint,
    [PTR_NEW] pushes a pointer whose [isNull] flag is set; with the size
    hint 8 on the stack it does the same, and registers no object. *)
Lemma ptr_new_pushes_null :
  (let r := decodeAndExecute (fun _ => None) (fun _ => EmptyString)
              (mkInstruction PTR_NEW 1 []) VirtualMachine_new in
   exists p, stack (state r.1) = [VPointer p] /\ isNull p = true) /\
  (let r := decodeAndExecute (fun _ => None) (fun _ => EmptyString)
              (mkInstruction PTR_NEW 1 []) (set_stack [VInt 8] VirtualMachine_new) in
   exists p, stack (state r.1) = [VPointer p] /\ isNull p = true /\ pv_obj p = 0 /\
             managedObjects r.1 = ∅).
Proof. split; cbv zeta; eexists; repeat split. Qed.

(** The placeholder of the branch with a size hint: the hint is popped and
    dropped, and the pointer pushed is the null pointer of the other
    branch. *)
Lemma ptr_new_with_hint (stod : string -> option float) (show_double : float -> string)
    (vm : VirtualMachine) (line : Z) (ops : list string) (sizeVal : Value)
    (rest : list Value) :
  decodeAndExecute stod show_double (mkInstruction PTR_NEW line ops)
    (set_stack (sizeVal :: rest) vm) =
  (set_stack (VPointer (mkPointerValue 0 0 "object" true false false) :: rest) vm,
   Returned true).
Proof. reflexivity. Qed.

(** C7, amended.  [PTR_NEW] pops a size hint when the stack holds one and
    pushes one pointer with type tag [object]; when the stack holds no
    size hint the pointer is the null pointer, and nothing is allocated:
    the table of managed objects and the collectors stay as they were. *)
Theorem ptr_new_effect (stod : string -> option float) (show_double : float -> string)
    (vm : VirtualMachine) (line : Z) (ops : list string) :
  let r := decodeAndExecute stod show_double (mkInstruction PTR_NEW line ops) vm in
  r.2 = Returned true /\
  (exists p, stack (state r.1) = VPointer p :: tail (stack (state vm)) /\
             pv_type p = "object"%string) /\
  (stack (state vm) = [] ->
   stack (state r.1) = [VPointer (mkPointerValue 0 0 "object" true false false)] /\
   managedObjects r.1 = managedObjects vm /\ nextObjectId r.1 = nextObjectId vm /\
   gc r.1 = gc vm /\ steve_gc r.1 = steve_gc vm).
Proof.
  cbv zeta. unfold decodeAndExecute. cbn [i_type].
  destruct (stack (state vm)) as [| sizeVal rest] eqn:E.
  - split; [reflexivity |]. split.
    + eexists. cbn [fst push set_stack set_state state stack]. rewrite E.
      split; reflexivity.
    + intros _. cbn [fst push set_stack set_state state stack]. rewrite E.
      repeat split.
  - split; [reflexivity |]. split; [| discriminate].
    eexists. cbn [fst push set_stack set_state state stack tail]. split; reflexivity.
Qed.

(** ** [GC_RUN] *)

(** C10.  [GC_RUN] runs the two collectors and pushes the 32-bit integer 0,
    one value, whatever the collectors released; on a machine whose
    collector holds two unreachable objects the collection releases both
    and the value pushed is still 0. *)
Theorem gc_run_pushes_zero (stod : string -> option float) (show_double : float -> string)
    (vm : VirtualMachine) (line : Z) (ops : list string) :
  (let r := decodeAndExecute stod show_double (mkInstruction GC_RUN line ops) vm in
   r.2 = Returned true /\
   stack (state r.1) = VInt 0 :: stack (state vm) /\
   length (stack (state r.1)) = S (length (stack (state vm))) /\
   gc r.1 = (VMGarbageCollector.collect (gc vm)).2 /\
   steve_gc r.1 = (GarbageCollector.collect (steve_gc vm)).2) /\
  (let r := decodeAndExecute stod show_double (mkInstruction GC_RUN line ops)
              (set_gc two_unrooted vm) in
   (VMGarbageCollector.collect two_unrooted).1 = 2%nat /\
   VMGarbageCollector.heap (gc r.1) = ∅ /\
   stack (state r.1) = VInt 0 :: stack (state vm)).
Proof.
  cbv zeta. split.
  - repeat split.
  - split; [vm_compute; reflexivity |]. split; [| reflexivity].
    unfold decodeAndExecute. cbn [i_type]. unfold push, runGarbageCollection, set_gc, set_stack, set_state.
    cbn [gc]. vm_compute. reflexivity.
Qed.

(** ** Truthiness: [bool(x)] against [getBoolValue] *)

(** C8 as stated fails: [bool] reads the string [false] as false, a branch
    takes it as true. *)
Lemma bool_builtin_differs_on_false_string :
  builtin_bool [VString "false"] = VBool false /\ getBoolValue (VString "false") = true.
Proof. split; reflexivity. Qed.

Lemma tolower_nonempty s : Str.tolower s = EmptyString -> s = EmptyString.
Proof. destruct s; [reflexivity | discriminate]. Qed.

Lemma reads_false_nonempty s : reads_false s = true -> String.eqb s EmptyString = false.
Proof.
  unfold reads_false. destruct s as [| c s]; [discriminate | reflexivity].
Qed.

(** C8, amended.  On every value that is not a list or a dictionary,
    [bool(x)] is the truthiness of branch decisions, except on the strings
    whose lower-case form is [false] or [0]: there [bool(x)] is false and
    the branch decision is true. *)
Theorem bool_builtin_vs_branch (x : Value) :
  is_list x = false -> is_dict x = false ->
  builtin_bool [x] =
    VBool (getBoolValue x && negb (match x with VString s => reads_false s | _ => false end)) /\
  (forall s, x = VString s -> reads_false s = true ->
     builtin_bool [x] = VBool false /\ getBoolValue x = true).
Proof.
  intros Hl Hd. split.
  - destruct x as [n | d | b | s | | n | p | items | items]; try discriminate; cbn;
      rewrite ?andb_true_r; try reflexivity.
    unfold reads_false.
    destruct (String.eqb (Str.tolower s) "false") eqn:E1; cbn.
    { destruct s; [discriminate | reflexivity]. }
    destruct (String.eqb (Str.tolower s) "0") eqn:E2; cbn.
    { destruct s; [discriminate | reflexivity]. }
    rewrite andb_true_r. destruct s; reflexivity.
  - intros s -> Hs. cbn. unfold reads_false in Hs.
    split; [| destruct s; [discriminate | reflexivity]].
    destruct (String.eqb (Str.tolower s) "false"); [reflexivity |].
    destruct (String.eqb (Str.tolower s) "0"); [reflexivity | discriminate].
Qed.

(** A run of [bool_builtin_vs_branch] on the string [FALSE]. *)
Lemma bool_builtin_vs_branch_witness :
  builtin_bool [VString "FALSE"] =
    VBool (getBoolValue (VString "FALSE") && negb (reads_false "FALSE")) /\
  (forall s, VString "FALSE" = VString s -> reads_false s = true ->
     builtin_bool [VString "FALSE"] = VBool false /\ getBoolValue (VString "FALSE") = true).
Proof. apply (bool_builtin_vs_branch (VString "FALSE")); reflexivity. Defined.

(** ** The file-handle table: [open] and [close] *)

(** The table of a new machine is empty, hence well formed. *)
Lemma files_wf_new : files_wf VirtualMachine_new.
Proof. intros k [x Hx]. cbn in Hx. rewrite lookup_empty in Hx. discriminate. Qed.

(** [open] keeps the table well formed, short of the last handle id. *)
Lemma files_wf_open opened obj args vm :
  nextFileHandleId vm + 1 < 2 ^ 63 -> - 2 ^ 63 <= nextFileHandleId vm ->
  files_wf vm -> files_wf (builtin_open opened obj args vm).1.
Proof.
  intros Hmax Hmin Hwf.
  assert (Hopen : forall filename mode, files_wf (open_file opened obj filename mode vm).1).
  { intros filename mode. unfold open_file. destruct opened; [| exact Hwf].
    intros k [x Hx]. cbn in Hx |- *.
    rewrite wrap64_id by (unfold Int.in_int64; lia).
    destruct (decide (k = nextFileHandleId vm)) as [-> | Hne]; [lia |].
    rewrite lookup_insert_ne in Hx by congruence.
    specialize (Hwf k (ex_intro _ x Hx)). lia. }
  unfold builtin_open.
  destruct args as [| arg0 [| arg1 args]]; [exact Hwf | |].
  - destruct arg0; try exact Hwf. apply Hopen.
  - destruct arg0; try exact Hwf. destruct arg1; try exact Hwf. apply Hopen.
Qed.

(** [close] keeps the table well formed. *)
Lemma files_wf_close args vm : files_wf vm -> files_wf (builtin_close args vm).1.
Proof.
  intros Hwf. unfold builtin_close.
  destruct args as [| arg args]; [exact Hwf |].
  destruct arg; try exact Hwf.
  destruct (isNull p); [exact Hwf |]. cbn [negb].
  destruct (fileHandles vm !! pv_ptr p) eqn:E; [| exact Hwf].
  assert (Herased : forall objects,
            files_wf (set_files (delete (pv_ptr p) (fileHandles vm))
                        (nextFileHandleId vm) objects vm)).
  { intros objects k [x Hx]. cbn in Hx |- *.
    apply lookup_delete_Some in Hx as [_ Hx]. apply Hwf. eauto. }
  destruct (List.find _ _) as [entry |]; [| apply Herased].
  destruct (ManagedObject_delete entry.2.2); apply Herased.
Qed.

(** [close] on anything but a pointer to a handle of the table: the error
    code, and the machine's tables as they were. *)
Lemma close_unknown args vm :
  match args with
  | VPointer p :: _ => isNull p = true \/ fileHandles vm !! pv_ptr p = None
  | _ => True
  end ->
  (builtin_close args vm).2 = Ok (VInt (-1)) /\
  fileHandles (builtin_close args vm).1 = fileHandles vm /\
  managedObjects (builtin_close args vm).1 = managedObjects vm /\
  nextFileHandleId (builtin_close args vm).1 = nextFileHandleId vm.
Proof.
  intros H. unfold builtin_close.
  destruct args as [| arg args]; [repeat split |].
  destruct arg; try (repeat split; fail).
  destruct H as [-> | ->]; [repeat split |].
  destruct (isNull p); repeat split.
Qed.

(** [close] on a handle of the table whose number is the [data] of a
    registered object: the loop finds an object with that [data], and its
    destructor frees the handle number. *)
Lemma close_frees_handle_number (p : PointerValue) (rest : list Value) (vm : VirtualMachine)
    (k obj : Z) (managed : ManagedObject) :
  isNull p = false -> is_Some (fileHandles vm !! pv_ptr p) ->
  managedObjects vm !! k = Some (obj, managed) -> mo_data managed = pv_ptr p ->
  pv_ptr p <> 0 ->
  (exists entry,
     List.find (fun entry : Z * (Z * ManagedObject) => mo_data entry.2.2 =? pv_ptr p)
       (map_to_list (managedObjects vm)) = Some entry /\
     ManagedObject_delete entry.2.2 = Some (pv_ptr p)) /\
  (builtin_close (VPointer p :: rest) vm).2 = Outside.
Proof.
  intros Hnull [fh Hfh] Hobj Hdata Hnz.
  assert (Hfound : exists entry,
            List.find (fun entry : Z * (Z * ManagedObject) => mo_data entry.2.2 =? pv_ptr p)
              (map_to_list (managedObjects vm)) = Some entry /\
            ManagedObject_delete entry.2.2 = Some (pv_ptr p)).
  { destruct (List.find (fun entry : Z * (Z * ManagedObject) => mo_data entry.2.2 =? pv_ptr p)
                (map_to_list (managedObjects vm))) as [entry |] eqn:E.
    - exists entry. split; [reflexivity |].
      apply List.find_some in E as [_ E]. apply Z.eqb_eq in E.
      unfold ManagedObject_delete. rewrite E.
      destruct (pv_ptr p =? 0) eqn:Ez; [apply Z.eqb_eq in Ez; contradiction | reflexivity].
    - exfalso.
      pose proof (List.find_none _ _ E (k, (obj, managed))) as Hnone.
      cbn [fst snd] in Hnone. rewrite Hdata, Z.eqb_refl in Hnone.
      assert (Hin : In (k, (obj, managed)) (map_to_list (managedObjects vm))).
      { apply list_elem_of_In. apply elem_of_map_to_list. exact Hobj. }
      specialize (Hnone Hin). discriminate Hnone. }
  split; [exact Hfound |].
  destruct Hfound as (entry & Hfind & Hfree).
  unfold builtin_close. rewrite Hnull. cbn [negb]. rewrite Hfh, Hfind, Hfree. reflexivity.
Qed.

(** C9 fails in the code.  When [open] succeeds it registers a managed
    object whose [data] is the handle number.  [close] on the handle it
    returned erases the handle from the table and deletes that object, and
    the destructor passes the handle number, which no allocation returned,
    to [std::free]: the call is undefined, it yields neither 0 nor a table
    of the former size.  The other half of the claim holds: [close] on a
    handle that is not in the table, on a null pointer or on no pointer at
    all answers [-1] and leaves the table as it is. *)
Theorem close_after_open_frees_handle (vm : VirtualMachine) (obj : Z) (path : string)
    (mode : option string) :
  files_wf vm -> obj <> 0 -> nextFileHandleId vm <> 0 ->
  let args := VString path :: match mode with Some m => [VString m] | None => [] end in
  let opened := builtin_open true obj args vm in
  let closed := builtin_close [opened.2] opened.1 in
  (exists p, opened.2 = VPointer p /\ isNull p = false /\ pv_ptr p = nextFileHandleId vm) /\
  size (fileHandles opened.1) = S (size (fileHandles vm)) /\
  (exists entry,
     List.find (fun entry : Z * (Z * ManagedObject) =>
                  mo_data entry.2.2 =? nextFileHandleId vm)
       (map_to_list (managedObjects opened.1)) = Some entry /\
     ManagedObject_delete entry.2.2 = Some (nextFileHandleId vm)) /\
  closed.2 = Outside /\
  (forall other vm',
     match other with
     | VPointer p :: _ => isNull p = true \/ fileHandles vm' !! pv_ptr p = None
     | _ => True
     end ->
     (builtin_close other vm').2 = Ok (VInt (-1)) /\
     fileHandles (builtin_close other vm').1 = fileHandles vm').
Proof.
  intros Hwf Hobj Hnext. cbv zeta.
  assert (Hfresh : fileHandles vm !! nextFileHandleId vm = None).
  { destruct (fileHandles vm !! nextFileHandleId vm) eqn:E; [| reflexivity].
    specialize (Hwf _ (ex_intro _ _ E)). lia. }
  assert (Hnz : (obj =? 0) = false) by (apply Z.eqb_neq; exact Hobj).
  set (args := VString path :: match mode with Some m => [VString m] | None => [] end).
  assert (Hopen : builtin_open true obj args vm =
                  open_file true obj path (default "r"%string mode) vm).
  { subst args. destruct mode; reflexivity. }
  rewrite Hopen. unfold open_file.
  cbn [fst snd].
  split.
  { eexists. split; [reflexivity |]. cbn [PointerValue_of_obj isNull pv_ptr].
    rewrite Hnz. split; reflexivity. }
  split.
  { cbn [set_files fileHandles]. rewrite map_size_insert_None by exact Hfresh. reflexivity. }
  match goal with |- context [builtin_close [VPointer ?q] ?m] =>
    pose proof (close_frees_handle_number q [] m (nextFileHandleId vm) obj
                  (ManagedObject_new (nextFileHandleId vm) "file" 8)) as Hclose
  end.
  cbn [PointerValue_of_obj isNull pv_ptr mo_data ManagedObject_new
       set_files fileHandles managedObjects] in Hclose.
  rewrite Hnz in Hclose. rewrite !lookup_insert_eq in Hclose.
  destruct (Hclose eq_refl ltac:(eauto) eq_refl eq_refl Hnext) as [Hfound Hout].
  split; [exact Hfound |]. split; [exact Hout |].
  intros other vm' H. pose proof (close_unknown other vm' H) as (? & ? & _). auto.
Qed.

(** A run of [close_after_open_frees_handle] on a new machine. *)
Lemma close_after_open_frees_handle_witness :
  let opened := builtin_open true 4096 [VString "log.txt"; VString "w"] VirtualMachine_new in
  let closed := builtin_close [opened.2] opened.1 in
  size (fileHandles opened.1) = 1%nat /\ closed.2 = Outside.
Proof.
  pose proof (close_after_open_frees_handle VirtualMachine_new 4096 "log.txt"
                (Some "w"%string) files_wf_new ltac:(lia) ltac:(cbn; lia)) as H.
  cbv zeta in H. destruct H as (_ & H1 & _ & H2 & _).
  cbv zeta. split; [exact H1 | exact H2].
Defined.

(** ** The worklist traversal *)

Section WorklistFacts.

Variable ok : Z -> bool.
Variable references : gmap Z (list Z).

(** One pass over an edge list: what it adds to the visited set and to
    the worklist, and that it pushes once per address added. *)
Lemma foldl_visit_spec (l : list Z) : forall (v : gset Z) (w : list Z),
  (forall x, x ∈ (foldl (Worklist.visit ok) (v, w) l).1 <-> x ∈ v \/ (x ∈ l /\ ok x = true)) /\
  (forall x, x ∈ (foldl (Worklist.visit ok) (v, w) l).2 <->
             x ∈ w \/ (x ∈ l /\ ok x = true /\ x ∉ v)) /\
  (length (foldl (Worklist.visit ok) (v, w) l).2 + size v =
   length w + size (foldl (Worklist.visit ok) (v, w) l).1)%nat.
Proof.
  induction l as [| a l IH]; intros v w; cbn [foldl].
  - cbn [fst snd]. split; [| split]; [| | lia]; intros x; set_solver.
  - assert (Hvisit : Worklist.visit ok (v, w) a =
                     if ok a && bool_decide (a ∉ v) then ({[ a ]} ∪ v, a :: w) else (v, w))
      by reflexivity.
    rewrite Hvisit. clear Hvisit.
    destruct (ok a) eqn:Hok; cbn [andb].
    + destruct (bool_decide (a ∉ v)) eqn:Hnew.
      * apply bool_decide_eq_true in Hnew.
        destruct (IH ({[ a ]} ∪ v) (a :: w)) as (H1 & H2 & H3).
        split; [| split].
        -- intros x. rewrite H1. set_solver.
        -- intros x. rewrite H2. rewrite !elem_of_cons.
           destruct (decide (x = a)) as [-> | Hne]; [tauto |]. set_solver.
        -- rewrite size_union in H3 by set_solver.
           rewrite size_singleton in H3. cbn [length] in H3. lia.
      * apply bool_decide_eq_false in Hnew. apply dec_stable in Hnew.
        destruct (IH v w) as (H1 & H2 & H3).
        split; [| split]; [| | exact H3].
        -- intros x. rewrite H1. set_solver.
        -- intros x. rewrite H2. set_solver.
    + destruct (IH v w) as (H1 & H2 & H3).
      split; [| split]; [| | exact H3].
      * intros x. rewrite H1. rewrite elem_of_cons.
        split; [tauto |]. intros [? | [[-> | ?] ?]]; [tauto | congruence | tauto].
      * intros x. rewrite H2. rewrite elem_of_cons.
        split; [tauto |]. intros [? | [[-> | ?] ?]]; [tauto | | tauto].
        destruct H; congruence.
Qed.

Lemma Closure_mono (s1 s2 : gset Z) x :
  (forall y, y ∈ s1 -> Worklist.Closure ok references s2 y) ->
  Worklist.Closure ok references s1 x -> Worklist.Closure ok references s2 x.
Proof.
  intros Hs H. induction H as [x Hx | x l y _ IH Hl Hy Hok].
  - auto.
  - eapply Worklist.Closure_edge; eauto.
Qed.

(** With an empty worklist the invariant says the visited set is closed. *)
Lemma Inv_closed (v : gset Z) x :
  Worklist.Inv ok references v [] -> Worklist.Closure ok references v x -> x ∈ v.
Proof.
  intros [_ Hclosed] H. induction H as [x Hx | x l y _ IH Hl Hy Hok]; [exact Hx |].
  eapply (Hclosed x l y); eauto. apply not_elem_of_nil.
Qed.

(** The traversal, given fuel for one round per address it can still
    visit and per worklist entry, empties its worklist and ends with the
    closure of the visited set it started from. *)
Lemma loop_spec (U : gset Z) (fuel : nat) : forall (v : gset Z) (w : list Z),
  (forall k l y, references !! k = Some l -> y ∈ l -> ok y = true -> y ∈ U) ->
  v ⊆ U -> Worklist.Inv ok references v w ->
  (length w + (size U - size v) <= fuel)%nat ->
  (Worklist.loop fuel ok references v w).2 = [] /\
  forall x, x ∈ (Worklist.loop fuel ok references v w).1 <-> Worklist.Closure ok references v x.
Proof.
  induction fuel as [| fuel IH]; intros v w HU Hv Hinv Hfuel.
  - destruct w as [| c w]; [| cbn [length] in Hfuel; lia].
    cbn [Worklist.loop fst snd]. split; [reflexivity |].
    intros x. split; [apply Worklist.Closure_seed | apply Inv_closed; exact Hinv].
  - destruct w as [| current rest].
    { cbn [Worklist.loop fst snd]. split; [reflexivity |].
      intros x. split; [apply Worklist.Closure_seed | apply Inv_closed; exact Hinv]. }
    cbn [Worklist.loop].
    set (edges := default [] (references !! current)).
    destruct (foldl_visit_spec edges v rest) as (H1 & H2 & H3).
    set (st := foldl (Worklist.visit ok) (v, rest) edges) in *.
    destruct Hinv as [Hw Hclosed].
    assert (Hcur : current ∈ v) by (apply Hw; left).
    assert (Hedges : forall y, y ∈ edges -> exists l, references !! current = Some l /\ y ∈ l).
    { intros y Hy. subst edges. destruct (references !! current) as [l |]; [eauto |].
      cbn in Hy. apply elem_of_nil in Hy. destruct Hy. }
    assert (Hst : st.1 ⊆ U).
    { intros x Hx. apply H1 in Hx as [Hx | [Hx Hokx]]; [auto |].
      destruct (Hedges x Hx) as (l & Hl & Hxl). eauto. }
    assert (Hvst : v ⊆ st.1) by (intros x Hx; apply H1; auto).
    destruct (IH st.1 st.2 HU Hst) as [Hnil Hres].
    + split.
      * intros x Hx. apply H2 in Hx as [Hx | (Hx & Hokx & _)]; apply H1; [| auto].
        left. apply Hw. right. exact Hx.
      * intros x l y Hx Hnot Hl Hy Hoky.
        destruct (decide (x = current)) as [-> | Hne].
        -- apply H1. right. split; [| exact Hoky]. subst edges. rewrite Hl. exact Hy.
        -- apply H1 in Hx as [Hx | [Hx Hokx]].
           ++ apply H1. left. apply (Hclosed x l y); auto.
              intros Hin. apply elem_of_cons in Hin as [? | Hin]; [congruence |].
              apply Hnot. apply H2. auto.
           ++ destruct (decide (x ∈ v)) as [Hxv | Hxv].
              ** apply H1. left. apply (Hclosed x l y); auto.
                 intros Hin. apply elem_of_cons in Hin as [? | Hin]; [congruence |].
                 apply Hnot. apply H2. auto.
              ** exfalso. apply Hnot. apply H2. right. auto.
    + pose proof (subseteq_size _ _ Hst). pose proof (subseteq_size _ _ Hvst).
      pose proof (subseteq_size _ _ Hv). cbn [length] in Hfuel. lia.
    + split; [exact Hnil |]. intros x. rewrite Hres. split.
      * apply Closure_mono. intros y Hy. apply H1 in Hy as [Hy | [Hy Hoky]].
        -- apply Worklist.Closure_seed. exact Hy.
        -- destruct (Hedges y Hy) as (l & Hl & Hyl).
           eapply Worklist.Closure_edge; eauto. apply Worklist.Closure_seed. exact Hcur.
      * apply Closure_mono. intros y Hy. apply Worklist.Closure_seed. auto.
Qed.

End WorklistFacts.

(** ** [VMGarbageCollector::collect] *)

Section VMCollectorFacts.

Import VMGarbageCollector.

Variable gc : VMGarbageCollector.t.

(** The collector's test on a target: [heap.count(ref)]. *)
Let in_heap : Z -> bool := fun ref => bool_decide (ref ∈ heap gc).

Lemma seed_spec :
  (forall x, x ∈ (seed gc).1 <-> x ∈ roots gc /\ x ∈ heap gc) /\
  (forall x, x ∈ (seed gc).2 <-> x ∈ (seed gc).1) /\
  length (seed gc).2 = size (seed gc).1.
Proof.
  unfold seed.
  destruct (foldl_visit_spec in_heap (elements (roots gc)) ∅ []) as (H1 & H2 & H3).
  fold in_heap. split; [| split].
  - intros x. rewrite H1, elem_of_elements. unfold in_heap.
    rewrite bool_decide_eq_true. set_solver.
  - intros x. rewrite H2, H1. split.
    + intros [Hx | (Hx & Hok & _)]; [apply elem_of_nil in Hx; destruct Hx | auto].
    + intros [Hx | Hx]; [set_solver |]. right. split; [tauto |]. split; [tauto | set_solver].
  - rewrite size_empty in H3. cbn [length] in H3. lia.
Qed.

(** The closure the traversal computes from the seed is [Reach]. *)
Lemma Closure_Reach x :
  Worklist.Closure in_heap (references gc) (seed gc).1 x <-> Reach gc x.
Proof.
  destruct seed_spec as (Hseed & _ & _). split.
  - intros H. induction H as [x Hx | x l y _ IH Hl Hy Hok].
    + apply Hseed in Hx as [? ?]. apply Reach_root; assumption.
    + eapply Reach_edge; eauto. unfold in_heap in Hok.
      apply bool_decide_eq_true in Hok. exact Hok.
  - intros H. induction H as [r Hr Hh | x l y _ IH Hl Hy Hh].
    + apply Worklist.Closure_seed. apply Hseed. auto.
    + eapply Worklist.Closure_edge; eauto. unfold in_heap.
      apply bool_decide_eq_true. exact Hh.
Qed.

Lemma Reach_in_heap x : Reach gc x -> x ∈ heap gc.
Proof. intros H. destruct H; assumption. Qed.

(** The mark phase ends with an empty worklist, within the fuel
    [collect] gives it, and its set [reachable] is [Reach]. *)
Lemma mark_phase_spec :
  (Worklist.loop (size (heap gc)) in_heap (references gc) (seed gc).1 (seed gc).2).2 = [] /\
  forall x, x ∈ reachable gc <-> Reach gc x.
Proof.
  destruct seed_spec as (Hseed & Hwl & Hlen).
  assert (Hsub : (seed gc).1 ⊆ heap gc) by (intros x Hx; apply Hseed in Hx; tauto).
  destruct (loop_spec in_heap (references gc) (heap gc) (size (heap gc))
              (seed gc).1 (seed gc).2) as [Hnil Hres].
  - intros k l y _ _ Hok. unfold in_heap in Hok. apply bool_decide_eq_true in Hok. exact Hok.
  - exact Hsub.
  - split.
    + intros x Hx. apply Hwl. exact Hx.
    + intros x l y Hx Hnot. exfalso. apply Hnot. apply Hwl. exact Hx.
  - pose proof (subseteq_size _ _ Hsub). lia.
  - split; [exact Hnil |]. intros x. unfold reachable. fold in_heap.
    rewrite Hres. apply Closure_Reach.
Qed.

Lemma purge_lookup obj (refs : gmap Z (list Z)) k :
  purge obj (delete obj refs) !! k =
    if decide (k = obj) then None else filter (fun x => x ≠ obj) <$> refs !! k.
Proof.
  unfold purge. rewrite lookup_fmap. destruct (decide (k = obj)) as [-> | Hne].
  - rewrite lookup_delete_eq. reflexivity.
  - rewrite lookup_delete_ne by congruence. reflexivity.
Qed.

Lemma filter_all (P : Z -> Prop) `{!forall x, Decision (P x)} (l : list Z) :
  (forall x, x ∈ l -> P x) -> filter P l = l.
Proof.
  induction l as [| a l IH]; intros Hall; [reflexivity |].
  rewrite filter_cons_True by (apply Hall; left).
  f_equal. apply IH. intros x Hx. apply Hall. right. exact Hx.
Qed.

Lemma filter_agree (P Q : Z -> Prop) `{!forall x, Decision (P x), !forall x, Decision (Q x)}
    (l : list Z) :
  (forall x, x ∈ l -> (P x <-> Q x)) -> filter P l = filter Q l.
Proof.
  induction l as [| a l IH]; intros Hall; [reflexivity |].
  assert (Hl : filter P l = filter Q l)
    by (apply IH; intros x Hx; apply Hall; right; exact Hx).
  assert (Ha : P a <-> Q a) by (apply Hall; left).
  destruct (decide (P a)) as [Hp | Hp].
  - rewrite (filter_cons_True P) by exact Hp.
    rewrite (filter_cons_True Q) by (apply Ha; exact Hp). f_equal. exact Hl.
  - rewrite (filter_cons_False P) by exact Hp.
    rewrite (filter_cons_False Q) by (intros Hq; apply Hp, Ha; exact Hq). exact Hl.
Qed.

(** The sweep loop over a part [l] of the heap: the cells of [l] outside
    [reach] leave the heap, lose their entry and are erased from the other
    edge lists; the count grows by their number. *)
Lemma sweep_fold (reach : gset Z) (l : list Z) : forall (g : VMGarbageCollector.t) (n : nat),
  heap (foldl (sweep_step reach) (g, n) l).1 = heap g ∖ (list_to_set l ∖ reach) /\
  roots (foldl (sweep_step reach) (g, n) l).1 = roots g /\
  (foldl (sweep_step reach) (g, n) l).2 = (n + length (filter (fun x => x ∉ reach) l))%nat /\
  forall k, references (foldl (sweep_step reach) (g, n) l).1 !! k =
            if decide (k ∈ (list_to_set l ∖ reach : gset Z)) then None
            else filter (fun y => y ∉ (list_to_set l ∖ reach : gset Z)) <$> references g !! k.
Proof.
  induction l as [| a l IH]; intros g n; cbn [foldl].
  - cbn [fst snd]. split; [set_solver |]. split; [reflexivity |]. split; [cbn; lia |].
    intros k. rewrite decide_False by set_solver.
    destruct (references g !! k) as [edges |]; [| reflexivity]. cbn. f_equal.
    symmetry. apply filter_all. intros x _. set_solver.
  - assert (Hstep : sweep_step reach (g, n) a =
                    if bool_decide (a ∈ reach) then (g, n)
                    else (mk (heap g ∖ {[ a ]}) (roots g)
                            (purge a (delete a (references g))), S n)) by reflexivity.
    rewrite Hstep. clear Hstep.
    destruct (bool_decide (a ∈ reach)) eqn:Ha.
    + apply bool_decide_eq_true in Ha.
      destruct (IH g n) as (H1 & H2 & H3 & H4).
      assert (Hdead : (list_to_set (a :: l) ∖ reach : gset Z) = list_to_set l ∖ reach)
        by set_solver.
      rewrite Hdead. split; [exact H1 |]. split; [exact H2 |]. split; [| exact H4].
      rewrite H3. rewrite filter_cons_False by tauto. reflexivity.
    + apply bool_decide_eq_false in Ha.
      destruct (IH (mk (heap g ∖ {[ a ]}) (roots g) (purge a (delete a (references g)))) (S n))
        as (H1 & H2 & H3 & H4).
      cbn [heap roots references] in H1, H2, H4.
      assert (Hdead : (list_to_set (a :: l) ∖ reach : gset Z) = {[ a ]} ∪ (list_to_set l ∖ reach))
        by set_solver.
      rewrite Hdead. split; [rewrite H1; set_solver |]. split; [exact H2 |].
      split; [rewrite H3; rewrite filter_cons_True by exact Ha; cbn [length]; lia |].
      intros k. rewrite H4, purge_lookup.
      destruct (decide (k = a)) as [-> | Hne].
      * rewrite (decide_True (P := a ∈ {[ a ]} ∪ _)) by set_solver.
        destruct (decide (a ∈ list_to_set l ∖ reach)); reflexivity.
      * destruct (decide (k ∈ list_to_set l ∖ reach)) as [Hk | Hk].
        -- rewrite decide_True by set_solver. reflexivity.
        -- rewrite decide_False by set_solver.
           destruct (references g !! k) as [edges |]; [| reflexivity]. cbn. f_equal.
           rewrite list_filter_filter. apply list_filter_iff. intros x. set_solver.
Qed.

(** [prune] keeps the entries of heap cells, and in them the heap cells. *)
Lemma prune_lookup (g : VMGarbageCollector.t) k :
  references (prune g) !! k =
    if decide (k ∈ heap g) then filter (fun x => x ∈ heap g) <$> references g !! k else None.
Proof.
  unfold prune. cbn [references]. rewrite lookup_fmap, map_lookup_filter.
  destruct (references g !! k) as [edges |]; cbn; [| destruct (decide (k ∈ heap g)); reflexivity].
  destruct (decide (k ∈ heap g)) as [Hk | Hk].
  - rewrite option_guard_True by exact Hk. reflexivity.
  - rewrite option_guard_False by exact Hk. reflexivity.
Qed.

(** [collect] on a heap that is not empty: the sweep leaves the cells of
    [reachable], counts the others, and [prune] restricts the edges. *)
Lemma collect_nonempty :
  heap gc ≠ ∅ ->
  heap (collect gc).2 = reachable gc /\
  roots (collect gc).2 = roots gc /\
  ((collect gc).1 + size (reachable gc) = size (heap gc))%nat /\
  forall k, references (collect gc).2 !! k =
            if decide (k ∈ reachable gc)
            then filter (fun x => x ∈ reachable gc) <$> references gc !! k
            else None.
Proof.
  intros Hne. unfold collect. rewrite bool_decide_eq_false_2 by exact Hne.
  destruct (sweep_fold (reachable gc) (elements (heap gc)) gc O) as (H1 & H2 & H3 & H4).
  cbn [fst snd].
  assert (Hsub : reachable gc ⊆ heap gc).
  { intros x Hx. apply mark_phase_spec in Hx. apply Reach_in_heap. exact Hx. }
  assert (Hheap : heap (foldl (sweep_step (reachable gc)) (gc, O) (elements (heap gc))).1
                  = reachable gc).
  { rewrite H1. apply set_eq. intros x. rewrite elem_of_difference, elem_of_difference.
    rewrite elem_of_list_to_set, elem_of_elements.
    split; [intros [Hx Hn] | intros Hx].
    - destruct (decide (x ∈ reachable gc)); [assumption | exfalso; apply Hn; auto].
    - split; [auto | tauto]. }
  split; [exact Hheap |]. split; [exact H2 |]. split.
  - rewrite H3. cbn [Nat.add].
    assert (Hlen : length (filter (fun x => x ∉ reachable gc) (elements (heap gc))) =
                   size (heap gc ∖ reachable gc)).
    { rewrite <- (size_list_to_set (C := gset Z)).
      - f_equal. apply set_eq. intros x.
        rewrite elem_of_list_to_set, list_elem_of_filter, elem_of_elements. set_solver.
      - apply NoDup_filter, NoDup_elements. }
    rewrite Hlen. rewrite size_difference by exact Hsub.
    pose proof (subseteq_size _ _ Hsub). lia.
  - intros k. rewrite prune_lookup, Hheap, H4.
    destruct (decide (k ∈ reachable gc)) as [Hk | Hk]; [| reflexivity].
    rewrite decide_False by set_solver.
    destruct (references gc !! k) as [edges |]; [| reflexivity]. cbn. f_equal.
    rewrite list_filter_filter. apply list_filter_iff. intros x.
    rewrite elem_of_difference, elem_of_list_to_set, elem_of_elements. tauto.
Qed.

End VMCollectorFacts.

Lemma collect_empty (gc : VMGarbageCollector.t) :
  VMGarbageCollector.heap gc = ∅ -> VMGarbageCollector.collect gc = (O, gc).
Proof.
  intros Hempty. unfold VMGarbageCollector.collect.
  rewrite bool_decide_eq_true_2 by exact Hempty. reflexivity.
Qed.

Lemma Reach_empty_heap (gc : VMGarbageCollector.t) x :
  VMGarbageCollector.heap gc = ∅ -> ¬ VMGarbageCollector.Reach gc x.
Proof. intros Hempty Hx. apply Reach_in_heap in Hx. rewrite Hempty in Hx. set_solver. Qed.

(** After [collect] the heap is the set of cells that were reachable. *)
Lemma collect_heap (gc : VMGarbageCollector.t) x :
  x ∈ VMGarbageCollector.heap (VMGarbageCollector.collect gc).2 <->
  VMGarbageCollector.Reach gc x.
Proof.
  destruct (decide (VMGarbageCollector.heap gc = ∅)) as [Hempty | Hne].
  - rewrite (collect_empty gc Hempty). cbn [snd]. rewrite Hempty.
    split; [set_solver | intros Hx; destruct (Reach_empty_heap gc x Hempty Hx)].
  - destruct (collect_nonempty gc Hne) as (Hheap & _). rewrite Hheap.
    apply mark_phase_spec.
Qed.

Lemma collect_roots (gc : VMGarbageCollector.t) :
  VMGarbageCollector.roots (VMGarbageCollector.collect gc).2 = VMGarbageCollector.roots gc.
Proof.
  destruct (decide (VMGarbageCollector.heap gc = ∅)) as [Hempty | Hne].
  - rewrite (collect_empty gc Hempty). reflexivity.
  - apply (collect_nonempty gc Hne).
Qed.

(** A reachable cell keeps its edges to cells of the heap. *)
Lemma collect_keeps_edges (gc : VMGarbageCollector.t) k l :
  VMGarbageCollector.Reach gc k -> VMGarbageCollector.references gc !! k = Some l ->
  VMGarbageCollector.references (VMGarbageCollector.collect gc).2 !! k =
    Some (filter (fun y => y ∈ VMGarbageCollector.heap gc) l).
Proof.
  intros Hk Hl.
  destruct (decide (VMGarbageCollector.heap gc = ∅)) as [Hempty | Hne];
    [destruct (Reach_empty_heap gc k Hempty Hk) |].
  destruct (collect_nonempty gc Hne) as (_ & _ & _ & Hrefs).
  pose proof (mark_phase_spec gc) as [_ Hreach].
  rewrite Hrefs, Hl. rewrite decide_True by (apply Hreach; exact Hk). cbn. f_equal.
  apply filter_agree. intros y Hy. rewrite Hreach. split.
  - apply Reach_in_heap.
  - intros Hh. eapply VMGarbageCollector.Reach_edge; eauto.
Qed.

(** After [collect] on a heap that is not empty, the reference graph
    mentions cells of the new heap only. *)
Lemma collect_edges_in_heap (gc : VMGarbageCollector.t) k l :
  VMGarbageCollector.heap gc ≠ ∅ ->
  VMGarbageCollector.references (VMGarbageCollector.collect gc).2 !! k = Some l ->
  k ∈ VMGarbageCollector.heap (VMGarbageCollector.collect gc).2 /\
  forall y, y ∈ l -> y ∈ VMGarbageCollector.heap (VMGarbageCollector.collect gc).2.
Proof.
  intros Hne Hl. destruct (collect_nonempty gc Hne) as (Hheap & _ & _ & Hrefs).
  rewrite Hrefs in Hl. rewrite Hheap.
  destruct (decide (k ∈ VMGarbageCollector.reachable gc)) as [Hk | Hk]; [| discriminate].
  destruct (VMGarbageCollector.references gc !! k) as [edges |]; [| discriminate].
  cbn in Hl. injection Hl as <-. split; [exact Hk |].
  intros y Hy. apply list_elem_of_filter in Hy as [Hy _]. exact Hy.
Qed.

(** X1.  [collect] on any collector: afterwards the heap holds the cells that
    were reachable from the roots, each of them with the edges it had to
    cells of the heap; a cell of the heap that was not reachable is in no
    edge list and has no entry; the roots are kept; and the number
    returned is the number of cells released. *)
Theorem vm_collect_reclaims_unreachable (gc : VMGarbageCollector.t) :
  (forall x, x ∈ VMGarbageCollector.heap (VMGarbageCollector.collect gc).2 <->
             VMGarbageCollector.Reach gc x) /\
  (forall x, x ∈ VMGarbageCollector.heap gc -> (¬ VMGarbageCollector.Reach gc x) ->
     (x ∉ VMGarbageCollector.heap (VMGarbageCollector.collect gc).2) /\
     VMGarbageCollector.references (VMGarbageCollector.collect gc).2 !! x = None /\
     forall k l, VMGarbageCollector.references (VMGarbageCollector.collect gc).2 !! k = Some l ->
                 x ∉ l) /\
  (forall k l, VMGarbageCollector.Reach gc k ->
     VMGarbageCollector.references gc !! k = Some l ->
     VMGarbageCollector.references (VMGarbageCollector.collect gc).2 !! k =
       Some (filter (fun y => y ∈ VMGarbageCollector.heap gc) l)) /\
  VMGarbageCollector.roots (VMGarbageCollector.collect gc).2 = VMGarbageCollector.roots gc /\
  ((VMGarbageCollector.collect gc).1 +
     size (VMGarbageCollector.heap (VMGarbageCollector.collect gc).2) =
   size (VMGarbageCollector.heap gc))%nat.
Proof.
  split; [intros x; apply collect_heap |].
  split.
  { intros x Hx Hnot.
    assert (Hne : VMGarbageCollector.heap gc ≠ ∅) by set_solver.
    assert (Hgone : x ∉ VMGarbageCollector.heap (VMGarbageCollector.collect gc).2)
      by (rewrite collect_heap; exact Hnot).
    split; [exact Hgone |]. split.
    - destruct (VMGarbageCollector.references (VMGarbageCollector.collect gc).2 !! x)
        as [l |] eqn:El; [| reflexivity].
      destruct (collect_edges_in_heap gc x l Hne El) as [Hin _]. contradiction.
    - intros k l Hl Hin. destruct (collect_edges_in_heap gc k l Hne Hl) as [_ Hall].
      exact (Hgone (Hall x Hin)). }
  split; [apply collect_keeps_edges |].
  split; [apply collect_roots |].
  destruct (decide (VMGarbageCollector.heap gc = ∅)) as [Hempty | Hne].
  - rewrite (collect_empty gc Hempty). reflexivity.
  - destruct (collect_nonempty gc Hne) as (Hheap & _ & Hcount & _).
    rewrite Hheap. exact Hcount.
Qed.

(** A run of [vm_collect_reclaims_unreachable]: on [six_cells] the cycle
    through the root survives, the three other cells are released. *)
Lemma vm_collect_reclaims_unreachable_witness :
  VMGarbageCollector.collect six_cells =
    (3%nat, VMGarbageCollector.mk {[ 10; 20; 30 ]} {[ 10 ]}
              (<[ 30 := [10] ]> (<[ 20 := [30] ]> (<[ 10 := [20] ]> ∅)))) /\
  ((VMGarbageCollector.collect six_cells).1 +
     size (VMGarbageCollector.heap (VMGarbageCollector.collect six_cells).2) =
   size (VMGarbageCollector.heap six_cells))%nat.
Proof.
  split; [vm_compute; reflexivity |].
  exact (proj2 (proj2 (proj2 (proj2 (vm_collect_reclaims_unreachable six_cells))))).
Defined.

(** ** The collector's invariants *)

Section VMCollectorInvariants.

Import VMGarbageCollector.

Lemma wf_init : wf init.
Proof.
  split; [set_solver |]. intros k l H. cbn in H. rewrite lookup_empty in H. discriminate.
Qed.

Lemma wf_allocate obj g : wf g -> wf (allocate obj g).
Proof.
  intros [Hr He]. unfold allocate. destruct (obj =? 0); [split; assumption |].
  split; cbn [heap roots references]; [set_solver |].
  intros k l Hl. destruct (He k l Hl) as [Hk Hy]. split; [set_solver |].
  intros y Hyl. specialize (Hy y Hyl). set_solver.
Qed.

Lemma wf_markRoot obj g : wf g -> wf (markRoot obj g).
Proof.
  intros [Hr He]. unfold markRoot.
  destruct (negb (obj =? 0) && bool_decide (obj ∈ heap g)) eqn:E; [| split; assumption].
  apply andb_true_iff in E as [_ E]. apply bool_decide_eq_true in E.
  split; cbn [heap roots references]; [set_solver | exact He].
Qed.

Lemma wf_addReference from to g : wf g -> wf (addReference from to g).
Proof.
  intros [Hr He]. unfold addReference.
  destruct (negb (from =? 0) && negb (to =? 0) && bool_decide (from ∈ heap g)
            && bool_decide (to ∈ heap g)) eqn:E; [| split; assumption].
  apply andb_true_iff in E as [E Hto]. apply andb_true_iff in E as [_ Hfrom].
  apply bool_decide_eq_true in Hto, Hfrom.
  split; cbn [heap roots references]; [exact Hr |].
  intros k l Hl. destruct (decide (from = k)) as [<- | Hne].
  - rewrite lookup_insert_eq in Hl. injection Hl as <-. split; [exact Hfrom |].
    intros y Hy. apply elem_of_app in Hy as [Hy | Hy].
    + destruct (references g !! from) as [edges |] eqn:Ef; cbn in Hy.
      * destruct (He from edges Ef) as [_ Hedges]. auto.
      * apply elem_of_nil in Hy. destruct Hy.
    + apply list_elem_of_singleton in Hy as ->. exact Hto.
  - rewrite lookup_insert_ne in Hl by exact Hne. exact (He k l Hl).
Qed.

(** X6.  [deallocate] of a heap cell removes it from the heap, from the
    roots, from the keys of the reference graph and from every edge list,
    and touches no other cell. *)
Theorem deallocate_removes_everywhere (obj : Z) (g : VMGarbageCollector.t) :
  obj ≠ 0 -> obj ∈ heap g ->
  heap (deallocate obj g) = heap g ∖ {[ obj ]} /\
  roots (deallocate obj g) = roots g ∖ {[ obj ]} /\
  references (deallocate obj g) !! obj = None /\
  (forall k l, references (deallocate obj g) !! k = Some l -> obj ∉ l) /\
  (forall k, k ≠ obj ->
     references (deallocate obj g) !! k = filter (fun x => x ≠ obj) <$> references g !! k).
Proof.
  intros Hnz Hin. unfold deallocate.
  rewrite (proj2 (Z.eqb_neq obj 0) Hnz). rewrite bool_decide_eq_true_2 by exact Hin.
  cbn [negb andb heap roots references].
  split; [reflexivity |]. split; [reflexivity |].
  split; [rewrite purge_lookup; rewrite decide_True by reflexivity; reflexivity |].
  split.
  - intros k l Hl. rewrite purge_lookup in Hl.
    destruct (decide (k = obj)); [discriminate |].
    destruct (references g !! k) as [edges |]; [| discriminate].
    cbn in Hl. injection Hl as <-. intros Hy.
    apply list_elem_of_filter in Hy as [Hy _]. apply Hy. reflexivity.
  - intros k Hk. rewrite purge_lookup. rewrite decide_False by exact Hk. reflexivity.
Qed.

(** A run of [deallocate_removes_everywhere] on [six_cells]. *)
Lemma deallocate_removes_everywhere_witness :
  heap (deallocate 20 six_cells) = heap six_cells ∖ {[ 20 ]} /\
  references (deallocate 20 six_cells) !! 10 = Some [].
Proof.
  destruct (deallocate_removes_everywhere 20 six_cells ltac:(lia)
              ltac:(vm_compute; reflexivity)) as (H1 & _ & _ & _ & H5).
  split; [exact H1 |]. rewrite (H5 10 ltac:(lia)). vm_compute. reflexivity.
Defined.

Lemma wf_deallocate obj g : wf g -> wf (deallocate obj g).
Proof.
  intros [Hr He]. unfold deallocate.
  destruct (negb (obj =? 0) && bool_decide (obj ∈ heap g)) eqn:E; [| split; assumption].
  split; cbn [heap roots references]; [set_solver |].
  intros k l Hl. rewrite purge_lookup in Hl.
  destruct (decide (k = obj)) as [-> | Hne]; [discriminate |].
  destruct (references g !! k) as [edges |] eqn:Ek; [| discriminate].
  cbn in Hl. injection Hl as <-. destruct (He k edges Ek) as [Hk Hedges].
  split; [set_solver |]. intros y Hy. apply list_elem_of_filter in Hy as [Hne' Hy].
  specialize (Hedges y Hy). set_solver.
Qed.

(** X5.  The invariants of the heap state (every root is in the heap, and
    both ends of every edge are in the heap) hold of a new collector and
    are kept by [allocate], [markRoot], [addReference], [deallocate] and
    [collect]; under them, after [collect] every cell of the heap is
    reachable from a root. *)
Theorem vm_gc_invariants (g : VMGarbageCollector.t) (a b : Z) :
  wf g ->
  wf (allocate a g) /\ wf (markRoot a g) /\ wf (addReference a b g) /\
  wf (deallocate a g) /\ wf (collect g).2 /\
  (forall x, x ∈ heap (collect g).2 -> Reach (collect g).2 x).
Proof.
  intros Hwf.
  split; [apply wf_allocate; exact Hwf |]. split; [apply wf_markRoot; exact Hwf |].
  split; [apply wf_addReference; exact Hwf |]. split; [apply wf_deallocate; exact Hwf |].
  destruct Hwf as [Hr He].
  assert (Hwf' : wf (collect g).2).
  { split.
    - rewrite collect_roots. intros x Hx. apply collect_heap.
      apply Reach_root; [exact Hx | auto].
    - intros k l Hl.
      destruct (decide (heap g = ∅)) as [Hempty | Hne].
      + rewrite (collect_empty g Hempty) in Hl |- *. cbn [snd] in Hl |- *. exact (He k l Hl).
      + exact (collect_edges_in_heap g k l Hne Hl). }
  split; [exact Hwf' |].
  intros x Hx. apply collect_heap in Hx.
  induction Hx as [r Hroot Hh | x l y Hx IH Hl Hy Hh].
  - apply Reach_root; [rewrite collect_roots; exact Hroot |].
    apply collect_heap. apply Reach_root; assumption.
  - eapply (Reach_edge _ x); [exact IH | apply (collect_keeps_edges g x l Hx Hl) | |].
    + apply list_elem_of_filter. split; [exact Hh | exact Hy].
    + apply collect_heap. eapply Reach_edge; eauto.
Qed.

(** A run of [vm_gc_invariants] on a new collector. *)
Lemma vm_gc_invariants_witness : wf (allocate 8 init) /\ wf (collect init).2.
Proof.
  destruct (vm_gc_invariants init 8 0 wf_init) as (H1 & _ & _ & _ & H5 & _).
  split; [exact H1 | exact H5].
Defined.

End VMCollectorInvariants.

(** ** [GarbageCollector::collect] *)

(** The traversal empties its worklist within one round per worklist
    entry and per address of [U] not yet visited, [U] holding every target
    that passes the test. *)
Lemma loop_terminates (ok : Z -> bool) (references : gmap Z (list Z)) (U : gset Z)
    (fuel : nat) : forall (v : gset Z) (w : list Z),
  (forall k l y, references !! k = Some l -> y ∈ l -> ok y = true -> y ∈ U) ->
  (length w + size (U ∖ v) <= fuel)%nat ->
  (Worklist.loop fuel ok references v w).2 = [].
Proof.
  induction fuel as [| fuel IH]; intros v w HU Hfuel.
  - destruct w as [| c w]; [reflexivity | cbn [length] in Hfuel; lia].
  - destruct w as [| current rest]; [reflexivity |].
    cbn [Worklist.loop].
    set (edges := default [] (references !! current)).
    destruct (foldl_visit_spec ok edges v rest) as (H1 & H2 & H3).
    set (st := foldl (Worklist.visit ok) (v, rest) edges) in *.
    apply IH; [exact HU |].
    assert (Hvst : v ⊆ st.1) by (intros x Hx; apply H1; auto).
    assert (Hnew : st.1 ∖ v ⊆ U).
    { intros x Hx. apply elem_of_difference in Hx as [Hx Hnv].
      apply H1 in Hx as [Hx | [Hx Hokx]]; [contradiction |].
      subst edges. destruct (references !! current) as [l |] eqn:El.
      - eapply HU; eauto.
      - apply elem_of_nil in Hx. destruct Hx. }
    assert (Hsplit : U ∖ v = (U ∖ st.1) ∪ (st.1 ∖ v)).
    { apply set_eq. intros x. rewrite elem_of_union, !elem_of_difference.
      split.
      - intros [Hx Hnv]. destruct (decide (x ∈ st.1)); [right | left]; auto.
      - intros [[Hx Hn] | [Hx Hnv]]; [split; auto | split; [apply Hnew; set_solver | auto]]. }
    assert (Hsize : size (U ∖ v) = (size (U ∖ st.1) + size (st.1 ∖ v))%nat).
    { rewrite Hsplit at 1. apply size_union. set_solver. }
    rewrite (size_difference st.1 v) in Hsize by exact Hvst.
    pose proof (subseteq_size _ _ Hvst). cbn [length] in Hfuel. lia.
Qed.

(** The addresses of [targets] are those that occur in an edge list. *)
Lemma elem_of_targets (references : gmap Z (list Z)) y :
  y ∈ Worklist.targets references <-> exists k l, references !! k = Some l /\ y ∈ l.
Proof.
  unfold Worklist.targets.
  apply (map_fold_weak_ind
           (fun (acc : gset Z) (m : gmap Z (list Z)) =>
              y ∈ acc <-> exists k l, m !! k = Some l /\ y ∈ l)).
  - split; [set_solver |]. intros (k & l & Hl & _). rewrite lookup_empty in Hl. discriminate.
  - intros i x m r Hi IH. rewrite elem_of_union, elem_of_list_to_set, IH. split.
    + intros [Hy | (k & l & Hl & Hy)].
      * exists i, x. rewrite lookup_insert_eq. auto.
      * exists k, l. rewrite lookup_insert_ne by congruence. auto.
    + intros (k & l & Hl & Hy). destruct (decide (i = k)) as [-> | Hne].
      * rewrite lookup_insert_eq in Hl. injection Hl as ->. auto.
      * rewrite lookup_insert_ne in Hl by exact Hne. right. eauto.
Qed.

(** The traversal in [mark] ends with an empty worklist within its fuel. *)
Lemma steve_mark_terminates (g : GarbageCollector.t) :
  let cleared := GarbageCollector.marked g ∖
                   list_to_set (filter (fun o => o ≠ 0) (GarbageCollector.objects g)) in
  let st := foldl (fun st root => if root =? 0 then st else ({[ root ]} ∪ st.1, root :: st.2))
              (cleared, []) (elements (GarbageCollector.rootObjects g)) in
  (Worklist.loop (length st.2 + size (Worklist.targets (GarbageCollector.references g)))
     (fun ref => negb (ref =? 0)) (GarbageCollector.references g) st.1 st.2).2 = [].
Proof.
  cbv zeta. apply (loop_terminates _ _ (Worklist.targets (GarbageCollector.references g))).
  - intros k l y Hl Hy _. apply elem_of_targets. eauto.
  - apply Nat.add_le_mono_l. apply subseteq_size. set_solver.
Qed.

(** [collect] returns 0 on every collector. *)
Lemma steve_collect_count (g : GarbageCollector.t) : (GarbageCollector.collect g).1 = 0.
Proof. reflexivity. Qed.

(** C2 (the code departs from the claim, in [gc.cpp]).  On the collector
    [three_objects], [GarbageCollector::collect] releases the two
    unreachable objects 7 and 9, which its [sweep] counts, and returns 0;
    the entries of 7 and 9 stay in the reference graph, and 7 stays in the
    edge list of 9.  [VMGarbageCollector::collect] does what the claim
    says, as proved above. *)
Theorem steve_collect_drops_count :
  let r := GarbageCollector.collect three_objects in
  GarbageCollector.objects three_objects = [5; 7; 9] /\
  GarbageCollector.objects r.2 = [5] /\
  (GarbageCollector.sweep (GarbageCollector.mark three_objects)).2 = 2 /\
  r.1 = 0 /\
  GarbageCollector.references r.2 !! 7 = Some [5] /\
  GarbageCollector.references r.2 !! 9 = Some [7].
Proof. cbv zeta. repeat split; vm_compute; reflexivity. Qed.

(** ** Accounting of the machine's collector *)

(** After [collect] every cell of the heap is reachable in the new state. *)
Lemma collect_heap_reachable (g : VMGarbageCollector.t) x :
  x ∈ VMGarbageCollector.heap (VMGarbageCollector.collect g).2 ->
  VMGarbageCollector.Reach (VMGarbageCollector.collect g).2 x.
Proof.
  intros Hx. apply collect_heap in Hx.
  induction Hx as [r Hroot Hh | x l y Hx IH Hl Hy Hh].
  - apply VMGarbageCollector.Reach_root; [rewrite collect_roots; exact Hroot |].
    apply collect_heap. apply VMGarbageCollector.Reach_root; assumption.
  - eapply (VMGarbageCollector.Reach_edge _ x);
      [exact IH | apply (collect_keeps_edges g x l Hx Hl) | |].
    + apply list_elem_of_filter. split; [exact Hh | exact Hy].
    + apply collect_heap. eapply VMGarbageCollector.Reach_edge; eauto.
Qed.

(** The set the mark phase computes on the collected state is its heap. *)
Lemma reachable_after_collect (g : VMGarbageCollector.t) :
  VMGarbageCollector.reachable (VMGarbageCollector.collect g).2 =
  VMGarbageCollector.heap (VMGarbageCollector.collect g).2.
Proof.
  apply set_eq. intros x.
  rewrite (proj2 (mark_phase_spec (VMGarbageCollector.collect g).2) x). split.
  - apply Reach_in_heap.
  - apply collect_heap_reachable.
Qed.

Lemma heap_after_collect (g : VMGarbageCollector.t) :
  VMGarbageCollector.heap (VMGarbageCollector.collect g).2 = VMGarbageCollector.reachable g.
Proof.
  apply set_eq. intros x. rewrite collect_heap.
  symmetry. apply (proj2 (mark_phase_spec g) x).
Qed.

(** X7.  The three counters of the machine's collector agree: [collect]
    returns the heap size minus the number of live objects, it leaves the
    number of live objects as it was, and afterwards the heap holds live
    objects only. *)
Theorem live_objects_accounting (g : VMGarbageCollector.t) :
  ((VMGarbageCollector.collect g).1 + VMGarbageCollector.getLiveObjects g =
   VMGarbageCollector.getHeapSize g)%nat /\
  (VMGarbageCollector.getLiveObjects g <= VMGarbageCollector.getHeapSize g)%nat /\
  VMGarbageCollector.getLiveObjects (VMGarbageCollector.collect g).2 =
    VMGarbageCollector.getLiveObjects g /\
  VMGarbageCollector.getHeapSize (VMGarbageCollector.collect g).2 =
    VMGarbageCollector.getLiveObjects g.
Proof.
  unfold VMGarbageCollector.getLiveObjects, VMGarbageCollector.getHeapSize.
  assert (Hcount : ((VMGarbageCollector.collect g).1 + size (VMGarbageCollector.reachable g) =
                    size (VMGarbageCollector.heap g))%nat).
  { rewrite <- heap_after_collect.
    destruct (decide (VMGarbageCollector.heap g = ∅)) as [Hempty | Hne].
    - rewrite (collect_empty g Hempty). reflexivity.
    - destruct (collect_nonempty g Hne) as (Hheap & _ & Hc & _). rewrite Hheap. exact Hc. }
  split; [exact Hcount |]. split; [lia |].
  rewrite reachable_after_collect, heap_after_collect. split; reflexivity.
Qed.

(** X8.  [collect] is idempotent: run again on the state it leaves, it
    releases nothing and changes nothing. *)
Theorem vm_collect_idempotent (g : VMGarbageCollector.t) :
  VMGarbageCollector.collect (VMGarbageCollector.collect g).2 =
    (O, (VMGarbageCollector.collect g).2).
Proof.
  destruct (decide (VMGarbageCollector.heap g = ∅)) as [Hempty | Hne].
  { rewrite (collect_empty g Hempty). cbn [snd]. apply collect_empty. exact Hempty. }
  set (g1 := (VMGarbageCollector.collect g).2).
  destruct (decide (VMGarbageCollector.heap g1 = ∅)) as [Hempty1 | Hne1].
  { apply collect_empty. exact Hempty1. }
  destruct (collect_nonempty g1 Hne1) as (Hheap & Hroots & Hcount & Hrefs).
  pose proof (reachable_after_collect g) as Hreach. fold g1 in Hreach.
  rewrite Hreach in Hheap, Hcount, Hrefs.
  assert (Hzero : (VMGarbageCollector.collect g1).1 = O) by lia.
  assert (Hmap : VMGarbageCollector.references (VMGarbageCollector.collect g1).2 =
                 VMGarbageCollector.references g1).
  { apply map_eq. intros k. rewrite Hrefs.
    destruct (VMGarbageCollector.references g1 !! k) as [l |] eqn:El.
    - destruct (collect_edges_in_heap g k l Hne El) as [Hk Hall]. fold g1 in Hk, Hall.
      rewrite decide_True by exact Hk. cbn. f_equal. apply filter_all. exact Hall.
    - destruct (decide (k ∈ VMGarbageCollector.heap g1)); reflexivity. }
  destruct (VMGarbageCollector.collect g1) as [n g2]. cbn [fst snd] in *.
  subst n. f_equal. destruct g2 as [h r e], g1 as [h1 r1 e1].
  cbn [VMGarbageCollector.heap VMGarbageCollector.roots VMGarbageCollector.references] in *.
  congruence.
Qed.

(** ** [GarbageCollector::collect]: what survives *)





(** ** What a builtin can touch *)

(** A builtin leaves the machine state (program counter, stack, scopes,
    variables, functions, program), the JIT switch and the two collectors
    as they are; only [open] and [close] change the file-handle table, and
    only [open], [close], [new] and [del] the table of managed objects. *)
Lemma builtin_frame (stod : string -> option float) (show_double to_string_double : float -> string)
    (sizeof_string : Z) (opened : bool) (obj data : Z) (name : string) (builtin : Builtin) :
  builtInFunctions stod show_double to_string_double sizeof_string opened obj data name
    = Some builtin ->
  forall (args : list Value) (vm : VirtualMachine),
    state (builtin args vm).1 = state vm /\
    useJIT (builtin args vm).1 = useJIT vm /\
    gc (builtin args vm).1 = gc vm /\
    steve_gc (builtin args vm).1 = steve_gc vm /\
    (name <> "open"%string -> name <> "close"%string ->
       fileHandles (builtin args vm).1 = fileHandles vm /\
       nextFileHandleId (builtin args vm).1 = nextFileHandleId vm) /\
    (name <> "open"%string -> name <> "close"%string -> name <> "new"%string ->
     name <> "del"%string ->
       managedObjects (builtin args vm).1 = managedObjects vm /\
       nextObjectId (builtin args vm).1 = nextObjectId vm).
Proof.
  intros H args vm. unfold builtInFunctions in H.
  repeat match type of H with
         | (if String.eqb name ?s then _ else _) = _ =>
             destruct (String.eqb_spec name s) as [-> | ?]
         end;
    try discriminate H; injection H as <-;
    unfold returns, returns_with, builtin_print, builtin_run, builtin_new, builtin_open,
      open_file, builtin_close, builtin_write, builtin_read, builtin_del;
    cbv zeta;
    repeat match goal with
           | |- context [match ?x with _ => _ end] => destruct x
           end;
    cbn [fst snd];
    (split; [reflexivity |]); (split; [reflexivity |]); (split; [reflexivity |]);
    (split; [reflexivity |]);
    (split; [intros; first [split; reflexivity | congruence]
            | intros; first [split; reflexivity | congruence]]).
Qed.

(** ** What one instruction can touch *)

Lemma jumpToEnd_set_pc (vm : VirtualMachine) : exists target, jumpToEnd vm = set_pc target vm.
Proof.
  unfold jumpToEnd.
  destruct (scan_end 1 (Int.usize (pc (state vm) + 1))
              (skipn (Z.to_nat (Int.usize (pc (state vm) + 1))) (program (state vm))));
    eexists; reflexivity.
Qed.

(** The exceptions of [performBinaryOperation] and [performUnaryOperation]
    carry the line they were given and are never access errors. *)
Lemma performBinaryOperation_throws l r op line e :
  performBinaryOperation l r op line = Throw e ->
  exn_line e = line /\ exn_class e <> AccessError.
Proof.
  unfold performBinaryOperation.
  repeat match goal with
         | |- context [if ?b then _ else _] => destruct b
         | |- context [match ?x with _ => _ end] => destruct x
         end;
    intros H; try discriminate H; injection H as <-; (split; [reflexivity | discriminate]).
Qed.

Lemma performUnaryOperation_throws v op line e :
  performUnaryOperation v op line = Throw e ->
  exn_line e = line /\ exn_class e <> AccessError.
Proof.
  unfold performUnaryOperation.
  repeat match goal with
         | |- context [if ?b then _ else _] => destruct b
         | |- context [match ?x with _ => _ end] => destruct x
         end;
    intros H; try discriminate H; injection H as <-; (split; [reflexivity | discriminate]).
Qed.

Section StepFacts.

Variable stod : string -> option float.
Variable show_double : float -> string.

(** X10.  An exception raised by an opcode other than [IF], [CALL],
    [INPUT], [MEM_malloc] and [MEM_free] carries the line of the
    instruction; and when it is an access error (a stack too short, an
    operand missing), the instruction has changed nothing: the machine is
    as it was before. *)
Theorem access_error_leaves_machine (instr : Instruction) (vm vm' : VirtualMachine)
    (e : VMException) :
  decodeAndExecute stod show_double instr vm = (vm', Thrown e) ->
  exn_line e = i_line instr /\ (exn_class e = AccessError -> vm' = vm).
Proof.
  unfold decodeAndExecute. destruct (i_type instr);
    repeat match goal with
           | |- context [match ?x with _ => _ end] => destruct x eqn:?
           end;
    intros H; try discriminate H; injection H as <- <-;
    try (split; [reflexivity | intros Hc; first [reflexivity | discriminate Hc]]).
  - destruct (performBinaryOperation_throws _ _ _ _ _ Heqr) as [Hl Hc].
    split; [exact Hl | intros Hc'; contradiction].
  - destruct (performUnaryOperation_throws _ _ _ _ Heqr) as [Hl Hc].
    split; [exact Hl | intros Hc'; contradiction].
Qed.

(** No instruction changes the loaded program. *)
Lemma step_keeps_program (instr : Instruction) (vm : VirtualMachine) :
  program (state (decodeAndExecute stod show_double instr vm).1) = program (state vm).
Proof.
  unfold decodeAndExecute. destruct (i_type instr);
    repeat match goal with
           | |- context [match ?x with _ => _ end] => destruct x eqn:?
           | |- context [jumpToEnd ?v] =>
               let t := fresh "target" in
               let E := fresh "E" in
               destruct (jumpToEnd_set_pc v) as [t E]; rewrite E; clear E
           end;
    reflexivity.
Qed.

(** What [CALL] does, split by what it finds on the stack. *)
Lemma call_cases (to_string_double : float -> string) (sizeof_string : Z) (opened : bool)
    (obj data : Z) (instr : Instruction) (vm : VirtualMachine) :
  let called := call stod show_double to_string_double sizeof_string opened obj data instr vm in
  (operands instr = [] /\ called.1 = vm) \/
  (exists name ops builtin args vm1,
     operands instr = name :: ops /\
     builtInFunctions stod show_double to_string_double sizeof_string opened obj data name
       = Some builtin /\
     ((stack (state vm) = [] /\ args = [] /\ vm1 = vm) \/
      (exists top rest, stack (state vm) = top :: rest /\ args = [top] /\
                        vm1 = set_stack rest vm)) /\
     ((exists result, (builtin args vm1).2 = Ok result /\
                      called.1 = push result (builtin args vm1).1) \/
      called.1 = (builtin args vm1).1)) \/
  (exists name ops,
     operands instr = name :: ops /\
     builtInFunctions stod show_double to_string_double sizeof_string opened obj data name
       = None /\
     ((exists target, called.1 = set_pc target (push (VInt (Int.wrap32 (pc (state vm)))) vm)) \/
      called.1 = vm)).
Proof.
  cbv zeta. unfold call.
  destruct (operands instr) as [| name ops]; [left; split; reflexivity |].
  destruct (builtInFunctions stod show_double to_string_double sizeof_string opened obj data name)
    as [builtin |] eqn:Eb.
  - right. left. destruct (stack (state vm)) as [| top rest] eqn:Es.
    + exists name, ops, builtin, [], vm. split; [reflexivity |]. split; [exact Eb |].
      split; [left; repeat split; reflexivity |].
      destruct (builtin [] vm) as [vm2 [result | e |]]; cbn [fst snd];
        [left; eexists; split; reflexivity | right; reflexivity | right; reflexivity].
    + exists name, ops, builtin, [top], (set_stack rest vm).
      split; [reflexivity |]. split; [exact Eb |].
      split; [right; exists top, rest; repeat split; reflexivity |].
      destruct (builtin [top] (set_stack rest vm)) as [vm2 [result | e |]]; cbn [fst snd];
        [left; eexists; split; reflexivity | right; reflexivity | right; reflexivity].
  - right. right. exists name, ops. split; [reflexivity |]. split; [exact Eb |].
    destruct (functions (state vm) !! name) as [target |]; cbn [fst];
      [left; eexists; reflexivity | right; reflexivity].
Qed.

(** Neither a [CALL] nor any other embedded instruction changes the
    loaded program. *)
Lemma dispatch_keeps_program (to_string_double : float -> string) (sizeof_string : Z)
    (opened : bool) (obj data : Z) (instr : Instruction) (vm : VirtualMachine) :
  program (state (dispatch stod show_double to_string_double sizeof_string opened obj data
                    instr vm).1) = program (state vm).
Proof.
  assert (Hcases : i_type instr = CALL \/
                   dispatch stod show_double to_string_double sizeof_string opened obj data
                     instr vm = decodeAndExecute stod show_double instr vm)
    by (unfold dispatch; destruct (i_type instr); auto).
  destruct Hcases as [Et | ->]; [| apply step_keeps_program].
  unfold dispatch. rewrite Et.
  destruct (call_cases to_string_double sizeof_string opened obj data instr vm)
    as [[Hops ->] | [(name & ops & builtin & args & vm1 & Hops & Eb & Hargs & Hres)
                    | (name & ops & Hops & _ & Hres)]].
  - reflexivity.
  - destruct (builtin_frame _ _ _ _ _ _ _ _ _ Eb args vm1) as (Hst & _).
    assert (Hvm1 : program (state vm1) = program (state vm))
      by (destruct Hargs as [(_ & _ & ->) | (top & rest & _ & _ & ->)]; reflexivity).
    destruct Hres as [(result & _ & ->) | ->];
      cbn [push set_stack set_state state program]; rewrite Hst; exact Hvm1.
  - destruct Hres as [[target ->] | ->]; reflexivity.
Qed.

(** X11.  What an instruction leaves alone.  No opcode other than [IF],
    [CALL], [INPUT], [MEM_malloc] and [MEM_free] changes the loaded
    program, the JIT switch, the file-handle table or the table of managed
    objects, and of these opcodes [GC_RUN] alone changes the two
    collectors.  A [CALL] changes neither the program, nor the JIT switch,
    nor a collector; it changes the file-handle table only when it calls
    [open] or [close], and the table of managed objects only when it calls
    [open], [close], [new] or [del]. *)
Theorem step_frame (to_string_double : float -> string) (sizeof_string : Z) (opened : bool)
    (obj data : Z) (instr : Instruction) (vm : VirtualMachine) :
  (embedded (i_type instr) = true ->
   let vm' := (decodeAndExecute stod show_double instr vm).1 in
   program (state vm') = program (state vm) /\
   useJIT vm' = useJIT vm /\
   fileHandles vm' = fileHandles vm /\
   nextFileHandleId vm' = nextFileHandleId vm /\
   managedObjects vm' = managedObjects vm /\
   nextObjectId vm' = nextObjectId vm /\
   (i_type instr <> GC_RUN -> gc vm' = gc vm /\ steve_gc vm' = steve_gc vm)) /\
  (let vm' := (call stod show_double to_string_double sizeof_string opened obj data instr vm).1 in
   program (state vm') = program (state vm) /\
   useJIT vm' = useJIT vm /\
   gc vm' = gc vm /\
   steve_gc vm' = steve_gc vm /\
   forall name ops, operands instr = name :: ops ->
     name <> "open"%string -> name <> "close"%string ->
     fileHandles vm' = fileHandles vm /\
     nextFileHandleId vm' = nextFileHandleId vm /\
     (name <> "new"%string -> name <> "del"%string ->
      managedObjects vm' = managedObjects vm /\ nextObjectId vm' = nextObjectId vm)).
Proof.
  split.
  - intros _. cbv zeta. unfold decodeAndExecute. destruct (i_type instr);
      repeat match goal with
             | |- context [match ?x with _ => _ end] => destruct x eqn:?
             | |- context [jumpToEnd ?v] =>
                 let t := fresh "target" in
                 let E := fresh "E" in
                 destruct (jumpToEnd_set_pc v) as [t E]; rewrite E; clear E
             end;
      cbn [fst]; (do 6 (split; [reflexivity |])); intros Hne;
      first [exfalso; apply Hne; reflexivity | split; reflexivity].
  - cbv zeta.
    destruct (call_cases to_string_double sizeof_string opened obj data instr vm)
      as [[Hops ->] | [(name & ops & builtin & args & vm1 & Hops & Eb & Hargs & Hres)
                      | (name & ops & Hops & _ & Hres)]].
    + do 4 (split; [reflexivity |]). intros n o Hn. rewrite Hops in Hn. discriminate Hn.
    + destruct (builtin_frame _ _ _ _ _ _ _ _ _ Eb args vm1)
        as (Hst & Hjit & Hgc & Hsgc & Hfiles & Hobjs).
      assert (Hvm1 : program (state vm1) = program (state vm) /\ useJIT vm1 = useJIT vm /\
                     gc vm1 = gc vm /\ steve_gc vm1 = steve_gc vm /\
                     fileHandles vm1 = fileHandles vm /\
                     nextFileHandleId vm1 = nextFileHandleId vm /\
                     managedObjects vm1 = managedObjects vm /\ nextObjectId vm1 = nextObjectId vm).
      { destruct Hargs as [(_ & _ & ->) | (top & rest & _ & _ & ->)]; repeat split; reflexivity. }
      destruct Hvm1 as (Hp1 & Hj1 & Hg1 & Hs1 & Hf1 & Hn1 & Hm1 & Ho1).
      assert (Hcalled :
                program (state (call stod show_double to_string_double sizeof_string opened obj
                                  data instr vm).1) = program (state (builtin args vm1).1) /\
                useJIT (call stod show_double to_string_double sizeof_string opened obj
                          data instr vm).1 = useJIT (builtin args vm1).1 /\
                gc (call stod show_double to_string_double sizeof_string opened obj
                      data instr vm).1 = gc (builtin args vm1).1 /\
                steve_gc (call stod show_double to_string_double sizeof_string opened obj
                            data instr vm).1 = steve_gc (builtin args vm1).1 /\
                fileHandles (call stod show_double to_string_double sizeof_string opened obj
                               data instr vm).1 = fileHandles (builtin args vm1).1 /\
                nextFileHandleId (call stod show_double to_string_double sizeof_string opened
                                    obj data instr vm).1
                  = nextFileHandleId (builtin args vm1).1 /\
                managedObjects (call stod show_double to_string_double sizeof_string opened obj
                                  data instr vm).1 = managedObjects (builtin args vm1).1 /\
                nextObjectId (call stod show_double to_string_double sizeof_string opened obj
                                data instr vm).1 = nextObjectId (builtin args vm1).1).
      { destruct Hres as [(result & _ & ->) | ->]; repeat split; reflexivity. }
      destruct Hcalled as (Hp2 & Hj2 & Hg2 & Hs2 & Hf2 & Hn2 & Hm2 & Ho2).
      rewrite Hp2, Hj2, Hg2, Hs2, Hf2, Hn2, Hm2, Ho2, Hst, Hjit, Hgc, Hsgc.
      do 4 (split; [assumption |]).
      intros n o Hn Hopen Hclose. rewrite Hops in Hn. injection Hn as <- <-.
      destruct (Hfiles Hopen Hclose) as [Hf Hnf]. rewrite Hf, Hnf.
      split; [exact Hf1 |]. split; [exact Hn1 |].
      intros Hnew Hdel. destruct (Hobjs Hopen Hclose Hnew Hdel) as [Hm Ho]. rewrite Hm, Ho.
      split; assumption.
    + destruct Hres as [[target ->] | ->]; (do 4 (split; [reflexivity |]));
        intros n o _ _ _; (split; [reflexivity |]); (split; [reflexivity |]);
        intros _ _; split; reflexivity.
Qed.

(** The opcodes that do not transfer control leave the program counter and
    the [running] flag as they were. *)
Lemma step_keeps_pc (instr : Instruction) (vm : VirtualMachine) :
  transfers_control (i_type instr) = false ->
  pc (state (decodeAndExecute stod show_double instr vm).1) = pc (state vm) /\
  running (state (decodeAndExecute stod show_double instr vm).1) = running (state vm).
Proof.
  unfold decodeAndExecute. destruct (i_type instr); intros Ht; try discriminate Ht;
    repeat match goal with
           | |- context [match ?x with _ => _ end] => destruct x eqn:?
           end;
    split; reflexivity.
Qed.

(** X12.  The stack effect of one instruction.  An opcode other than
    [IF], [INPUT], [MEM_malloc] and [MEM_free] pops at most two values and
    pushes at most one, so the stack never grows by more than one slot nor
    shrinks by more than two; a [CALL] pops at most one value and pushes at
    most one, whatever builtin or function it calls. *)
Theorem step_stack_depth (to_string_double : float -> string) (sizeof_string : Z)
    (opened : bool) (obj data : Z) (instr : Instruction) (vm : VirtualMachine) :
  (embedded (i_type instr) = true ->
   let vm' := (decodeAndExecute stod show_double instr vm).1 in
   (length (stack (state vm')) <= length (stack (state vm)) + 1)%nat /\
   (length (stack (state vm)) <= length (stack (state vm')) + 2)%nat) /\
  (let vm' := (call stod show_double to_string_double sizeof_string opened obj data instr vm).1 in
   (length (stack (state vm')) <= length (stack (state vm)) + 1)%nat /\
   (length (stack (state vm)) <= length (stack (state vm')) + 1)%nat).
Proof.
  split.
  - intros _. cbv zeta. unfold decodeAndExecute. destruct (i_type instr);
      repeat match goal with
             | |- context [match ?x with _ => _ end] => destruct x eqn:?
             | |- context [jumpToEnd ?v] =>
                 let t := fresh "target" in
                 let E := fresh "E" in
                 destruct (jumpToEnd_set_pc v) as [t E]; rewrite E; clear E
             end;
      cbn [fst push set_stack set_state set_pc set_variables set_functions set_scopes
           set_running put_cout put_cerr runGarbageCollection state stack length];
      repeat match goal with
             | H : stack (state vm) = _ |- _ => rewrite H
             end;
      cbn [length]; split; lia.
  - cbv zeta.
    destruct (call_cases to_string_double sizeof_string opened obj data instr vm)
      as [[Hops ->] | [(name & ops & builtin & args & vm1 & Hops & Eb & Hargs & Hres)
                      | (name & ops & Hops & _ & Hres)]].
    + split; lia.
    + destruct (builtin_frame _ _ _ _ _ _ _ _ _ Eb args vm1) as (Hst & _).
      assert (Hlen : (length (stack (state vm1)) <= length (stack (state vm)) /\
                      length (stack (state vm)) <= length (stack (state vm1)) + 1)%nat).
      { destruct Hargs as [(_ & _ & ->) | (top & rest & Hs & _ & ->)];
          [split; lia |].
        rewrite Hs. cbn [set_stack set_state state stack length]. split; lia. }
      destruct Hres as [(result & _ & ->) | ->].
      * cbn [push set_stack set_state state stack length]. rewrite Hst. split; lia.
      * rewrite Hst. split; lia.
    + destruct Hres as [[target ->] | ->];
        cbn [set_pc push set_stack set_state state stack length]; split; lia.
Qed.

(** X13.  A program with no [IF], [CALL], [WHILE], [ELSE], [END], [RETURN]
    or [GOTO] runs each instruction at most once: the interpreter loop is
    over within as many rounds as there are instructions from the program
    counter on. *)
Theorem straight_line_run_ends (fuel : nat) : forall vm : VirtualMachine,
  List.Forall (fun instr => transfers_control (i_type instr) = false) (program (state vm)) ->
  0 <= pc (state vm) ->
  Z.of_nat (length (program (state vm))) < 2 ^ 64 ->
  Z.of_nat (length (program (state vm))) - pc (state vm) <= Z.of_nat fuel ->
  (run stod show_double fuel vm).2 <> OutOfFuel.
Proof.
  induction fuel as [| fuel IH]; intros vm Hs Hpc Hlen Hfuel.
  - cbn [run].
    destruct (running (state vm) && (pc (state vm) <? Z.of_nat (length (program (state vm)))))
      eqn:E; [| discriminate].
    apply andb_true_iff in E as [_ E]. apply Z.ltb_lt in E. lia.
  - cbn [run].
    destruct (running (state vm) && (pc (state vm) <? Z.of_nat (length (program (state vm)))))
      eqn:E; [| discriminate].
    apply andb_true_iff in E as [_ E]. apply Z.ltb_lt in E.
    unfold executeInstruction. rewrite (proj2 (Z.leb_gt _ _)) by lia.
    destruct (nth_error (program (state vm)) (Z.to_nat (pc (state vm)))) as [instr |] eqn:En;
      [| discriminate].
    assert (Hin : transfers_control (i_type instr) = false)
      by exact (proj1 (List.Forall_forall _ _) Hs instr (nth_error_In _ _ En)).
    pose proof (step_keeps_program instr vm) as Hprog.
    pose proof (step_keeps_pc instr vm Hin) as [Hpc' _].
    destruct (decodeAndExecute stod show_double instr vm) as [vm1 out]. cbn [fst] in Hprog, Hpc'.
    destruct out as [[|] | e |]; try discriminate.
    apply IH; cbn [set_pc set_state state program pc]; rewrite ?Hprog, ?Hpc';
      unfold Int.usize; rewrite ?Z.mod_small by lia; try lia. exact Hs.
Qed.

End StepFacts.

(** A run of [access_error_leaves_machine]: [STORE] on the empty stack of
    a new machine. *)
Lemma access_error_leaves_machine_witness :
  exn_line (throw AccessError "Stack underflow during STORE operation" 7) = 7 /\
  (exn_class (throw AccessError "Stack underflow during STORE operation" 7) = AccessError ->
   VirtualMachine_new = VirtualMachine_new).
Proof.
  apply (access_error_leaves_machine (fun _ => None) (fun _ => EmptyString)
           (mkInstruction STORE 7 []) VirtualMachine_new).
  reflexivity.
Defined.

(** A run of [straight_line_run_ends]: the four instructions of
    [concat_listed] end within four rounds. *)
Lemma straight_line_run_ends_witness :
  (run (fun _ => None) (fun _ => EmptyString) 4
     (set_running true (machine_with concat_listed))).2 <> OutOfFuel.
Proof.
  apply straight_line_run_ends.
  - repeat constructor.
  - cbn. lia.
  - cbn. lia.
  - cbn. lia.
Defined.

(** ** Where [jumpToEnd] lands *)

Lemma scan_end_depth (depth : Z) (instr : Instruction) :
  (if InstructionType_eqb (i_type instr) IF || InstructionType_eqb (i_type instr) WHILE
   then depth + 1
   else if InstructionType_eqb (i_type instr) END then depth - 1 else depth)
  = depth + depth_change instr.
Proof. unfold depth_change. destruct (i_type instr); cbn; lia. Qed.

(** The scan stops at the first instruction after which the depth is 0;
    that instruction is an [END]. *)
Lemma scan_end_spec (rest : list Instruction) : forall (depth current : Z),
  0 < depth ->
  match scan_end depth current rest with
  | Some target =>
      exists k instr,
        target = current + Z.of_nat k /\
        nth_error rest k = Some instr /\ i_type instr = END /\
        nesting depth (firstn (S k) rest) = 0 /\
        forall j, (j <= k)%nat -> 0 < nesting depth (firstn j rest)
  | None => forall j, 0 < nesting depth (firstn j rest)
  end.
Proof.
  induction rest as [| x rest IH]; intros depth current Hd; cbn [scan_end].
  - intros j. rewrite firstn_nil. exact Hd.
  - rewrite scan_end_depth.
    destruct (Z.eqb_spec (depth + depth_change x) 0) as [Hz | Hnz].
    + exists O, x. split; [cbn; lia |]. split; [reflexivity |].
      split.
      { unfold depth_change in Hz. destruct (i_type x); try reflexivity; lia. }
      split; [exact Hz |].
      intros j Hj. assert (j = O) as -> by lia. exact Hd.
    + assert (Hd' : 0 < depth + depth_change x).
      { unfold depth_change in *. destruct (i_type x); lia. }
      specialize (IH (depth + depth_change x) (current + 1) Hd').
      destruct (scan_end (depth + depth_change x) (current + 1) rest) as [target |].
      * destruct IH as (k & instr & Ht & Hn & Hend & Hzero & Hpos).
        exists (S k), instr. split; [lia |]. split; [exact Hn |]. split; [exact Hend |].
        split; [exact Hzero |].
        intros j Hj. destruct j as [| j]; [exact Hd |]. apply Hpos. lia.
      * intros j. destruct j as [| j]; [exact Hd |]. apply IH.
Qed.

(** X14.  [jumpToEnd] changes the program counter only.  From a program
    counter [p] it lands on the first later instruction after which the
    nesting depth, counted from 1 with [IF] and [WHILE] opening and [END]
    closing, is back to 0; that instruction is an [END].  When no
    instruction closes the construct it lands on the last instruction. *)
Theorem jumpToEnd_matching_end (vm : VirtualMachine) :
  0 <= pc (state vm) -> pc (state vm) + 1 < 2 ^ 64 ->
  let body := skipn (Z.to_nat (pc (state vm) + 1)) (program (state vm)) in
  (exists k instr,
     jumpToEnd vm = set_pc (pc (state vm) + 1 + Z.of_nat k) vm /\
     nth_error (program (state vm)) (Z.to_nat (pc (state vm) + 1 + Z.of_nat k)) = Some instr /\
     i_type instr = END /\
     nesting 1 (firstn (S k) body) = 0 /\
     forall j, (j <= k)%nat -> 0 < nesting 1 (firstn j body)) \/
  (jumpToEnd vm = set_pc (Int.usize (Z.of_nat (length (program (state vm))) - 1)) vm /\
   forall j, 0 < nesting 1 (firstn j body)).
Proof.
  intros Hpc Hmax. cbv zeta. unfold jumpToEnd.
  assert (Hcur : Int.usize (pc (state vm) + 1) = pc (state vm) + 1)
    by (unfold Int.usize; apply Z.mod_small; lia).
  rewrite Hcur.
  pose proof (scan_end_spec (skipn (Z.to_nat (pc (state vm) + 1)) (program (state vm)))
                1 (pc (state vm) + 1) ltac:(lia)) as Hspec.
  destruct (scan_end 1 (pc (state vm) + 1)
              (skipn (Z.to_nat (pc (state vm) + 1)) (program (state vm)))) as [target |].
  - left. destruct Hspec as (k & instr & Ht & Hn & Hend & Hzero & Hpos).
    exists k, instr. split; [rewrite Ht; reflexivity |]. split; [| auto].
    rewrite nth_error_skipn in Hn.
    replace (Z.to_nat (pc (state vm) + 1 + Z.of_nat k))
      with (Z.to_nat (pc (state vm) + 1) + k)%nat by lia.
    exact Hn.
  - right. split; [reflexivity | exact Hspec].
Qed.

(** A run of [jumpToEnd_matching_end]: from the [WHILE] of [loop_listed],
    at index 6. *)
Lemma jumpToEnd_matching_end_witness :
  jumpToEnd (set_pc 6 (machine_with loop_listed)) = set_pc 17 (machine_with loop_listed) /\
  ((exists k instr,
      jumpToEnd (set_pc 6 (machine_with loop_listed)) =
        set_pc (6 + 1 + Z.of_nat k) (set_pc 6 (machine_with loop_listed)) /\
      nth_error loop_listed (Z.to_nat (6 + 1 + Z.of_nat k)) = Some instr /\
      i_type instr = END /\
      nesting 1 (firstn (S k) (skipn 7 loop_listed)) = 0 /\
      forall j, (j <= k)%nat -> 0 < nesting 1 (firstn j (skipn 7 loop_listed))) \/
   (jumpToEnd (set_pc 6 (machine_with loop_listed)) =
      set_pc (Int.usize (Z.of_nat (length loop_listed) - 1)) (set_pc 6 (machine_with loop_listed)) /\
    forall j, 0 < nesting 1 (firstn j (skipn 7 loop_listed)))).
Proof.
  split; [reflexivity |].
  exact (jumpToEnd_matching_end (set_pc 6 (machine_with loop_listed))
           ltac:(cbn; lia) ltac:(cbn; lia)).
Defined.

(** ** Where [GOTO] lands *)

Lemma find_label_spec (label : string) (prog : list Instruction) : forall i : Z,
  match find_label label i prog with
  | Some target =>
      exists (k : nat) (instr : Instruction),
        target = i + Z.of_nat k /\ nth_error prog k = Some instr /\
        labelled label instr = true /\
        forall (j : nat) (other : Instruction),
          (j < k)%nat -> nth_error prog j = Some other -> labelled label other = false
  | None => forall instr, In instr prog -> labelled label instr = false
  end.
Proof.
  induction prog as [| x prog IH]; intros i; cbn [find_label].
  - intros instr [].
  - fold (labelled label x). destruct (labelled label x) eqn:Ex.
    + exists O, x. split; [lia |]. split; [reflexivity |]. split; [exact Ex |].
      intros j other Hj. lia.
    + specialize (IH (i + 1)). destruct (find_label label (i + 1) prog) as [target |].
      * destruct IH as (k & instr & Ht & Hn & Hl & Hfirst).
        exists (S k), instr. split; [lia |]. split; [exact Hn |]. split; [exact Hl |].
        intros j other Hj Hother. destruct j as [| j].
        -- cbn in Hother. injection Hother as <-. exact Ex.
        -- apply (Hfirst j other); [lia | exact Hother].
      * intros instr [<- | Hin]; [exact Ex | exact (IH instr Hin)].
Qed.

(** X15.  [GOTO label] sets the program counter to the first [LABEL]
    instruction of the program whose first operand is [label], wherever
    the [GOTO] stands, and changes nothing else; when the program has no
    such instruction it raises the run-time error [Undefined label] and
    changes nothing. *)
Theorem goto_first_label (stod : string -> option float) (show_double : float -> string)
    (instr : Instruction) (vm : VirtualMachine) (label : string) (ops : list string) :
  i_type instr = GOTO -> operands instr = label :: ops ->
  (exists (k : nat) (target : Instruction),
     decodeAndExecute stod show_double instr vm = (set_pc (Z.of_nat k) vm, Returned true) /\
     nth_error (program (state vm)) k = Some target /\
     labelled label target = true /\
     forall (j : nat) (other : Instruction),
       (j < k)%nat -> nth_error (program (state vm)) j = Some other ->
       labelled label other = false) \/
  (decodeAndExecute stod show_double instr vm =
     (vm, Thrown (throw RuntimeError ("Undefined label: " ++ label) (i_line instr))) /\
   forall other, In other (program (state vm)) -> labelled label other = false).
Proof.
  intros Ht Hops. unfold decodeAndExecute. rewrite Ht, Hops.
  pose proof (find_label_spec label (program (state vm)) 0) as Hspec.
  destruct (find_label label 0 (program (state vm))) as [target |].
  - left. destruct Hspec as (k & t & Hk & Hn & Hl & Hfirst).
    exists k, t. rewrite Hk. split; [reflexivity |]. split; [exact Hn |].
    split; [exact Hl | exact Hfirst].
  - right. split; [reflexivity | exact Hspec].
Qed.

(** A run of [goto_first_label]: the [GOTO] of [spin_listed] lands on
    index 0. *)
Lemma goto_first_label_witness :
  decodeAndExecute (fun _ => None) (fun _ => EmptyString) (mkInstruction GOTO 2 ["L"%string])
    (machine_with spin_listed) = (set_pc 0 (machine_with spin_listed), Returned true) /\
  ((exists (k : nat) (target : Instruction),
      decodeAndExecute (fun _ => None) (fun _ => EmptyString) (mkInstruction GOTO 2 ["L"%string])
        (machine_with spin_listed) =
        (set_pc (Z.of_nat k) (machine_with spin_listed), Returned true) /\
      nth_error (program (state (machine_with spin_listed))) k = Some target /\
      labelled "L" target = true /\
      forall (j : nat) (other : Instruction),
        (j < k)%nat -> nth_error (program (state (machine_with spin_listed))) j = Some other ->
        labelled "L" other = false) \/
   (decodeAndExecute (fun _ => None) (fun _ => EmptyString) (mkInstruction GOTO 2 ["L"%string])
      (machine_with spin_listed) =
      (machine_with spin_listed,
       Thrown (throw RuntimeError ("Undefined label: " ++ "L") 2)) /\
    forall other, In other (program (state (machine_with spin_listed))) ->
                  labelled "L" other = false)).
Proof.
  split; [reflexivity |].
  exact (goto_first_label (fun _ => None) (fun _ => EmptyString)
           (mkInstruction GOTO 2 ["L"%string]) (machine_with spin_listed) "L"%string []
           eq_refl eq_refl).
Defined.

(** ** The decoder: line numbers and operands *)

Lemma opcode_of_not_DEBUG (instrName : string) : opcode_of instrName <> DEBUG.
Proof.
  unfold opcode_of.
  repeat match goal with
         | |- context [if ?b then _ else _] => destruct b
         end; discriminate.
Qed.

(** An instruction decoded from a line carries the number given for the
    line, and its opcode is never [DEBUG]. *)
Lemma parse_line_line lineNum line instr :
  parse_line lineNum line = Some instr -> i_line instr = lineNum /\ i_type instr <> DEBUG.
Proof.
  unfold parse_line.
  repeat match goal with
         | |- context [if ?b then _ else _] => destruct b
         end; try discriminate.
  - destruct (Str.tokens _) as [| instrName rest]; [discriminate |].
    intros H. injection H as <-. split; [reflexivity | apply opcode_of_not_DEBUG].
Qed.

Lemma wrap32_id (z : Z) : Int.in_int z -> Int.wrap32 z = z.
Proof.
  unfold Int.in_int, Int.INT_MIN, Int.INT_MAX, Int.wrap32, Int.wrap. intros H.
  rewrite Z.mod_small by lia. lia.
Qed.

Lemma parse_lines_spec (lines : list string) : forall (n : Z),
  0 <= n -> n + Z.of_nat (length lines) < 2 ^ 31 ->
  (forall instr, instr ∈ parse_lines n lines <->
     exists k line, lines !! k = Some line /\
                    parse_line (n + 1 + Z.of_nat k) line = Some instr) /\
  List.Forall (fun instr => n < i_line instr <= n + Z.of_nat (length lines)) (parse_lines n lines) /\
  StronglySorted Z.lt (map i_line (parse_lines n lines)) /\
  (length (parse_lines n lines) <= length lines)%nat.
Proof.
  induction lines as [| line lines IH]; intros n Hn Hmax.
  - cbn [parse_lines]. split; [| split; [constructor | split; [constructor | cbn; lia]]].
    intros instr. split; [intros H; apply elem_of_nil in H; destruct H |].
    intros (k & line & Hk & _). rewrite lookup_nil in Hk. discriminate.
  - cbn [length] in Hmax.
    destruct (IH (n + 1)) as (Hmem & Hrange & Hsorted & Hlen); [lia | lia |].
    assert (Hrange' : List.Forall (fun instr => n + 1 < i_line instr <=
                                                n + Z.of_nat (length (line :: lines)))
                        (parse_lines (n + 1) lines)).
    { eapply List.Forall_impl; [| exact Hrange]. cbn [length]. intros a Ha. cbn beta in Ha |- *. cbn [length] in Ha |- *. lia. }
    assert (Hmem' : forall instr,
              (exists k l, (line :: lines) !! k = Some l /\
                           parse_line (n + 1 + Z.of_nat k) l = Some instr) <->
              parse_line (n + 1) line = Some instr \/ instr ∈ parse_lines (n + 1) lines).
    { intros instr. rewrite Hmem. split.
      - intros (k & l & Hk & Hp). destruct k as [| k].
        + cbn in Hk. injection Hk as <-. left. rewrite Z.add_0_r in Hp. exact Hp.
        + right. exists k, l. split; [exact Hk |].
          replace (n + 1 + 1 + Z.of_nat k) with (n + 1 + Z.of_nat (S k)) by lia. exact Hp.
      - intros [Hp | (k & l & Hk & Hp)].
        + exists O, line. split; [reflexivity |]. rewrite Z.add_0_r. exact Hp.
        + exists (S k), l. split; [exact Hk |].
          replace (n + 1 + Z.of_nat (S k)) with (n + 1 + 1 + Z.of_nat k) by lia. exact Hp. }
    cbn [parse_lines]. cbv zeta.
    rewrite wrap32_id by (unfold Int.in_int, Int.INT_MIN, Int.INT_MAX; lia).
    destruct (parse_line (n + 1) line) as [instr0 |] eqn:E.
    + destruct (parse_line_line _ _ _ E) as [Hline _].
      split; [| split; [| split]].
      * intros instr. rewrite Hmem', elem_of_cons. split.
        -- intros [-> | H]; [left; reflexivity | right; exact H].
        -- intros [H | H]; [left; congruence | right; exact H].
      * constructor; [cbn [length]; lia |].
        eapply List.Forall_impl; [| exact Hrange']. intros a Ha. cbn beta in Ha |- *. cbn [length] in Ha |- *. lia.
      * cbn [map]. constructor; [exact Hsorted |].
        apply List.Forall_map. eapply List.Forall_impl; [| exact Hrange']. intros a Ha. cbn beta in Ha |- *. cbn [length] in Ha |- *. lia.
      * cbn [length]. lia.
    + split; [| split; [| split]].
      * intros instr. rewrite Hmem'. split; [auto |]. intros [H | H]; [discriminate | exact H].
      * eapply List.Forall_impl; [| exact Hrange']. intros a Ha. cbn beta in Ha |- *. cbn [length] in Ha |- *. lia.
      * exact Hsorted.
      * cbn [length]. lia.
Qed.

(** X16.  On a text of fewer than 2^31 lines, [parseIR] decodes the lines
    one by one: an instruction is in the program exactly when some line
    decodes to it under its 1-based number, so every instruction carries
    the number of its line; the line numbers increase strictly along the
    program; there are no more instructions than lines; and no instruction
    is a [DEBUG]. *)
Theorem parseIR_line_numbers (irCode : string) :
  Z.of_nat (length (Str.getlines irCode)) < 2 ^ 31 ->
  (forall instr, instr ∈ parseIR irCode <->
     exists k line, Str.getlines irCode !! k = Some line /\
                    parse_line (Z.of_nat k + 1) line = Some instr) /\
  StronglySorted Z.lt (map i_line (parseIR irCode)) /\
  (length (parseIR irCode) <= length (Str.getlines irCode))%nat /\
  List.Forall (fun instr => 1 <= i_line instr <= Z.of_nat (length (Str.getlines irCode)) /\
                            i_type instr <> DEBUG) (parseIR irCode).
Proof.
  intros Hmax. unfold parseIR.
  destruct (parse_lines_spec (Str.getlines irCode) 0 ltac:(lia) ltac:(lia))
    as (Hmem & Hrange & Hsorted & Hlen).
  split; [| split; [exact Hsorted | split; [exact Hlen |]]].
  - intros instr. rewrite Hmem. split; intros (k & line & Hk & Hp); exists k, line;
      (split; [exact Hk |]).
    + replace (Z.of_nat k + 1) with (0 + 1 + Z.of_nat k) by lia. exact Hp.
    + replace (0 + 1 + Z.of_nat k) with (Z.of_nat k + 1) by lia. exact Hp.
  - apply List.Forall_forall. intros instr Hin.
    pose proof (proj1 (List.Forall_forall _ _) Hrange instr Hin) as Hr. cbn beta in Hr.
    split; [lia |].
    apply list_elem_of_In in Hin. apply Hmem in Hin as (k & line & _ & Hp).
    exact (proj2 (parse_line_line _ _ _ Hp)).
Qed.

(** A run of [parseIR_line_numbers] on the text of the counting loop: 18
    lines, 18 instructions, numbered 1 to 18. *)
Lemma parseIR_line_numbers_witness :
  map i_line (parseIR loop_ir) = [1; 2; 3; 4; 5; 6; 7; 8; 9; 10; 11; 12; 13; 14; 15; 16; 17; 18] /\
  StronglySorted Z.lt (map i_line (parseIR loop_ir)) /\
  List.Forall (fun instr => 1 <= i_line instr <= Z.of_nat (length (Str.getlines loop_ir)) /\
                            i_type instr <> DEBUG) (parseIR loop_ir).
Proof.
  split; [vm_compute; reflexivity |].
  pose proof (parseIR_line_numbers loop_ir ltac:(vm_compute; reflexivity)) as H.
  destruct H as (_ & Hsorted & _ & Hall). split; [exact Hsorted | exact Hall].
Defined.

(** The counter is an [int]: behind line [INT_MAX] the embedding wraps
    it. *)
Example line_counter_is_int :
  map i_line (parse_lines Int.INT_MAX ["NOP"%string]) = [Int.INT_MIN].
Proof. vm_compute. reflexivity. Qed.

Lemma back_snoc (s : string) (c : ascii) : Str.back (s ++ String c EmptyString) = Some c.
Proof.
  induction s as [| a s IH]; [reflexivity |].
  change (Str.back (String a (s ++ String c EmptyString)) = Some c).
  destruct (s ++ String c EmptyString)%string eqn:E; [| exact IH].
  destruct s; discriminate E.
Qed.

Lemma pop_back_snoc (s : string) (c : ascii) : Str.pop_back (s ++ String c EmptyString) = s.
Proof.
  induction s as [| a s IH]; [reflexivity |].
  change (Str.pop_back (String a (s ++ String c EmptyString)) = String a s).
  destruct (s ++ String c EmptyString)%string eqn:E.
  - destruct s; discriminate E.
  - cbn [Str.pop_back] in IH |- *. rewrite IH. reflexivity.
Qed.

Lemma length_snoc (s : string) (c : ascii) :
  String.length (s ++ String c EmptyString) = S (String.length s).
Proof.
  induction s as [| a s IH]; [reflexivity |].
  change (S (String.length (s ++ String c EmptyString)) = S (S (String.length s))).
  rewrite IH. reflexivity.
Qed.

Lemma take_snoc (s : string) (c : ascii) :
  Str.take (String.length s) (s ++ String c EmptyString) = s.
Proof.
  induction s as [| a s IH]; [reflexivity |].
  change (String a (Str.take (String.length s) (s ++ String c EmptyString)) = String a s).
  rewrite IH. reflexivity.
Qed.

(** X17.  What the operand loop does to a token.  A token between double
    quotes loses both quotes, whatever is between them; a token followed
    by a comma loses the comma and nothing else, so a quoted token
    followed by a comma keeps its quotes. *)
Theorem decode_operand_cases (s : string) :
  Z.of_nat (String.length s) < 2 ^ 64 ->
  decode_operand (quoted s) = s /\
  decode_operand (s ++ ",") = s /\
  decode_operand (quoted s ++ ",") = quoted s.
Proof.
  intros Hlen.
  assert (Hcomma : forall t : string, decode_operand (t ++ ",") = t).
  { intros t. unfold decode_operand. rewrite back_snoc.
    assert (Hq : Str.eqb_ascii ","%char Str.quote = false) by reflexivity.
    rewrite Hq, andb_false_r. cbn [Str.eqb_ascii Ascii.eqb]. cbn.
    apply pop_back_snoc. }
  split; [| split; [apply Hcomma | apply Hcomma]].
  unfold decode_operand.
  assert (Hback : Str.back (quoted s) = Some Str.quote)
    by apply (back_snoc (String Str.quote s)).
  assert (Hlength : String.length (quoted s) = S (S (String.length s)))
    by apply (length_snoc (String Str.quote s)).
  assert (Hfront : Str.front (quoted s) = Some Str.quote) by reflexivity.
  rewrite Hback, Hfront, Hlength.
  assert (Hq : Str.eqb_ascii Str.quote Str.quote = true) by reflexivity.
  rewrite Hq. cbn [Nat.leb andb].
  unfold Str.substr. rewrite Hlength.
  assert (Hn : Int.usize (Z.of_nat (S (S (String.length s))) - 2) = Z.of_nat (String.length s)).
  { unfold Int.usize. rewrite Z.mod_small by lia. lia. }
  rewrite Hn.
  replace (Z.to_nat (Z.min (Z.of_nat (String.length s))
                       (Z.of_nat (S (S (String.length s))) - 1)))
    with (String.length s) by lia.
  change (Str.drop (Z.to_nat 1) (quoted s)) with (s ++ String Str.quote EmptyString)%string.
  apply take_snoc.
Qed.

(** A run of [decode_operand_cases]. *)
Lemma decode_operand_cases_witness :
  decode_operand (quoted "foo") = "foo"%string /\
  decode_operand ("foo" ++ ",") = "foo"%string /\
  decode_operand (quoted "foo" ++ ",") = quoted "foo".
Proof. apply decode_operand_cases. cbn. lia. Defined.

(** ** Conversions between integers and text *)

Lemma read_digits_string_of_uint (d : Decimal.uint) : forall acc : Z,
  Str.read_digits acc true (NilEmpty.string_of_uint d) = Some (digits_value d acc).
Proof.
  induction d as [| d IH | d IH | d IH | d IH | d IH | d IH | d IH | d IH | d IH | d IH];
    intros acc; [reflexivity | exact (IH _) ..].
Qed.

Lemma digits_value_acc (d : Decimal.uint) : forall p : positive,
  digits_value d (Z.pos p) = Z.pos (Pos.of_uint_acc d p).
Proof.
  induction d as [| d IH | d IH | d IH | d IH | d IH | d IH | d IH | d IH | d IH | d IH];
    intros p; cbn [digits_value Pos.of_uint_acc]; [reflexivity | ..];
    match goal with
    | |- digits_value d ?a = Z.pos (Pos.of_uint_acc d ?q) =>
        replace a with (Z.pos q) by lia; apply IH
    end.
Qed.

Lemma digits_value_of_uint (d : Decimal.uint) :
  digits_value d 0 = Z.of_N (Pos.of_uint d).
Proof.
  induction d as [| d IH | d IH | d IH | d IH | d IH | d IH | d IH | d IH | d IH | d IH];
    cbn [digits_value Pos.of_uint]; [reflexivity | exact IH | ..];
    match goal with
    | |- digits_value d ?a = Z.of_N (N.pos (Pos.of_uint_acc d ?q)) =>
        change a with (Z.pos q); apply digits_value_acc
    end.
Qed.

(** [std::stoi] reads back the digits [operator<<] writes for a positive
    number. *)
Lemma read_digits_to_uint (p : positive) :
  NilZero.string_of_uint (Pos.to_uint p) = NilEmpty.string_of_uint (Pos.to_uint p) /\
  Str.read_digits 0 false (NilEmpty.string_of_uint (Pos.to_uint p)) = Some (Z.pos p) /\
  Str.skip_space (NilEmpty.string_of_uint (Pos.to_uint p)) =
    NilEmpty.string_of_uint (Pos.to_uint p) /\
  match NilEmpty.string_of_uint (Pos.to_uint p) with
  | String c _ => Str.eqb_ascii c "-"%char = false /\ Str.eqb_ascii c "+"%char = false
  | EmptyString => False
  end.
Proof.
  pose proof (DecimalPos.Unsigned.of_to p) as Hof.
  pose proof (digits_value_of_uint (Pos.to_uint p)) as Hval. rewrite Hof in Hval.
  change (Z.of_N (N.pos p)) with (Z.pos p) in Hval.
  pose proof (read_digits_string_of_uint (Pos.to_uint p)) as Hread.
  destruct (Pos.to_uint p) as [| d | d | d | d | d | d | d | d | d | d];
    [discriminate Hof | ..];
    (split; [reflexivity |]); (split; [| split; [reflexivity | split; reflexivity]]);
    cbn [digits_value] in Hval; rewrite <- Hval; exact (Hread _).
Qed.

Lemma stoi_to_string (z : Z) :
  Int.in_int z -> Str.stoi (Int.to_string z) = Some z.
Proof.
  intros [Hlo Hhi]. unfold Int.to_string, Z.to_int.
  assert (Hrange : (Int.INT_MIN <=? z) && (z <=? Int.INT_MAX) = true).
  { apply andb_true_iff. split; apply Z.leb_le; assumption. }
  destruct z as [| p | p].
  - reflexivity.
  - destruct (read_digits_to_uint p) as (Hs & Hread & Hskip & Hsign).
    cbn [NilZero.string_of_int]. rewrite Hs. unfold Str.stoi. rewrite Hskip.
    destruct (NilEmpty.string_of_uint (Pos.to_uint p)) as [| c r] eqn:E; [destruct Hsign |].
    destruct Hsign as [Hm Hp]. rewrite Hm, Hp, Hread, Hrange. reflexivity.
  - destruct (read_digits_to_uint p) as (Hs & Hread & Hskip & Hsign).
    cbn [NilZero.string_of_int]. rewrite Hs. unfold Str.stoi.
    cbn [Str.skip_space].
    assert (Hns : Str.isspace "-"%char = false) by reflexivity. rewrite Hns.
    assert (Hm : Str.eqb_ascii "-"%char "-"%char = true) by reflexivity. rewrite Hm.
    rewrite Hread. change (- Z.pos p) with (Z.neg p). rewrite Hrange. reflexivity.
Qed.

(** A number outside [int] written out and read back is refused. *)
Lemma stoi_to_string_out_of_range (z : Z) :
  ~ Int.in_int z -> Str.stoi (Int.to_string z) = None.
Proof.
  intros Hout. unfold Int.to_string, Z.to_int.
  assert (Hrange : (Int.INT_MIN <=? z) && (z <=? Int.INT_MAX) = false).
  { apply andb_false_iff. unfold Int.in_int in Hout.
    destruct (Z.leb_spec Int.INT_MIN z); [| left; reflexivity].
    right. apply Z.leb_gt. lia. }
  destruct z as [| p | p].
  - exfalso. apply Hout. unfold Int.in_int, Int.INT_MIN, Int.INT_MAX. lia.
  - destruct (read_digits_to_uint p) as (Hs & Hread & Hskip & Hsign).
    cbn [NilZero.string_of_int]. rewrite Hs. unfold Str.stoi. rewrite Hskip.
    destruct (NilEmpty.string_of_uint (Pos.to_uint p)) as [| c r] eqn:E; [destruct Hsign |].
    destruct Hsign as [Hm Hp]. rewrite Hm, Hp, Hread, Hrange. reflexivity.
  - destruct (read_digits_to_uint p) as (Hs & Hread & Hskip & Hsign).
    cbn [NilZero.string_of_int]. rewrite Hs. unfold Str.stoi.
    cbn [Str.skip_space].
    assert (Hns : Str.isspace "-"%char = false) by reflexivity. rewrite Hns.
    assert (Hm : Str.eqb_ascii "-"%char "-"%char = true) by reflexivity. rewrite Hm.
    rewrite Hread. change (- Z.pos p) with (Z.neg p). rewrite Hrange. reflexivity.
Qed.

(** X18.  [int(string(x))] for an integer [x]: a value that fits [int]
    comes back as the [int] it is, whichever alternative it was held in;
    an [int64_t] that does not fit comes back as 0, where [int(x)] alone
    wraps it to 32 bits. *)
Theorem int_of_string_round_trip (to_string_double : float -> string) (n : Z) :
  (Int.in_int n ->
     builtin_int [builtin_string to_string_double [VInt n]] = Ok (VInt n) /\
     builtin_int [builtin_string to_string_double [VLong n]] = Ok (VInt n)) /\
  (~ Int.in_int n ->
     builtin_int [builtin_string to_string_double [VLong n]] = Ok (VInt 0) /\
     builtin_int [VLong n] = Ok (VInt (Int.wrap32 n))).
Proof.
  split.
  - intros Hn. cbn [builtin_string builtin_int]. rewrite (stoi_to_string n Hn). split; reflexivity.
  - intros Hn. cbn [builtin_string builtin_int]. rewrite (stoi_to_string_out_of_range n Hn).
    split; reflexivity.
Qed.

(** A run of [int_of_string_round_trip]: inside [int] at -42, outside at
    [2^31]. *)
Lemma int_of_string_round_trip_witness :
  builtin_int [builtin_string (fun _ => EmptyString) [VInt (-42)]] = Ok (VInt (-42)) /\
  builtin_int [builtin_string (fun _ => EmptyString) [VLong (2 ^ 31)]] = Ok (VInt 0) /\
  builtin_int [VLong (2 ^ 31)] = Ok (VInt (- 2 ^ 31)).
Proof.
  destruct (int_of_string_round_trip (fun _ => EmptyString) (-42)) as [Hin _].
  destruct (int_of_string_round_trip (fun _ => EmptyString) (2 ^ 31)) as [_ Hout].
  split; [apply Hin; unfold Int.in_int, Int.INT_MIN, Int.INT_MAX; lia |].
  apply Hout. unfold Int.in_int, Int.INT_MIN, Int.INT_MAX. lia.
Defined.

(** ** [substr] *)

Lemma wrap32_above (z : Z) : 2 ^ 31 <= z < 2 ^ 32 -> Int.wrap32 z = z - 2 ^ 32.
Proof.
  unfold Int.wrap32, Int.wrap. intros H.
  replace (z + 2 ^ (32 - 1)) with (z - 2 ^ 31 + 1 * 2 ^ 32) by lia.
  rewrite Z.mod_add by lia. rewrite Z.mod_small by lia. lia.
Qed.

Lemma length_drop (k : nat) : forall s : string,
  String.length (Str.drop k s) = (String.length s - k)%nat.
Proof.
  induction k as [| k IH]; intros s; [cbn; lia |].
  destruct s as [| c s]; [reflexivity |]. cbn [Str.drop String.length]. rewrite IH. lia.
Qed.

Lemma take_all (k : nat) : forall s : string,
  (String.length s <= k)%nat -> Str.take k s = s.
Proof.
  induction k as [| k IH]; intros s Hk.
  - destruct s; [reflexivity | cbn in Hk; lia].
  - destruct s as [| c s]; [reflexivity |]. cbn [Str.take]. f_equal. apply IH.
    cbn [String.length] in Hk. lia.
Qed.

Lemma drop_all (k : nat) : forall s : string,
  (String.length s <= k)%nat -> Str.drop k s = EmptyString.
Proof.
  induction k as [| k IH]; intros s Hk.
  - destruct s; [reflexivity | cbn in Hk; lia].
  - destruct s as [| c s]; [reflexivity |]. cbn [Str.drop]. apply IH.
    cbn [String.length] in Hk. lia.
Qed.

Lemma length_take (k : nat) : forall s : string,
  String.length (Str.take k s) = Nat.min k (String.length s).
Proof.
  induction k as [| k IH]; intros s; [reflexivity |].
  destruct s as [| c s]; [reflexivity |]. cbn [Str.take String.length]. rewrite IH. lia.
Qed.

(** [s.substr(pos, len)] with [pos] inside the string is the [len]
    characters that follow the first [pos], or as many as there are. *)
Lemma substr_take_drop (pos len : Z) (s : string) :
  0 <= pos <= Z.of_nat (String.length s) -> 0 <= len ->
  Str.substr pos len s = Str.take (Z.to_nat len) (Str.drop (Z.to_nat pos) s).
Proof.
  intros Hpos Hlen. unfold Str.substr.
  destruct (Z.le_ge_cases len (Z.of_nat (String.length s) - pos)) as [Hle | Hge].
  - rewrite Z.min_l by exact Hle. reflexivity.
  - rewrite Z.min_r by exact Hge.
    rewrite !take_all; [reflexivity | |]; rewrite length_drop; lia.
Qed.

(** X19.  [substr(s, start, length)] never fails: a negative [start] or
    [length] counts as 0, and what reaches past the end of [s] is cut off.
    The result is the [length] characters of [s] from position [start] on,
    or as many as there are; without a [length], all of them. *)
Theorem substr_clamps (str : string) (start len : Z) :
  Z.of_nat (String.length str) < 2 ^ 31 -> Int.in_int start -> Int.in_int len ->
  builtin_substr [VString str; VInt start; VInt len] =
    VString (Str.take (Z.to_nat len) (Str.drop (Z.to_nat start) str)) /\
  builtin_substr [VString str; VInt start] = VString (Str.drop (Z.to_nat start) str).
Proof.
  unfold Int.in_int, Int.INT_MIN, Int.INT_MAX. intros Hn Hstart Hlen.
  assert (Hsize : Int.wrap32 (Z.of_nat (String.length str)) = Z.of_nat (String.length str)).
  { apply wrap32_id. unfold Int.in_int, Int.INT_MIN, Int.INT_MAX. lia. }
  unfold builtin_substr. rewrite Hsize.
  set (n := Z.of_nat (String.length str)) in *.
  set (start' := if start <? 0 then 0 else start).
  assert (Hs' : 0 <= start' < 2 ^ 31 /\ Z.to_nat start' = Z.to_nat start).
  { unfold start'. destruct (Z.ltb_spec start 0); split; lia. }
  destruct Hs' as [Hs' Hnat]. rewrite <- Hnat.
  destruct (Z.leb_spec n start') as [Hout | Hin].
  { rewrite drop_all by (fold n; lia). split; [| reflexivity].
    destruct (Z.to_nat len); reflexivity. }
  assert (Hfinal : forall length : Z, 0 <= length < 2 ^ 31 ->
            Str.substr start'
              (Int.usize (if n <? Int.wrap32 (start' + length)
                          then Int.wrap32 (n - start') else length)) str =
            Str.take (Z.to_nat length) (Str.drop (Z.to_nat start') str)).
  { intros length Hl.
    assert (Hrest : Int.wrap32 (n - start') = n - start')
      by (apply wrap32_id; unfold Int.in_int, Int.INT_MIN, Int.INT_MAX; lia).
    rewrite Hrest.
    assert (Hlong : n - start' <= length ->
              Str.take (Z.to_nat length) (Str.drop (Z.to_nat start') str) =
              Str.take (Z.to_nat (n - start')) (Str.drop (Z.to_nat start') str)).
    { intros Hge. rewrite !take_all; [reflexivity | |]; rewrite length_drop; fold n; lia. }
    destruct (Z.lt_ge_cases (start' + length) (2 ^ 31)) as [Hsmall | Hbig].
    - rewrite (wrap32_id (start' + length))
        by (unfold Int.in_int, Int.INT_MIN, Int.INT_MAX; lia).
      destruct (Z.ltb_spec n (start' + length)) as [Hcut | Hfit].
      + unfold Int.usize. rewrite Z.mod_small by lia.
        rewrite substr_take_drop by (fold n; lia). symmetry. apply Hlong. lia.
      + unfold Int.usize. rewrite Z.mod_small by lia.
        apply substr_take_drop; fold n; lia.
    - rewrite (wrap32_above (start' + length)) by lia.
      rewrite (proj2 (Z.ltb_ge n (start' + length - 2 ^ 32))) by lia.
      unfold Int.usize. rewrite Z.mod_small by lia.
      apply substr_take_drop; fold n; lia. }
  split.
  - cbv zeta.
    set (len' := if len <? 0 then 0 else len).
    assert (Hl' : 0 <= len' < 2 ^ 31 /\ Z.to_nat len' = Z.to_nat len).
    { unfold len'. destruct (Z.ltb_spec len 0); split; lia. }
    destruct Hl' as [Hl' Hlnat]. rewrite <- Hlnat. f_equal. apply Hfinal. exact Hl'.
  - cbv zeta. rewrite (proj2 (Z.ltb_ge n 0)) by lia. f_equal.
    rewrite Hfinal by lia. apply take_all. rewrite length_drop. fold n. lia.
Qed.

(** A run of [substr_clamps]: a negative start and a length past the end. *)
Lemma substr_clamps_witness :
  builtin_substr [VString "steve"; VInt (-3); VInt 99] = VString "steve" /\
  builtin_substr [VString "steve"; VInt 2] = VString "eve".
Proof.
  split.
  - exact (proj1 (substr_clamps "steve" (-3) 99 ltac:(cbn; lia)
                    ltac:(unfold Int.in_int, Int.INT_MIN, Int.INT_MAX; lia)
                    ltac:(unfold Int.in_int, Int.INT_MIN, Int.INT_MAX; lia))).
  - exact (proj2 (substr_clamps "steve" 2 0 ltac:(cbn; lia)
                    ltac:(unfold Int.in_int, Int.INT_MIN, Int.INT_MAX; lia)
                    ltac:(unfold Int.in_int, Int.INT_MIN, Int.INT_MAX; lia))).
Defined.

(** ** [CALL] *)

Section CallFacts.

Variable stod : string -> option float.
Variable show_double : float -> string.
Variable to_string_double : float -> string.
Variable sizeof_string : Z.
Variable opened : bool.
Variables obj data : Z.

(** X20.  [CALL] hands a builtin the top of the stack as its only
    argument.  The builtins that need two arguments therefore take their
    fallback whatever the stack holds: [substr] yields the empty string,
    [pow] yields 1.0, [append] gives its argument back unchanged, and
    [write] reports an invalid handle and yields -1. *)
Theorem call_hands_over_one_argument (instr : Instruction) (vm : VirtualMachine)
    (ops : list string) (v : Value) (rest : list Value) :
  stack (state vm) = v :: rest ->
  (operands instr = "substr"%string :: ops ->
     call stod show_double to_string_double sizeof_string opened obj data instr vm =
       (push (VString EmptyString) (set_stack rest vm), Returned true)) /\
  (operands instr = "pow"%string :: ops ->
     call stod show_double to_string_double sizeof_string opened obj data instr vm =
       (push (VDouble PrimFloat.one) (set_stack rest vm), Returned true)) /\
  (operands instr = "append"%string :: ops ->
     call stod show_double to_string_double sizeof_string opened obj data instr vm =
       (push v (set_stack rest vm), Returned true)) /\
  (operands instr = "write"%string :: ops ->
     call stod show_double to_string_double sizeof_string opened obj data instr vm =
       (push (VInt (-1))
          (put_cerr ("Error: Invalid file handle for write" ++ Str.newline)%string
             (set_stack rest vm)),
        Returned true)).
Proof.
  intros Hstack.
  repeat split; intros Hops; unfold call; cbv zeta; rewrite Hops, Hstack;
    destruct v; reflexivity.
Qed.

(** X21.  A [CALL] of a user function followed by a [RETURN] that finds
    the return address on top of the stack: the call jumps to the
    function's entry; the return comes back to the call with the stack as
    it was before the call.  The call pushes no scope, and the return pops
    one when there is more than one. *)
Theorem call_return_round_trip (instr ret : Instruction) (vm : VirtualMachine)
    (name : string) (ops : list string) (target : Z) :
  operands instr = name :: ops ->
  builtInFunctions stod show_double to_string_double sizeof_string opened obj data name = None ->
  functions (state vm) !! name = Some target ->
  0 <= pc (state vm) < 2 ^ 31 ->
  i_type ret = RETURN ->
  let called := call stod show_double to_string_double sizeof_string opened obj data instr vm in
  called.2 = Returned true /\
  pc (state called.1) = target /\
  stack (state called.1) = VInt (pc (state vm)) :: stack (state vm) /\
  scopes (state called.1) = scopes (state vm) /\
  decodeAndExecute stod show_double ret called.1 =
    (set_scopes (match scopes (state vm) with
                 | _ :: (_ :: _) as outer => outer
                 | s => s
                 end) vm,
     Returned true).
Proof.
  intros Hops Hnot Hfun Hpc Hret. cbv zeta.
  unfold call. cbv zeta. rewrite Hops, Hnot, Hfun. cbn [fst snd].
  assert (Hwrap : Int.wrap32 (pc (state vm)) = pc (state vm))
    by (apply wrap32_id; unfold Int.in_int, Int.INT_MIN, Int.INT_MAX; lia).
  rewrite Hwrap.
  split; [reflexivity |]. split; [reflexivity |]. split; [reflexivity |].
  split; [reflexivity |].
  unfold decodeAndExecute. rewrite Hret.
  cbn [state stack scopes set_pc push set_stack set_state].
  assert (Hsize : Int.usize (pc (state vm)) = pc (state vm))
    by (unfold Int.usize; apply Z.mod_small; lia).
  rewrite Hsize.
  destruct vm as [st g j fh nf mo no sg co ce]. destruct st as [p r sc prog stk vars funs].
  cbn. destruct sc as [| s0 [| s1 sc]]; reflexivity.
Qed.

End CallFacts.

(** A run of [call_hands_over_one_argument]: [append] on a stack holding
    a list. *)
Lemma call_hands_over_one_argument_witness :
  call (fun _ => None) (fun _ => EmptyString) (fun _ => EmptyString) 32 false 0 0
    (mkInstruction CALL 1 ["append"%string])
    (push (VList [VInt 1]) VirtualMachine_new) =
  (push (VList [VInt 1]) (set_stack [] (push (VList [VInt 1]) VirtualMachine_new)),
   Returned true).
Proof.
  exact (proj1 (proj2 (proj2
    (call_hands_over_one_argument (fun _ => None) (fun _ => EmptyString)
       (fun _ => EmptyString) 32 false 0 0 (mkInstruction CALL 1 ["append"%string])
       (push (VList [VInt 1]) VirtualMachine_new) [] (VList [VInt 1]) [] eq_refl))) eq_refl).
Defined.

(** A run of [call_return_round_trip]: a machine that knows a function [f]
    at index 4 and is at index 9. *)
Lemma call_return_round_trip_witness :
  let vm := set_pc 9 (set_functions (<[ "f"%string := 4 ]> ∅) VirtualMachine_new) in
  let called := call (fun _ => None) (fun _ => EmptyString) (fun _ => EmptyString) 32 false 0 0
                  (mkInstruction CALL 1 ["f"%string]) vm in
  pc (state called.1) = 4 /\
  decodeAndExecute (fun _ => None) (fun _ => EmptyString) (mkInstruction RETURN 2 []) called.1 =
    (set_scopes [∅] vm, Returned true).
Proof.
  cbv zeta.
  assert (Hfun : functions (state (set_pc 9 (set_functions (<[ "f"%string := 4 ]> ∅)
                                             VirtualMachine_new))) !! "f"%string = Some 4)
    by (vm_compute; reflexivity).
  assert (Hpc : 0 <= pc (state (set_pc 9 (set_functions (<[ "f"%string := 4 ]> ∅)
                                            VirtualMachine_new))) < 2 ^ 31)
    by (cbn; lia).
  destruct (call_return_round_trip (fun _ => None) (fun _ => EmptyString)
              (fun _ => EmptyString) 32 false 0 0
              (mkInstruction CALL 1 ["f"%string]) (mkInstruction RETURN 2 []) _
              "f"%string [] 4 eq_refl eq_refl Hfun Hpc eq_refl)
    as (_ & Hjump & _ & _ & Hret).
  split; [exact Hjump | exact Hret].
Defined.

(** ** [new] and [deref] *)

(** X22.  [new(t)] when [std::malloc] succeeds: the pointer returned is not
    null and has type [t]; the object is registered under the next object
    id and no other entry changes; [type] of the pointer is [t] and
    [deref] of it is the tag for [t], never [null].  When [std::malloc]
    fails, the machine is unchanged and the null pointer is returned. *)
Theorem new_then_deref (sizeof_string : Z) (obj data : Z) (t : string) (vm : VirtualMachine) :
  obj <> 0 ->
  (forall k entry, managedObjects vm !! k = Some entry -> entry.1 <> obj) ->
  let r := builtin_new sizeof_string obj data [VString t] vm in
  (data <> 0 ->
     (exists p, r.2 = VPointer p /\ isNull p = false /\ pv_type p = t /\ pv_ptr p = data) /\
     (exists size, managedObjects r.1 !! nextObjectId vm =
                     Some (obj, ManagedObject_new data t size)) /\
     (forall k, k <> nextObjectId vm -> managedObjects r.1 !! k = managedObjects vm !! k) /\
     nextObjectId r.1 = Int.wrap64 (nextObjectId vm + 1) /\
     builtin_type [r.2] = VString t /\
     builtin_deref [r.2] r.1 = Ok (VString ("[ptr_data:" ++ t ++ "]"))) /\
  (data = 0 ->
     r = (vm, VPointer PointerValue_default) /\
     builtin_deref [r.2] r.1 = Ok (VString "null")).
Proof.
  intros Hobj Hfresh. cbv zeta. unfold builtin_new. split.
  - intros Hdata. rewrite (proj2 (Z.eqb_neq data 0) Hdata). cbn [fst snd].
    unfold PointerValue_of_obj. rewrite (proj2 (Z.eqb_neq obj 0) Hobj).
    cbn [mo_data ManagedObject_new].
    split; [eexists; repeat split; reflexivity |].
    split; [eexists; cbn [set_managed managedObjects]; apply lookup_insert_eq |].
    split; [intros k Hk; cbn [set_managed managedObjects]; apply lookup_insert_ne; congruence |].
    split; [reflexivity |]. split; [reflexivity |].
    unfold builtin_deref. cbn [isNull pv_obj pv_type negb andb].
    rewrite (proj2 (Z.eqb_neq obj 0) Hobj). cbn [negb].
    unfold object_at. cbn [set_managed managedObjects].
    match goal with
    | |- context [List.find ?f ?l] => destruct (List.find f l) as [entry |] eqn:E
    end.
    + apply find_some in E as [Hin Hpred]. apply Z.eqb_eq in Hpred.
      apply list_elem_of_In in Hin. destruct entry as [k [addr managed]].
      apply elem_of_map_to_list in Hin. cbn [fst snd] in Hpred. subst addr.
      destruct (decide (k = nextObjectId vm)) as [-> | Hne].
      * rewrite lookup_insert_eq in Hin. injection Hin as <-.
        cbn [option_map snd mo_data ManagedObject_new].
        rewrite (proj2 (Z.eqb_neq data 0) Hdata). reflexivity.
      * rewrite lookup_insert_ne in Hin by congruence.
        exfalso. exact (Hfresh k _ Hin eq_refl).
    + exfalso.
      match type of E with
      | List.find ?f ?l = None =>
          pose proof (find_none f l E
                        (nextObjectId vm,
                         (obj, mkManagedObject data t
                                 (if String.eqb t "int" || String.eqb t "bool" then 4
                                  else if String.eqb t "float" || String.eqb t "double" then 8
                                  else if String.eqb t "string" then sizeof_string else 8)
                                 false))) as Hnone
      end.
      cbn [fst snd] in Hnone. rewrite Z.eqb_refl in Hnone.
      assert (Habs : true = false); [| discriminate Habs].
      apply Hnone. apply list_elem_of_In. apply elem_of_map_to_list. apply lookup_insert_eq.
  - intros ->. cbn [Z.eqb]. split; reflexivity.
Qed.

(** A run of [new_then_deref] on a new machine. *)
Lemma new_then_deref_witness :
  builtin_deref [(builtin_new 32 4096 8192 [VString "int"] VirtualMachine_new).2]
    (builtin_new 32 4096 8192 [VString "int"] VirtualMachine_new).1 =
  Ok (VString "[ptr_data:int]").
Proof.
  assert (Hfresh : forall k entry,
            managedObjects VirtualMachine_new !! k = Some entry -> entry.1 <> 4096).
  { intros k entry H. cbn in H. rewrite lookup_empty in H. discriminate H. }
  destruct (new_then_deref 32 4096 8192 "int" VirtualMachine_new ltac:(lia) Hfresh)
    as [Hok _].
  destruct (Hok ltac:(lia)) as (_ & _ & _ & _ & _ & Hderef). exact Hderef.
Defined.

(** ** Sequences of [open] and [close] *)

Lemma handles_of_cons (v : Value) (rest : list Value) :
  handles_of (v :: rest) = handles_of [v] ++ handles_of rest.
Proof.
  destruct v; try reflexivity. cbn [handles_of]. destruct (isNull p); reflexivity.
Qed.

Lemma file_step_same (vm vm' : VirtualMachine) (v : Value) :
  files_inv vm -> fileHandles vm' = fileHandles vm ->
  managedObjects vm' = managedObjects vm ->
  nextFileHandleId vm' = nextFileHandleId vm -> handles_of [v] = [] ->
  is_pointer v = true \/ v = VInt (-1) ->
  file_step vm vm' v.
Proof.
  intros [H1000 Hinv] Hfh Hmo Hnext Hv Hshape. unfold file_step, files_inv.
  rewrite Hfh, Hmo, Hnext. split; [split; assumption |]. split; [lia |].
  split; [auto |]. split; [exact Hshape | left; exact Hv].
Qed.

Lemma open_file_step opened obj filename mode (vm : VirtualMachine) :
  files_inv vm -> nextFileHandleId vm + 1 < 2 ^ 63 ->
  file_step vm (open_file opened obj filename mode vm).1
    (open_file opened obj filename mode vm).2.
Proof.
  intros Hinv Hmax. unfold open_file. destruct opened; cbn [fst snd].
  - destruct Hinv as [H1000 Hinv].
    assert (Hwrap : Int.wrap64 (nextFileHandleId vm + 1) = nextFileHandleId vm + 1)
      by (apply wrap64_id; unfold Int.in_int64; lia).
    unfold file_step, files_inv.
    cbn [set_files fileHandles nextFileHandleId managedObjects].
    rewrite Hwrap. split; [split; [lia |] |].
    + intros k fh Hk. destruct (decide (k = nextFileHandleId vm)) as [-> | Hne].
      * rewrite lookup_insert_eq in Hk. injection Hk as <-.
        split; [reflexivity |]. split; [lia |].
        rewrite lookup_insert_eq. eexists _, _. split; reflexivity.
      * rewrite lookup_insert_ne in Hk by congruence.
        destruct (Hinv k fh Hk) as (Hopen & Hrange & Hobj).
        split; [exact Hopen |]. split; [lia |].
        rewrite lookup_insert_ne by congruence. exact Hobj.
    + split; [lia |]. split.
      { intros k Hk. destruct (decide (k = nextFileHandleId vm)) as [-> | Hne].
        - rewrite lookup_insert_eq. eauto.
        - rewrite lookup_insert_ne by congruence. exact Hk. }
      split; [left; reflexivity |].
      unfold PointerValue_of_obj. cbn [handles_of isNull pv_ptr].
      destruct (obj =? 0); [left; reflexivity |].
      right. split; [reflexivity |]. split; [reflexivity |].
      rewrite lookup_insert_eq. eauto.
  - apply file_step_same;
      [exact Hinv | reflexivity | reflexivity | reflexivity | reflexivity | left; reflexivity].
Qed.

(** Under the invariant, [close] on a handle of the table does not
    return. *)
Lemma close_open_handle (p : PointerValue) (rest : list Value) (vm : VirtualMachine) :
  files_inv vm -> isNull p = false -> is_Some (fileHandles vm !! pv_ptr p) ->
  (builtin_close (VPointer p :: rest) vm).2 = Outside.
Proof.
  intros [_ Hinv] Hnull [fh Hfh].
  destruct (Hinv _ _ Hfh) as (_ & Hrange & obj & managed & Hobj & Hdata).
  apply (close_frees_handle_number p rest vm (pv_ptr p) obj managed);
    [exact Hnull | eauto | exact Hobj | exact Hdata | lia].
Qed.

Lemma file_op_step (op : FileOp) (vm vm' : VirtualMachine) (v : Value) :
  files_inv vm -> nextFileHandleId vm + 1 < 2 ^ 63 ->
  file_op op vm = (vm', Ok v) -> file_step vm vm' v.
Proof.
  intros Hinv Hmax. destruct op as [opened obj args | args]; cbn [file_op].
  - cbv zeta. intros E. injection E as <- <-. unfold builtin_open.
    destruct args as [| arg0 [| arg1 rest]].
    + apply file_step_same; [exact Hinv | reflexivity .. | left; reflexivity].
    + destruct arg0;
        try (apply file_step_same; [exact Hinv | reflexivity .. | left; reflexivity]).
      apply open_file_step; assumption.
    + destruct arg0;
        try (apply file_step_same; [exact Hinv | reflexivity .. | left; reflexivity]).
      destruct arg1;
        try (apply file_step_same; [exact Hinv | reflexivity .. | left; reflexivity]).
      apply open_file_step; assumption.
  - intros E.
    assert (Hunknown : match args with
                       | VPointer p :: _ => isNull p = true \/ fileHandles vm !! pv_ptr p = None
                       | _ => True
                       end).
    { destruct args as [| arg0 rest]; [exact I |]. destruct arg0; try exact I.
      destruct (isNull p) eqn:Hnull; [left; reflexivity |].
      destruct (fileHandles vm !! pv_ptr p) as [fh |] eqn:Hfh; [| right; reflexivity].
      pose proof (close_open_handle p rest vm Hinv Hnull ltac:(eauto)) as Hout.
      rewrite E in Hout. discriminate Hout. }
    destruct (close_unknown args vm Hunknown) as (Hv & Hfh & Hmo & Hnext).
    rewrite E in Hv, Hfh, Hmo, Hnext. cbn [fst snd] in Hv, Hfh, Hmo, Hnext.
    injection Hv as ->.
    apply file_step_same;
      [exact Hinv | exact Hfh | exact Hmo | exact Hnext | reflexivity | right; reflexivity].
Qed.

Lemma file_ops_spec (ops : list FileOp) : forall vm : VirtualMachine,
  files_inv vm -> nextFileHandleId vm + Z.of_nat (length ops) < 2 ^ 63 ->
  files_inv (file_ops ops vm).1.1 /\
  nextFileHandleId vm <= nextFileHandleId (file_ops ops vm).1.1
    <= nextFileHandleId vm + Z.of_nat (length ops) /\
  (forall k, is_Some (fileHandles vm !! k) ->
             is_Some (fileHandles (file_ops ops vm).1.1 !! k)) /\
  NoDup (handles_of (file_ops ops vm).1.2) /\
  List.Forall (fun h => nextFileHandleId vm <= h < nextFileHandleId (file_ops ops vm).1.1 /\
                        is_Some (fileHandles (file_ops ops vm).1.1 !! h))
    (handles_of (file_ops ops vm).1.2) /\
  List.Forall (fun v => is_pointer v = true \/ v = VInt (-1)) (file_ops ops vm).1.2 /\
  ((file_ops ops vm).2 = true -> length (file_ops ops vm).1.2 = length ops).
Proof.
  induction ops as [| op ops IH]; intros vm Hinv Hmax.
  - cbn [file_ops fst snd handles_of length]. split; [exact Hinv |]. split; [lia |].
    split; [auto |]. split; [constructor |]. split; [constructor |].
    split; [constructor | reflexivity].
  - cbn [length] in Hmax. cbn [file_ops].
    destruct (file_op op vm) as [vm1 [v | e |]] eqn:E; cbn [fst snd].
    2, 3: (cbn [handles_of]; split; [exact Hinv |]; split; [cbn [length]; lia |];
           split; [auto |]; split; [constructor |]; split; [constructor |];
           split; [constructor | discriminate]).
    destruct (file_op_step op vm vm1 v Hinv ltac:(lia) E)
      as (Hinv1 & Hnext1 & Hkeys1 & Hshape & Hret).
    destruct (IH vm1 Hinv1 ltac:(lia))
      as (Hinv2 & Hnext2 & Hkeys2 & Hnodup & Hall & Hshapes & Hlen).
    split; [exact Hinv2 |]. split; [cbn [length]; lia |]. split; [auto |].
    rewrite (handles_of_cons v).
    assert (Hrest : List.Forall
              (fun h => nextFileHandleId vm <= h < nextFileHandleId (file_ops ops vm1).1.1 /\
                        is_Some (fileHandles (file_ops ops vm1).1.1 !! h))
              (handles_of (file_ops ops vm1).1.2)).
    { eapply List.Forall_impl; [| exact Hall]. intros h Hh. cbn beta in Hh |- *.
      split; [lia | apply Hh]. }
    destruct Hret as [-> | (-> & Hplus & Hnew)]; cbn [app].
    + split; [exact Hnodup |]. split; [exact Hrest |].
      split; [constructor; assumption | intros H; cbn [length]; f_equal; auto].
    + split.
      * constructor; [| exact Hnodup].
        intros Hin. apply list_elem_of_In in Hin.
        pose proof (proj1 (List.Forall_forall _ _) Hall _ Hin) as Hh. cbn beta in Hh. lia.
      * split; [constructor; [split; [lia | auto] | exact Hrest] |].
        split; [constructor; assumption | intros H; cbn [length]; f_equal; auto].
Qed.

(** X23.  Calls of [open] and [close] served by a new machine, whatever
    the environment answers, up to the first call that does not return.
    Every handle in the table is open, has an id from 1000 up to the
    counter and its managed object registered under that id; the counter
    has grown by at most one per call; no two calls of [open] have returned
    the same handle; every handle handed out is still in the table; and
    every [close] that returned has answered [-1].  So a [close] that
    returns never removes a handle: on a handle of the table it reaches the
    destructor that frees the handle number. *)
Theorem file_handles_never_reused (ops : list FileOp) :
  Z.of_nat (length ops) < 2 ^ 62 ->
  let r := file_ops ops VirtualMachine_new in
  files_inv r.1.1 /\
  nextFileHandleId r.1.1 <= 1000 + Z.of_nat (length ops) /\
  NoDup (handles_of r.1.2) /\
  List.Forall (fun h => 1000 <= h < nextFileHandleId r.1.1 /\
                        is_Some (fileHandles r.1.1 !! h)) (handles_of r.1.2) /\
  List.Forall (fun v => is_pointer v = true \/ v = VInt (-1)) r.1.2 /\
  (r.2 = true -> length r.1.2 = length ops) /\
  (forall p rest, isNull p = false -> is_Some (fileHandles r.1.1 !! pv_ptr p) ->
     (builtin_close (VPointer p :: rest) r.1.1).2 = Outside).
Proof.
  intros Hlen. cbv zeta.
  assert (Hnew : files_inv VirtualMachine_new).
  { split; [cbn; lia |]. intros k fh H. cbn in H. rewrite lookup_empty in H. discriminate H. }
  destruct (file_ops_spec ops VirtualMachine_new Hnew)
    as (Hinv & Hnext & _ & Hnodup & Hall & Hshapes & Hdone).
  { cbn [nextFileHandleId VirtualMachine_new]. lia. }
  cbn [nextFileHandleId VirtualMachine_new] in Hnext, Hall.
  split; [exact Hinv |]. split; [lia |]. split; [exact Hnodup |]. split; [exact Hall |].
  split; [exact Hshapes |]. split; [exact Hdone |].
  intros p rest Hnull Hsome. apply close_open_handle; assumption.
Qed.

(** A run of [file_handles_never_reused]: open, a [close] on a number that
    is no handle, open again. *)
Lemma file_handles_never_reused_witness :
  let ops := [OpOpen true 64 [VString "a"];
              OpClose [VPointer (PointerValue_of_obj 64 2000 "file" false false)];
              OpOpen true 72 [VString "a"]] in
  handles_of (file_ops ops VirtualMachine_new).1.2 = [1000; 1001] /\
  (file_ops ops VirtualMachine_new).2 = true /\
  NoDup (handles_of (file_ops ops VirtualMachine_new).1.2) /\
  List.Forall (fun v => is_pointer v = true \/ v = VInt (-1))
    (file_ops ops VirtualMachine_new).1.2.
Proof.
  cbv zeta. split; [vm_compute; reflexivity |]. split; [vm_compute; reflexivity |].
  pose proof (file_handles_never_reused
                [OpOpen true 64 [VString "a"];
                 OpClose [VPointer (PointerValue_of_obj 64 2000 "file" false false)];
                 OpOpen true 72 [VString "a"]] ltac:(cbn; lia)) as H.
  cbv zeta in H. destruct H as (_ & _ & Hnodup & _ & Hshapes & _).
  split; [exact Hnodup | exact Hshapes].
Defined.

(** Open, [close] on the handle just returned, open again: the run ends at
    the [close]. *)
Example close_ends_the_run :
  let r := file_ops [OpOpen true 64 [VString "a"];
                     OpClose [VPointer (PointerValue_of_obj 64 1000 "file" false false)];
                     OpOpen true 72 [VString "a"]] VirtualMachine_new in
  handles_of r.1.2 = [1000] /\ r.2 = false.
Proof. cbv zeta. split; vm_compute; reflexivity. Qed.

(** ** The debugger *)

Lemma handleDebugCommand_state (m : VirtualMachine * DebugState) :
  state (handleDebugCommand m).1.1 = state m.1.
Proof.
  destruct m as [vm ds]. unfold handleDebugCommand.
  destruct (DebugCommand.eqb (pendingCommand ds) DebugCommand.BREAK
            || DebugCommand.eqb (pendingCommand ds) DebugCommand.STEP
            || shouldPauseAt (pc (state vm)) (-1) ds); reflexivity.
Qed.

Lemma handleDebugCommand_calls (m : VirtualMachine * DebugState) :
  callStack (handleDebugCommand m).1.2 = callStack m.2 /\
  currentCallDepth (handleDebugCommand m).1.2 = currentCallDepth m.2.
Proof.
  destruct m as [vm ds]. unfold handleDebugCommand.
  destruct (DebugCommand.eqb (pendingCommand ds) DebugCommand.BREAK
            || DebugCommand.eqb (pendingCommand ds) DebugCommand.STEP
            || shouldPauseAt (pc (state vm)) (-1) ds); split; reflexivity.
Qed.

Section DebuggerFacts.

Variable stod : string -> option float.
Variable show_double : float -> string.
Variable to_string_double : float -> string.
Variable sizeof_string : Z.

(** An instruction run by [executeDebugInstruction] leaves the program
    counter just behind it, whatever it is. *)
Lemma executeDebugInstruction_returned (answer : bool * Z * Z) (index : Z)
    (m : VirtualMachine * DebugState) (vm1 : VirtualMachine) (ds1 : DebugState) (b : bool) :
  executeDebugInstruction stod show_double to_string_double sizeof_string answer index m
    = (vm1, ds1, Returned b) ->
  0 <= index < Z.of_nat (length (program (state m.1))) ->
  pc (state vm1) = Int.usize (index + 1) /\ program (state vm1) = program (state m.1).
Proof.
  destruct m as [vm ds]. cbn [fst]. intros H Hlt. unfold executeDebugInstruction in H.
  rewrite (proj2 (Z.leb_gt _ _) (proj2 Hlt)) in H.
  destruct (nth_error (program (state vm)) (Z.to_nat index)) as [instr |] eqn:En.
  - destruct (shouldPauseAt index (i_line instr) ds).
    + pose proof (handleDebugCommand_state (vm, ds)) as Hst.
      destruct (handleDebugCommand (vm, ds)) as [[vm' ds'] paused]. cbn [fst snd] in Hst, H.
      pose proof (dispatch_keeps_program stod show_double to_string_double sizeof_string
                    answer.1.1 answer.1.2 answer.2 instr vm') as Hprog.
      destruct (dispatch stod show_double to_string_double sizeof_string
                  answer.1.1 answer.1.2 answer.2 instr vm') as [vm2 out]. cbn [fst] in Hprog.
      destruct out; try discriminate H. injection H as <- _ _.
      split; [reflexivity |]. cbn [set_pc set_state state program].
      rewrite Hprog, Hst. reflexivity.
    + pose proof (dispatch_keeps_program stod show_double to_string_double sizeof_string
                    answer.1.1 answer.1.2 answer.2 instr vm) as Hprog.
      destruct (dispatch stod show_double to_string_double sizeof_string
                  answer.1.1 answer.1.2 answer.2 instr vm) as [vm2 out]. cbn [fst] in Hprog.
      destruct out; try discriminate H. injection H as <- _ _.
      split; [reflexivity |]. cbn [set_pc set_state state program]. exact Hprog.
  - apply nth_error_None in En. lia.
Qed.

(** X24.  Under the debugger a jump has no effect: [executeDebugInstruction]
    sets the program counter to the index behind the instruction it ran,
    be it a [GOTO], an [END], a [RETURN] or a [CALL].  So the loop of
    [executeDebug] runs every instruction at most once and is over within
    as many rounds as there are instructions from the program counter on,
    for every program, loops included, and whatever the environment
    answers. *)
Theorem debugger_runs_each_instruction_once (answers : nat -> bool * Z * Z) (fuel : nat) :
  forall (vm : VirtualMachine) (ds : DebugState),
  0 <= pc (state vm) ->
  Z.of_nat (length (program (state vm))) < 2 ^ 64 ->
  Z.of_nat (length (program (state vm))) - pc (state vm) <= Z.of_nat fuel ->
  (debug_loop stod show_double to_string_double sizeof_string answers fuel (vm, ds)).2
    <> DebugOutOfFuel.
Proof.
  induction fuel as [| fuel IH]; intros vm ds Hpc Hlen Hfuel.
  - cbn [debug_loop].
    destruct (running (state vm) && (pc (state vm) <? Z.of_nat (length (program (state vm)))))
      eqn:E; [| discriminate].
    apply andb_true_iff in E as [_ E]. apply Z.ltb_lt in E. lia.
  - cbn [debug_loop].
    destruct (running (state vm) && (pc (state vm) <? Z.of_nat (length (program (state vm)))))
      eqn:E; [| discriminate].
    apply andb_true_iff in E as [_ E]. apply Z.ltb_lt in E.
    destruct (executeDebugInstruction stod show_double to_string_double sizeof_string
                (answers fuel) (pc (state vm)) (vm, ds)) as [[vm1 ds1] out] eqn:Ex.
    destruct out as [[|] | e |]; try discriminate.
    destruct (executeDebugInstruction_returned _ _ _ _ _ _ Ex ltac:(cbn [fst]; lia))
      as [Hpc1 Hprog1].
    cbn [fst] in Hprog1.
    assert (Hnext : Int.usize (pc (state vm) + 1) = pc (state vm) + 1)
      by (unfold Int.usize; apply Z.mod_small; lia).
    rewrite Hnext in Hpc1.
    destruct (negb (DebugCommand.eqb (pendingCommand ds1) DebugCommand.NONE)
              && negb (DebugCommand.eqb (pendingCommand ds1) DebugCommand.CONTINUE)).
    + pose proof (handleDebugCommand_state (vm1, ds1)) as Hst. cbn [fst] in Hst.
      destruct (handleDebugCommand (vm1, ds1)) as [[vm2 ds2] paused]. cbn [fst snd] in Hst |- *.
      apply IH; rewrite Hst, ?Hprog1, ?Hpc1; lia.
    + apply IH; rewrite ?Hprog1, ?Hpc1; lia.
Qed.

(** X25.  The depth counter of the debugger is the size of its record of
    calls: when [currentCallDepth] equals [callStack.size()] before
    [executeDebugInstruction], it does so after, whatever the instruction
    and however it ends. *)
Theorem call_depth_tracks_call_stack (answer : bool * Z * Z) (index : Z)
    (vm : VirtualMachine) (ds : DebugState) :
  currentCallDepth ds = Z.of_nat (length (callStack ds)) ->
  Z.of_nat (length (callStack ds)) + 1 < 2 ^ 64 ->
  let ds' := (executeDebugInstruction stod show_double to_string_double sizeof_string
                answer index (vm, ds)).1.2 in
  currentCallDepth ds' = Z.of_nat (length (callStack ds')).
Proof.
  intros Hinv Hmax. cbv zeta. unfold executeDebugInstruction.
  destruct (Z.of_nat (length (program (state vm))) <=? index); [exact Hinv |].
  destruct (nth_error (program (state vm)) (Z.to_nat index)) as [instr |]; [| exact Hinv].
  assert (Htrack : forall d : DebugState,
            callStack d = callStack ds -> currentCallDepth d = currentCallDepth ds ->
            currentCallDepth (track_call (i_type instr) index d) =
            Z.of_nat (length (callStack (track_call (i_type instr) index d)))).
  { intros d Hc Hd.
    assert (Hinv' : currentCallDepth d = Z.of_nat (length (callStack d)))
      by (rewrite Hc, Hd; exact Hinv).
    assert (Hmax' : Z.of_nat (length (callStack d)) + 1 < 2 ^ 64) by (rewrite Hc; exact Hmax).
    clear Hc Hd. unfold track_call.
    destruct (i_type instr); try exact Hinv'.
    - cbn [set_calls currentCallDepth callStack length]. rewrite Hinv'.
      unfold Int.usize. rewrite Z.mod_small by lia. lia.
    - destruct (callStack d) as [| c rest] eqn:Ed.
      + cbv iota. rewrite Ed. exact Hinv'.
      + cbn [set_calls currentCallDepth callStack]. rewrite Hinv'.
        cbn [length]. destruct (Z.ltb_spec 0 (Z.of_nat (S (length rest)))); lia. }
  destruct (shouldPauseAt index (i_line instr) ds).
  - pose proof (handleDebugCommand_calls (vm, ds)) as [Hc Hd].
    destruct (handleDebugCommand (vm, ds)) as [[vm' ds'] paused]. cbn [fst snd] in Hc, Hd |- *.
    destruct (dispatch stod show_double to_string_double sizeof_string
                answer.1.1 answer.1.2 answer.2 instr vm') as [vm2 out].
    destruct out; cbn [fst snd]; apply Htrack; assumption.
  - destruct (dispatch stod show_double to_string_double sizeof_string
                answer.1.1 answer.1.2 answer.2 instr vm) as [vm2 out].
    destruct out; cbn [fst snd]; apply Htrack; reflexivity.
Qed.

End DebuggerFacts.

Lemma existsb_snoc {A : Type} (f : A -> bool) (l : list A) (a : A) :
  existsb f (l ++ [a]) = existsb f l || f a.
Proof. rewrite existsb_app. cbn [existsb]. rewrite orb_false_r. reflexivity. Qed.

(** X26.  A breakpoint set with [addBreakpoint] makes the debugger pause
    at its program counter on every line, and at its line, unless that is
    [-1], on every program counter; one set with a condition does the
    same whatever the condition says.  After [removeBreakpoint] or
    [disableBreakpoint] of its line the debugger pauses where it would
    have paused without it; [enableBreakpoint] brings it back. *)
Theorem breakpoint_lifecycle (line pc : Z) (ds : DebugState) :
  (forall l, shouldPauseAt pc l (addBreakpoint line pc ds) = true) /\
  (forall l condition, shouldPauseAt pc l (addBreakpoint_cond line pc condition ds) = true) /\
  (forall p, line <> -1 -> shouldPauseAt p line (addBreakpoint line pc ds) = true) /\
  (forall p l, shouldPauseAt p l (removeBreakpoint line (addBreakpoint line pc ds)) =
               shouldPauseAt p l (removeBreakpoint line ds)) /\
  (forall p l, shouldPauseAt p l (disableBreakpoint line (addBreakpoint line pc ds)) =
               shouldPauseAt p l (disableBreakpoint line ds)) /\
  (forall l, shouldPauseAt pc l
               (enableBreakpoint line (disableBreakpoint line (addBreakpoint line pc ds))) = true) /\
  (forall p condition, line <> -1 ->
     shouldPauseAt p line (addBreakpoint_cond line pc condition ds) = true).
Proof.
  unfold shouldPauseAt, addBreakpoint, addBreakpoint_cond, removeBreakpoint, disableBreakpoint,
    enableBreakpoint.
  cbn [set_breakpoints breakpoints isStepping pendingCommand].
  assert (Hhit : forall l, breakpoint_hit pc l (Breakpoint_new line pc) = true).
  { intros l. unfold breakpoint_hit, Breakpoint_new. cbn. rewrite Z.eqb_refl. reflexivity. }
  assert (Hcond : forall l condition,
            breakpoint_hit pc l (Breakpoint_cond line pc condition) = true).
  { intros l condition. unfold breakpoint_hit, Breakpoint_cond, checkBreakpointCondition.
    cbn. rewrite Z.eqb_refl. cbn. apply orb_true_r. }
  split; [| split; [| split; [| split; [| split; [| split]]]]].
  - intros l. rewrite existsb_snoc, Hhit, orb_true_r. reflexivity.
  - intros l condition. rewrite existsb_snoc, Hcond, orb_true_r. reflexivity.
  - intros p Hline. rewrite existsb_snoc.
    unfold breakpoint_hit at 2. unfold Breakpoint_new. cbn.
    rewrite Z.eqb_refl, (proj2 (Z.eqb_neq line (-1)) Hline). cbn.
    rewrite orb_true_r, orb_true_r. reflexivity.
  - intros p l. rewrite List.filter_app. cbn [List.filter Breakpoint_new bp_line bp_temporary].
    rewrite Z.eqb_refl. cbn [negb andb]. rewrite app_nil_r. reflexivity.
  - intros p l. rewrite List.map_app. cbn [map Breakpoint_new bp_line].
    rewrite Z.eqb_refl. rewrite existsb_snoc.
    unfold breakpoint_hit at 2. cbn. rewrite orb_false_r. reflexivity.
  - intros l. rewrite !List.map_app. cbn [map Breakpoint_new bp_line set_enabled].
    rewrite Z.eqb_refl. cbn [bp_line bp_pc bp_condition bp_temporary].
    rewrite Z.eqb_refl. rewrite existsb_snoc.
    match goal with
    | |- _ || breakpoint_hit pc l ?bp || _ = true =>
        assert (Hhit' : breakpoint_hit pc l bp = true)
          by (unfold breakpoint_hit; cbn; rewrite Z.eqb_refl; reflexivity);
        rewrite Hhit', orb_true_r; reflexivity
    end.
  - intros p condition Hline. rewrite existsb_snoc.
    unfold breakpoint_hit at 2. unfold Breakpoint_cond, checkBreakpointCondition. cbn.
    rewrite Z.eqb_refl, (proj2 (Z.eqb_neq line (-1)) Hline). cbn.
    rewrite !orb_true_r. reflexivity.
Qed.

(** A run of [debugger_runs_each_instruction_once]: [spin_listed] jumps
    back for ever under [execute]; stepped through under the debugger, it
    is over after its two instructions. *)
Lemma debugger_runs_each_instruction_once_witness :
  (debug_loop (fun _ => None) (fun _ => EmptyString) (fun _ => EmptyString) 32
     (fun _ => (false, 0, 0)) 2
     (set_running true (machine_with spin_listed), step DebugState_new)).2 <> DebugOutOfFuel /\
  (debug_loop (fun _ => None) (fun _ => EmptyString) (fun _ => EmptyString) 32
     (fun _ => (false, 0, 0)) 2
     (set_running true (machine_with spin_listed), step DebugState_new)).2 = DebugReturned false /\
  (run (fun _ => None) (fun _ => EmptyString) 1000
     (set_running true (machine_with spin_listed))).2 = OutOfFuel.
Proof.
  split; [| split; vm_compute; reflexivity].
  apply debugger_runs_each_instruction_once; cbn; lia.
Defined.

(** A run of [call_depth_tracks_call_stack]: a [CALL] at index 0. *)
Lemma call_depth_tracks_call_stack_witness :
  currentCallDepth
    (executeDebugInstruction (fun _ => None) (fun _ => EmptyString) (fun _ => EmptyString) 32
       (false, 0, 0) 0
       (machine_with (listed [(CALL, ["f"%string])]), DebugState_new)).1.2 = 1.
Proof.
  exact (call_depth_tracks_call_stack (fun _ => None) (fun _ => EmptyString)
           (fun _ => EmptyString) 32 (false, 0, 0) 0
           (machine_with (listed [(CALL, ["f"%string])])) DebugState_new
           eq_refl ltac:(cbn; lia)).
Defined.

(** ** The memory pools *)

Lemma pool_allocate_n (n : nat) : forall p : MemoryPool.t,
  0 < MemoryPool.blockSize p ->
  0 <= MemoryPool.currentOffset p <= MemoryPool.poolSize p ->
  MemoryPool.poolSize p + MemoryPool.blockSize p < 2 ^ 64 ->
  (MemoryPool.allocate_n n p).1 =
    map (fun i : nat =>
           if MemoryPool.currentOffset p + (Z.of_nat i + 1) * MemoryPool.blockSize p
              <=? MemoryPool.poolSize p
           then Some (MemoryPool.currentOffset p + Z.of_nat i * MemoryPool.blockSize p)
           else None) (seq 0 n) /\
  MemoryPool.poolSize (MemoryPool.allocate_n n p).2 = MemoryPool.poolSize p /\
  MemoryPool.blockSize (MemoryPool.allocate_n n p).2 = MemoryPool.blockSize p /\
  MemoryPool.currentOffset p <= MemoryPool.currentOffset (MemoryPool.allocate_n n p).2
    <= MemoryPool.poolSize p.
Proof.
  induction n as [| n IH]; intros p Hbs Ho Hmax.
  - cbn. repeat split; lia.
  - cbn [MemoryPool.allocate_n fst snd seq map]. unfold MemoryPool.allocate.
    assert (Hu : Int.usize (MemoryPool.currentOffset p + MemoryPool.blockSize p) =
                 MemoryPool.currentOffset p + MemoryPool.blockSize p)
      by (unfold Int.usize; apply Z.mod_small; lia).
    rewrite Hu.
    replace (MemoryPool.currentOffset p + (Z.of_nat 0 + 1) * MemoryPool.blockSize p)
      with (MemoryPool.currentOffset p + MemoryPool.blockSize p) by lia.
    destruct (Z.leb_spec (MemoryPool.currentOffset p + MemoryPool.blockSize p)
                (MemoryPool.poolSize p)) as [Hfit | Hfull]; cbn [fst snd].
    + destruct (IH (MemoryPool.mk (MemoryPool.poolSize p) (MemoryPool.blockSize p)
                      (MemoryPool.currentOffset p + MemoryPool.blockSize p)))
        as (Hl & Hps & Hb & Hoff);
        cbn [MemoryPool.poolSize MemoryPool.blockSize MemoryPool.currentOffset]; try lia.
      cbn [MemoryPool.poolSize MemoryPool.blockSize MemoryPool.currentOffset] in Hl, Hps, Hb, Hoff.
      split; [| split; [exact Hps | split; [exact Hb | lia]]].
      f_equal; [f_equal; lia |].
      rewrite Hl. rewrite <- seq_shift, List.map_map. apply List.map_ext. intros i.
      replace (MemoryPool.currentOffset p + MemoryPool.blockSize p
               + (Z.of_nat i + 1) * MemoryPool.blockSize p)
        with (MemoryPool.currentOffset p + (Z.of_nat (S i) + 1) * MemoryPool.blockSize p) by lia.
      replace (MemoryPool.currentOffset p + MemoryPool.blockSize p
               + Z.of_nat i * MemoryPool.blockSize p)
        with (MemoryPool.currentOffset p + Z.of_nat (S i) * MemoryPool.blockSize p) by lia.
      reflexivity.
    + destruct (IH p Hbs Ho Hmax) as (Hl & Hps & Hb & Hoff).
      split; [| split; [exact Hps | split; [exact Hb | exact Hoff]]].
      f_equal. rewrite Hl. rewrite <- seq_shift, List.map_map. apply List.map_ext. intros i.
      rewrite (proj2 (Z.leb_gt _ _)) by nia.
      rewrite (proj2 (Z.leb_gt _ _)) by nia. reflexivity.
Qed.

(** X27.  A new pool serves its blocks one behind the other, at the
    offsets 0, [blockSize], 2 [blockSize], ..., as long as a whole block
    fits, and [nullptr] from then on: it never hands out the same block
    twice nor one that reaches past its end.  What is used and what is
    free add up to the size of the pool; and [deallocate] frees nothing. *)
Theorem pool_serves_each_block_once (poolSize blockSize : Z) (n : nat) :
  0 < blockSize -> 0 <= poolSize -> poolSize + blockSize < 2 ^ 64 ->
  let r := MemoryPool.allocate_n n (MemoryPool.init poolSize blockSize) in
  r.1 = map (fun i : nat =>
               if (Z.of_nat i + 1) * blockSize <=? poolSize
               then Some (Z.of_nat i * blockSize) else None) (seq 0 n) /\
  MemoryPool.getUsedSize r.2 + MemoryPool.getFreeSize r.2 = poolSize /\
  forall ptr, MemoryPool.allocate (MemoryPool.deallocate ptr r.2) = MemoryPool.allocate r.2.
Proof.
  intros Hbs Hps Hmax. cbv zeta.
  destruct (pool_allocate_n n (MemoryPool.init poolSize blockSize)) as (Hl & Hp & Hb & Hoff);
    cbn [MemoryPool.init MemoryPool.poolSize MemoryPool.blockSize MemoryPool.currentOffset];
    try lia.
  cbn [MemoryPool.init MemoryPool.poolSize MemoryPool.blockSize MemoryPool.currentOffset]
    in Hl, Hp, Hb, Hoff.
  split; [exact Hl |]. split; [| reflexivity].
  unfold MemoryPool.getUsedSize, MemoryPool.getFreeSize. rewrite Hp.
  unfold Int.usize. rewrite Z.mod_small by lia. lia.
Qed.

(** A run of [pool_serves_each_block_once]: a pool of 40 bytes in blocks
    of 16 serves two blocks. *)
Lemma pool_serves_each_block_once_witness :
  (MemoryPool.allocate_n 4 (MemoryPool.init 40 16)).1 = [Some 0; Some 16; None; None].
Proof.
  exact (proj1 (pool_serves_each_block_once 40 16 4 ltac:(lia) ltac:(lia) ltac:(lia))).
Defined.

(** The shape of one pool of the manager. *)
Lemma pool_allocate_shape (s : Z) (p : MemoryPool.t) :
  0 < s <= 8192 ->
  MemoryPool.blockSize p = s /\ MemoryPool.poolSize p = s * 100 /\
    0 <= MemoryPool.currentOffset p <= MemoryPool.poolSize p ->
  match MemoryPool.allocate p with
  | (Some offset, p') =>
      offset = MemoryPool.currentOffset p /\ offset + s <= MemoryPool.poolSize p /\
      p' = MemoryPool.mk (MemoryPool.poolSize p) s (offset + s)
  | (None, p') => p' = p /\ MemoryPool.poolSize p < MemoryPool.currentOffset p + s
  end.
Proof.
  intros Hs (Hb & Hp & Ho). unfold MemoryPool.allocate. rewrite Hb.
  assert (Hu : Int.usize (MemoryPool.currentOffset p + s) = MemoryPool.currentOffset p + s)
    by (unfold Int.usize; apply Z.mod_small; lia).
  rewrite Hu.
  destruct (Z.leb_spec (MemoryPool.currentOffset p + s) (MemoryPool.poolSize p));
    [split; [reflexivity | split; [lia | reflexivity]] | split; [reflexivity | lia]].
Qed.

Lemma allocate_from_spec (size : Z) (sizes : list Z) (pools : list MemoryPool.t) :
  Forall2 (fun s p => MemoryPool.blockSize p = s /\ MemoryPool.poolSize p = s * 100 /\
                      0 <= MemoryPool.currentOffset p <= MemoryPool.poolSize p) sizes pools ->
  List.Forall (fun s => 0 < s <= 8192) sizes ->
  forall i : nat,
  Forall2 (fun s p => MemoryPool.blockSize p = s /\ MemoryPool.poolSize p = s * 100 /\
                      0 <= MemoryPool.currentOffset p <= MemoryPool.poolSize p)
    sizes (MemoryManager.allocate_from i size sizes pools).2 /\
  match MemoryManager.allocate_from i size sizes pools with
  | (MemoryManager.InPool j offset, pools') =>
      exists (k : nat) (s : Z) (p : MemoryPool.t),
        j = (i + k)%nat /\ sizes !! k = Some s /\ pools !! k = Some p /\
        size <= s /\ offset = MemoryPool.currentOffset p /\
        offset + s <= MemoryPool.poolSize p /\
        pools' = <[ k := MemoryPool.mk (MemoryPool.poolSize p) s (offset + s) ]> pools /\
        forall (k' : nat) (s' : Z) (p' : MemoryPool.t),
          (k' < k)%nat -> sizes !! k' = Some s' -> pools !! k' = Some p' -> size <= s' ->
          MemoryPool.poolSize p' < MemoryPool.currentOffset p' + s'
  | (MemoryManager.Malloc, pools') =>
      pools' = pools /\
      forall (k : nat) (s : Z) (p : MemoryPool.t),
        sizes !! k = Some s -> pools !! k = Some p -> size <= s ->
        MemoryPool.poolSize p < MemoryPool.currentOffset p + s
  end.
Proof.
  intros Hshape. induction Hshape as [| s p sizes pools Hsp Hrest IH]; intros Hpos i.
  - cbn [MemoryManager.allocate_from snd]. split; [constructor |]. split; [reflexivity |].
    intros k s p Hk. rewrite lookup_nil in Hk. discriminate Hk.
  - inversion Hpos as [| ? ? Hs Hpos']. subst.
    specialize (IH Hpos' (S i)). destruct IH as [IHwf IH].
    cbn [MemoryManager.allocate_from].
    destruct (Z.leb_spec size s) as [Hfit | Hbig].
    + pose proof (pool_allocate_shape s p Hs Hsp) as Hpool.
      destruct (MemoryPool.allocate p) as [[offset |] p'].
      * destruct Hpool as (Hoff & Hin & ->). cbn [snd]. split.
        -- constructor; [| exact Hrest].
           cbn [MemoryPool.blockSize MemoryPool.poolSize MemoryPool.currentOffset].
           destruct Hsp as (Hb & Hp & Ho). split; [reflexivity |]. split; [exact Hp | lia].
        -- exists O, s, p. split; [lia |]. split; [reflexivity |]. split; [reflexivity |].
           split; [exact Hfit |]. split; [exact Hoff |]. split; [exact Hin |].
           split; [reflexivity |]. intros k' s' p' Hk'. lia.
      * destruct Hpool as [-> Hfull]. cbn [fst snd].
        split; [constructor; assumption |].
        destruct (MemoryManager.allocate_from (S i) size sizes pools) as [[j offset |] pools'];
          cbn [fst snd].
        -- destruct IH as (k & s0 & p0 & Hj & Hsk & Hpk & Hle & Hoff & Hin & Hpools & Hbefore).
           exists (S k), s0, p0. split; [lia |]. split; [exact Hsk |]. split; [exact Hpk |].
           split; [exact Hle |]. split; [exact Hoff |]. split; [exact Hin |].
           split; [rewrite Hpools; reflexivity |].
           intros k' s' p' Hk' Hs' Hp' Hle'. destruct k' as [| k'].
           ++ cbn in Hs', Hp'. injection Hs' as <-. injection Hp' as <-. exact Hfull.
           ++ apply (Hbefore k' s' p'); [lia | exact Hs' | exact Hp' | exact Hle'].
        -- destruct IH as [-> Hall]. split; [reflexivity |].
           intros k s0 p0 Hsk Hpk Hle. destruct k as [| k].
           ++ cbn in Hsk, Hpk. injection Hsk as <-. injection Hpk as <-. exact Hfull.
           ++ exact (Hall k s0 p0 Hsk Hpk Hle).
    + cbn [fst snd]. split; [constructor; assumption |].
      destruct (MemoryManager.allocate_from (S i) size sizes pools) as [[j offset |] pools'];
        cbn [fst snd].
      * destruct IH as (k & s0 & p0 & Hj & Hsk & Hpk & Hle & Hoff & Hin & Hpools & Hbefore).
        exists (S k), s0, p0. split; [lia |]. split; [exact Hsk |]. split; [exact Hpk |].
        split; [exact Hle |]. split; [exact Hoff |]. split; [exact Hin |].
        split; [rewrite Hpools; reflexivity |].
        intros k' s' p' Hk' Hs' Hp' Hle'. destruct k' as [| k'].
        -- cbn in Hs'. injection Hs' as <-. lia.
        -- apply (Hbefore k' s' p'); [lia | exact Hs' | exact Hp' | exact Hle'].
      * destruct IH as [-> Hall]. split; [reflexivity |].
        intros k s0 p0 Hsk Hpk Hle. destruct k as [| k].
        -- cbn in Hsk. injection Hsk as <-. lia.
        -- exact (Hall k s0 p0 Hsk Hpk Hle).
Qed.

Lemma poolSizes_bounds : List.Forall (fun s => 0 < s <= 8192) MemoryManager.poolSizes.
Proof. unfold MemoryManager.poolSizes. repeat constructor; lia. Qed.

(** The two totals of [getMemoryStats] over pools of the manager's
    shape. *)
Lemma memory_stats_fold (sizes : list Z) (pools : list MemoryPool.t) :
  Forall2 (fun s p => MemoryPool.blockSize p = s /\ MemoryPool.poolSize p = s * 100 /\
                      0 <= MemoryPool.currentOffset p <= MemoryPool.poolSize p) sizes pools ->
  List.Forall (fun s => 0 < s <= 8192) sizes ->
  forall a b : Z, 0 <= a -> 0 <= b ->
  a + b + 819200 * Z.of_nat (length sizes) < 2 ^ 64 ->
  let r := fold_left (fun acc p => (Int.usize (acc.1 + MemoryPool.getUsedSize p),
                                    Int.usize (acc.2 + MemoryPool.getFreeSize p)))
             pools (a, b) in
  0 <= r.1 /\ 0 <= r.2 /\ r.1 + r.2 = a + b + 100 * fold_right Z.add 0 sizes.
Proof.
  intros Hshape. induction Hshape as [| s p sizes pools Hsp Hrest IH]; intros Hpos a b Ha Hb Hmax.
  - cbn. lia.
  - inversion Hpos as [| ? ? Hs Hpos']. subst. cbn [length] in Hmax.
    destruct Hsp as (Hbs & Hps & Ho). cbn [fold_left fst snd fold_right].
    unfold MemoryPool.getUsedSize, MemoryPool.getFreeSize in IH |- *.
    assert (Hfree : Int.usize (MemoryPool.poolSize p - MemoryPool.currentOffset p) =
                    MemoryPool.poolSize p - MemoryPool.currentOffset p)
      by (unfold Int.usize; apply Z.mod_small; lia).
    rewrite Hfree.
    assert (Hu1 : Int.usize (a + MemoryPool.currentOffset p) = a + MemoryPool.currentOffset p)
      by (unfold Int.usize; apply Z.mod_small; lia).
    assert (Hu2 : Int.usize (b + (MemoryPool.poolSize p - MemoryPool.currentOffset p)) =
                  b + (MemoryPool.poolSize p - MemoryPool.currentOffset p))
      by (unfold Int.usize; apply Z.mod_small; lia).
    rewrite Hu1, Hu2.
    specialize (IH Hpos' (a + MemoryPool.currentOffset p)
                  (b + (MemoryPool.poolSize p - MemoryPool.currentOffset p))
                  ltac:(lia) ltac:(lia) ltac:(lia)).
    cbv zeta in IH. destruct IH as (H1 & H2 & H3).
    split; [exact H1 |]. split; [exact H2 |]. rewrite H3. lia.
Qed.

(** X28.  [MemoryManager::allocate] on a manager of the shape its
    constructor builds.  A block it takes from a pool is at least as large
    as the request, lies inside the pool, and comes from the first pool
    that is large enough and not exhausted; the other pools are untouched.
    It falls back on [std::malloc] only when every pool large enough is
    exhausted, which is always so above 8192 bytes.  The shape is kept,
    and the two totals of [getMemoryStats] add up to the 1636800 bytes of
    the pools. *)
Theorem manager_block_fits (size : Z) (m : MemoryManager.t) :
  MemoryManager.wf m ->
  MemoryManager.wf (MemoryManager.allocate size m).2 /\
  match MemoryManager.allocate size m with
  | (MemoryManager.InPool i offset, m') =>
      exists (s : Z) (p : MemoryPool.t),
        MemoryManager.poolSizes !! i = Some s /\ m !! i = Some p /\
        size <= s /\ offset = MemoryPool.currentOffset p /\
        offset + s <= MemoryPool.poolSize p /\
        m' = <[ i := MemoryPool.mk (MemoryPool.poolSize p) s (offset + s) ]> m /\
        forall (k : nat) (s' : Z) (p' : MemoryPool.t),
          (k < i)%nat -> MemoryManager.poolSizes !! k = Some s' -> m !! k = Some p' ->
          size <= s' -> MemoryPool.poolSize p' < MemoryPool.currentOffset p' + s'
  | (MemoryManager.Malloc, m') =>
      m' = m /\
      forall (k : nat) (s : Z) (p : MemoryPool.t),
        MemoryManager.poolSizes !! k = Some s -> m !! k = Some p -> size <= s ->
        MemoryPool.poolSize p < MemoryPool.currentOffset p + s
  end /\
  (8192 < size -> MemoryManager.allocate size m = (MemoryManager.Malloc, m)) /\
  (MemoryManager.getMemoryStats m).1 + (MemoryManager.getMemoryStats m).2 = 1636800.
Proof.
  intros Hwf. unfold MemoryManager.wf in *.
  destruct (allocate_from_spec size MemoryManager.poolSizes m Hwf poolSizes_bounds O)
    as [Hkeep Hspec].
  fold (MemoryManager.allocate size m) in Hkeep, Hspec.
  split; [exact Hkeep |]. split; [| split].
  - destruct (MemoryManager.allocate size m) as [[i offset |] m'].
    + destruct Hspec as (k & s & p & Hj & Hrest). cbn in Hj. subst i.
      exists s, p. exact Hrest.
    + exact Hspec.
  - intros Hbig. destruct (MemoryManager.allocate size m) as [[i offset |] m'].
    + destruct Hspec as (k & s & p & _ & Hs & _ & Hle & _).
      pose proof poolSizes_bounds as Hb.
      apply list_elem_of_lookup_2 in Hs. apply list_elem_of_In in Hs.
      pose proof (proj1 (List.Forall_forall _ _) Hb s Hs) as Hbound. cbn beta in Hbound. lia.
    + destruct Hspec as [-> _]. reflexivity.
  - pose proof (memory_stats_fold MemoryManager.poolSizes m Hwf poolSizes_bounds 0 0
                  ltac:(lia) ltac:(lia) ltac:(cbn; lia)) as Hstats.
    cbv zeta in Hstats. destruct Hstats as (_ & _ & Hsum).
    unfold MemoryManager.getMemoryStats. rewrite Hsum. reflexivity.
Qed.

Lemma wf_manager_init : MemoryManager.wf MemoryManager.init.
Proof.
  unfold MemoryManager.wf, MemoryManager.init, MemoryManager.poolSizes.
  cbn [map MemoryPool.init]. repeat constructor; cbn; lia.
Qed.

(** A run of [manager_block_fits]: a request of 20 bytes on a new manager
    gets the first block of the pool of 32-byte blocks. *)
Lemma manager_block_fits_witness :
  (MemoryManager.allocate 20 MemoryManager.init).1 = MemoryManager.InPool 1 0 /\
  MemoryManager.wf (MemoryManager.allocate 20 MemoryManager.init).2.
Proof.
  split; [reflexivity |].
  exact (proj1 (manager_block_fits 20 MemoryManager.init wf_manager_init)).
Defined.

(** ** Laws of the operators *)

Lemma integer_operands (l r : Value) :
  is_integer l = true -> is_integer r = true ->
  is_double l || is_double r = false /\
  (is_int l || is_long l) && (is_int r || is_long r) = true.
Proof.
  intros Hl Hr. rewrite (integer_not_double l Hl), (integer_not_double r Hr).
  unfold is_integer in Hl, Hr. rewrite Hl, Hr. split; reflexivity.
Qed.

(** The six comparisons on integer operands, each as the comparison of
    the operands' 64-bit values. *)
Lemma integer_comparisons (l r : Value) (line : Z) :
  is_integer l = true -> is_integer r = true ->
  performBinaryOperation l r "<" line = Ok (VBool (getInt64Value l <? getInt64Value r)) /\
  performBinaryOperation l r "==" line = Ok (VBool (getInt64Value l =? getInt64Value r)) /\
  performBinaryOperation l r ">" line = Ok (VBool (getInt64Value r <? getInt64Value l)) /\
  performBinaryOperation l r "<=" line = Ok (VBool (getInt64Value l <=? getInt64Value r)) /\
  performBinaryOperation l r ">=" line = Ok (VBool (getInt64Value r <=? getInt64Value l)) /\
  performBinaryOperation l r "!=" line =
    Ok (VBool (negb (getInt64Value l =? getInt64Value r))).
Proof.
  intros Hl Hr. destruct (integer_operands l r Hl Hr) as [Hd Hi].
  unfold performBinaryOperation. rewrite Hd, Hi.
  cbn [op_is String.eqb Ascii.eqb Bool.eqb]. repeat split.
Qed.

(** X29.  The six comparisons of [BINARY_OP] on integer operands, held as
    [int] or as [int64_t] in any mix, are those of the order of the
    integers on the operands' 64-bit values: each yields the boolean of the
    comparison of the two values, no bit of which is dropped.  Hence they
    are the comparisons of one total order: exactly one of [<], [==], [>]
    holds, [>] is [<] with the operands exchanged, and [<=] is total,
    antisymmetric and transitive. *)
Theorem integer_comparisons_total_order (l r m : Value) (line : Z) :
  is_integer l = true -> is_integer r = true -> is_integer m = true ->
  let a := getInt64Value l in
  let b := getInt64Value r in
  (performBinaryOperation l r "<" line = Ok (VBool (a <? b)) /\
   performBinaryOperation l r "==" line = Ok (VBool (a =? b)) /\
   performBinaryOperation l r ">" line = Ok (VBool (b <? a)) /\
   performBinaryOperation l r "<=" line = Ok (VBool (a <=? b)) /\
   performBinaryOperation l r ">=" line = Ok (VBool (b <=? a)) /\
   performBinaryOperation l r "!=" line = Ok (VBool (negb (a =? b)))) /\
  ((a < b /\ performBinaryOperation l r "<" line = Ok (VBool true) /\
    performBinaryOperation l r "==" line = Ok (VBool false) /\
    performBinaryOperation l r ">" line = Ok (VBool false)) \/
   (a = b /\ performBinaryOperation l r "<" line = Ok (VBool false) /\
    performBinaryOperation l r "==" line = Ok (VBool true) /\
    performBinaryOperation l r ">" line = Ok (VBool false)) \/
   (b < a /\ performBinaryOperation l r "<" line = Ok (VBool false) /\
    performBinaryOperation l r "==" line = Ok (VBool false) /\
    performBinaryOperation l r ">" line = Ok (VBool true))) /\
  performBinaryOperation r l "<" line = performBinaryOperation l r ">" line /\
  (performBinaryOperation l r "<=" line = Ok (VBool true) \/
   performBinaryOperation r l "<=" line = Ok (VBool true)) /\
  (performBinaryOperation l r "<=" line = Ok (VBool true) ->
   performBinaryOperation r l "<=" line = Ok (VBool true) ->
   a = b /\ performBinaryOperation l r "==" line = Ok (VBool true)) /\
  (performBinaryOperation l r "<=" line = Ok (VBool true) ->
   performBinaryOperation r m "<=" line = Ok (VBool true) ->
   performBinaryOperation l m "<=" line = Ok (VBool true)).
Proof.
  intros Hl Hr Hm. cbv zeta.
  destruct (integer_comparisons l r line Hl Hr) as (Hlt & Heq & Hgt & Hle & Hge & Hne).
  destruct (integer_comparisons r l line Hr Hl) as (Hlt' & _ & _ & Hle' & _).
  destruct (integer_comparisons r m line Hr Hm) as (_ & _ & _ & Hle_rm & _).
  destruct (integer_comparisons l m line Hl Hm) as (_ & _ & _ & Hle_lm & _).
  split; [repeat split; assumption |].
  rewrite Hlt, Heq, Hgt, Hle, Hlt', Hle', Hle_rm, Hle_lm.
  split; [| split; [reflexivity | split; [| split]]].
  - destruct (Z.ltb_spec (getInt64Value l) (getInt64Value r)) as [H1 | H1];
      destruct (Z.eqb_spec (getInt64Value l) (getInt64Value r)) as [H2 | H2];
      destruct (Z.ltb_spec (getInt64Value r) (getInt64Value l)) as [H3 | H3];
      try (exfalso; lia).
    + left. repeat split. exact H1.
    + right; left. repeat split. exact H2.
    + right; right. repeat split. exact H3.
  - destruct (Z.le_ge_cases (getInt64Value l) (getInt64Value r)) as [H | H];
      [left | right]; rewrite (proj2 (Z.leb_le _ _) H); reflexivity.
  - intros H1 H2. injection H1 as H1. injection H2 as H2.
    apply Z.leb_le in H1, H2.
    assert (E : getInt64Value l = getInt64Value r) by lia.
    split; [exact E |]. rewrite (proj2 (Z.eqb_eq _ _) E). reflexivity.
  - intros H1 H2. injection H1 as H1. injection H2 as H2.
    apply Z.leb_le in H1, H2.
    assert (H3 : getInt64Value l <= getInt64Value m) by lia.
    apply Z.leb_le in H3. rewrite H3. reflexivity.
Qed.

(** A run of [integer_comparisons_total_order]: an [int] against an
    [int64_t] that differs from it in bit 32 only, and a third value
    above both. *)
Lemma integer_comparisons_total_order_witness :
  performBinaryOperation (VInt 2) (VLong 4294967298) "<" 1 = Ok (VBool true) /\
  performBinaryOperation (VInt 2) (VLong 4294967298) "==" 1 = Ok (VBool false) /\
  performBinaryOperation (VLong 4294967298) (VInt 2) "<" 1 =
    performBinaryOperation (VInt 2) (VLong 4294967298) ">" 1 /\
  (performBinaryOperation (VInt 2) (VLong 4294967298) "<=" 1 = Ok (VBool true) ->
   performBinaryOperation (VLong 4294967298) (VLong 9223372036854775807) "<=" 1 =
     Ok (VBool true) ->
   performBinaryOperation (VInt 2) (VLong 9223372036854775807) "<=" 1 = Ok (VBool true)).
Proof.
  pose proof (integer_comparisons_total_order (VInt 2) (VLong 4294967298)
                (VLong 9223372036854775807) 1 eq_refl eq_refl eq_refl) as H.
  cbv zeta in H. destruct H as ((Hlt & Heq & _) & _ & Hswap & _ & _ & Htrans).
  split; [exact Hlt |]. split; [exact Heq |]. split; [exact Hswap | exact Htrans].
Defined.

Lemma length_concat_repeat {A : Type} (l : list A) (k : nat) :
  length (concat (repeat l k)) = (k * length l)%nat.
Proof.
  induction k as [| k IH]; [reflexivity |].
  cbn [repeat concat]. rewrite length_app, IH. lia.
Qed.

(** In [k] copies of [l] one behind the other, the element at index [i]
    is the element of [l] at index [i] modulo its length. *)
Lemma lookup_concat_repeat {A : Type} (l : list A) (k : nat) : forall i : nat,
  (i < k * length l)%nat -> concat (repeat l k) !! i = l !! (i mod length l)%nat.
Proof.
  induction k as [| k IH]; intros i Hi; [lia |].
  cbn [repeat concat].
  destruct (Nat.lt_ge_cases i (length l)) as [Hlt | Hge].
  - rewrite lookup_app_l by exact Hlt. rewrite Nat.mod_small by exact Hlt. reflexivity.
  - rewrite lookup_app_r by exact Hge. rewrite IH by lia.
    replace i with ((i - length l) + 1 * length l)%nat at 2 by lia.
    rewrite Nat.Div0.mod_add. reflexivity.
Qed.

(** X30.  The list operators of [BINARY_OP].  [+] on two lists is their
    concatenation.  [*] with an integer [n] on the right is [n] copies of
    the list one behind the other: the result has [n] times the length of
    the list, and its element at index [i] is the element of the list at
    index [i] modulo that length; it is empty when [n] is not positive,
    the list itself when [n] is 1, and one more copy in front for [n + 1]
    than for [n]. *)
Theorem list_operators (items other : list Value) (r : Value) (line : Z) :
  is_integer r = true ->
  performBinaryOperation (VList items) (VList other) "+" line = Ok (VList (items ++ other)) /\
  exists result : list Value,
    performBinaryOperation (VList items) r "*" line = Ok (VList result) /\
    result = concat (repeat items (Z.to_nat (getInt64Value r))) /\
    length result = (Z.to_nat (getInt64Value r) * length items)%nat /\
    (forall i : nat, (i < length result)%nat ->
       result !! i = items !! (i mod length items)%nat) /\
    (getInt64Value r <= 0 -> result = []) /\
    (getInt64Value r = 1 -> result = items) /\
    (0 <= getInt64Value r ->
     performBinaryOperation (VList items) (VLong (getInt64Value r + 1)) "*" line =
       Ok (VList (items ++ result))).
Proof.
  intros Hr. split; [reflexivity |].
  exists (concat (repeat items (Z.to_nat (getInt64Value r)))).
  split.
  - unfold performBinaryOperation. unfold is_integer in Hr.
    rewrite (integer_not_double r Hr). cbn [is_double is_int is_long orb andb].
    cbn [op_is String.eqb Ascii.eqb Bool.eqb is_pointer is_list is_dict orb andb].
    destruct r; try discriminate Hr; reflexivity.
  - split; [reflexivity |]. split; [apply length_concat_repeat |].
    split; [| split; [| split]].
    + intros i Hi. rewrite length_concat_repeat in Hi. apply lookup_concat_repeat. exact Hi.
    + intros Hn. replace (Z.to_nat (getInt64Value r)) with O by lia. reflexivity.
    + intros ->. cbn. apply app_nil_r.
    + intros Hn. unfold performBinaryOperation.
      cbn [is_double is_int is_long orb andb getInt64Value
           op_is String.eqb Ascii.eqb Bool.eqb is_pointer is_list is_dict].
      replace (Z.to_nat (getInt64Value r + 1)) with (S (Z.to_nat (getInt64Value r))) by lia.
      reflexivity.
Qed.

(** A run of [list_operators]: a list of two values, three times. *)
Lemma list_operators_witness :
  performBinaryOperation (VList [VInt 1; VInt 2]) (VInt 3) "*" 1 =
    Ok (VList [VInt 1; VInt 2; VInt 1; VInt 2; VInt 1; VInt 2]) /\
  performBinaryOperation (VList [VInt 1; VInt 2]) (VList [VInt 3]) "+" 1 =
    Ok (VList [VInt 1; VInt 2; VInt 3]).
Proof.
  destruct (list_operators [VInt 1; VInt 2] [VInt 3] (VInt 3) 1 eq_refl)
    as (Hplus & result & Hmul & Hresult & _).
  split; [| exact Hplus]. rewrite Hmul, Hresult. reflexivity.
Defined.
